(** * WebVetaApp: message delivery and state synchronisation

    A shallow embedding of the chat back end:
    - [backend/src/models/Message.js]          (the message schema),
    - [backend/src/lib/socket.js]              (presence registry, socket handlers,
                                                typing indicators),
    - [backend/src/controllers/message.controller.js] (the REST handlers and
                                                [uploadToCloudinary]),
    - the multer middleware of the message routes ([fileFilter],
      [uploadMessageMedia]),
    and of the client that talks to it:
    - [frontend/src/store/useChatStore.js]     (the message store and its socket
                                                listeners),
    - [frontend/src/components/ChatContainer.jsx], [MessageMenu.jsx] and
      [MessageInput.jsx]                       (read effect, receipt marks,
                                                reaction picker, menu, form).

    Modelling conventions.
    - ObjectIds and socket ids are the strings their [toString()] yields; every
      comparison in the source goes through [toString()].
    - The [Message] collection is a finite map from [_id] to document (MongoDB
      keeps [_id] unique); the [User] collection is a list of documents.
    - [userSocketMap] and [typingUsers] are JS objects used as dictionaries:
      finite maps with string keys.
    - A handler is a function from the world to the new world, the HTTP
      response and the socket events it emitted, in emission order.
    - [Date.now] and the ObjectId that [new Message] generates come from the
      environment and are arguments of the handlers.
    - [populate] only replaces user references by user summaries; payloads and
      response bodies carry the document itself.
    - Requests and socket events are handled one at a time, each handler
      running to its end.  [step] takes the REST requests, the connections
      and the disconnections; the typing signals and the cleanup tick are
      transitions of their own ([on_typing], [on_stopTyping], [typing_sweep]).
    - Database and network failures are left out; the two deterministic
      failures of [save] are kept: the [maxlength] of [text] and a duplicate
      [_id] on insert.
    - Strings are byte strings (UTF-8).  [trim] removes the ASCII white space
      and [toLowerCase] maps [A-Z] to [a-z].  For the two patterns the
      controller searches, ["chatbot"] and ["chat bot"], this decides
      [toLowerCase().includes(...)] as JavaScript does: none of their letters
      is the lower case of a character outside [A-Z], and no byte of a
      multi-byte character is an ASCII byte.
    - The client is the state of the zustand store as a record, a listener a
      function on that record.  The socket hands the events of one server
      action to the client in emission order, before the next action
      ([session]); a user reference in a client message is the id that
      [x._id || x] yields. *)

From Stdlib Require Import Ascii String.
From stdpp Require Import base strings list gmap fin_maps sorting.

Local Open Scope string_scope.
Local Open Scope nat_scope.
Local Open Scope list_scope.
Local Open Scope stdpp_scope.

(** ** JavaScript string primitives used by the controller *)

(** [c] is one of TAB, LF, VT, FF, CR, SPACE. *)
Definition is_whitespace (c : ascii) : bool :=
  let n := nat_of_ascii c in
  ((9 <=? n)%nat && (n <=? 13)%nat) || (n =? 32)%nat.

Fixpoint trimStart (s : string) : string :=
  match s with
  | String c s' => if is_whitespace c then trimStart s' else s
  | EmptyString => EmptyString
  end.

(** Drops the trailing white space: a character is kept when it is not white
    space or when something is kept after it. *)
Fixpoint trimEnd (s : string) : string :=
  match s with
  | String c s' =>
      match trimEnd s' with
      | EmptyString => if is_whitespace c then EmptyString else String c EmptyString
      | t => String c t
      end
  | EmptyString => EmptyString
  end.

(** [String.prototype.trim] *)
Definition trim (s : string) : string := trimEnd (trimStart s).

Definition lower_char (c : ascii) : ascii :=
  let n := nat_of_ascii c in
  if (65 <=? n)%nat && (n <=? 90)%nat then ascii_of_nat (n + 32) else c.

(** [String.prototype.toLowerCase] *)
Fixpoint toLowerCase (s : string) : string :=
  match s with
  | String c s' => String (lower_char c) (toLowerCase s')
  | EmptyString => EmptyString
  end.

(** [s.includes(pat)]: [pat] occurs in [s] at some offset. *)
Fixpoint includes (pat s : string) : bool :=
  String.prefix pat s ||
  match s with
  | String _ s' => includes pat s'
  | EmptyString => false
  end.

(** JS truthiness of an optional string: [undefined] and the empty string
    are falsy. *)
Definition truthy (o : option string) : bool :=
  match o with
  | Some (String _ _) => true
  | _ => false
  end.

(** ** Data model *)

(** [Date] values, as a count of clock ticks. *)
Abbreviation Time := nat.

(** A [User] document as the controllers read it ([select("-password")]). *)
Record User := mkUser {
  user_id : string;
  fullName : string;
  profilePic : string
}.

(** One element of [reactions]. *)
Record Reaction := mkReaction {
  reaction_userId : string;
  emoji : string
}.

(** One element of [readBy] ([readAt]) or of [deliveredTo] ([deliveredAt]);
    the date defaults to [Date.now]. *)
Record Receipt := mkReceipt {
  receipt_userId : string;
  receipt_at : Time
}.

(** The message schema of [models/Message.js].  [deletedForMe] holds the
    [userId] of each of its entries. *)
Record Message := mkMessage {
  _id : string;
  senderId : string;
  receiverId : string;
  text : string;
  image : option string;
  video : option string;
  audio : option string;
  replyTo : option string;
  edited : bool;
  editedAt : option Time;
  deletedForMe : list string;
  deletedForEveryone : bool;
  reactions : list Reaction;
  readBy : list Receipt;
  deliveredTo : list Receipt;
  createdAt : Time
}.

(** [typingUsers] entry: [{typingTo, timestamp}] *)
Record Typing := mkTyping {
  typingTo : string;
  typing_timestamp : Time
}.

(** A live socket after [socketAuthMiddleware]: its id and its user. *)
Record Socket := mkSocket {
  socket_id : string;
  socket_userId : string
}.

Record World := mkWorld {
  users : list User;
  messages : gmap string Message;
  userSocketMap : gmap string string;
  typingUsers : gmap string Typing
}.

(** ** Responses and socket events *)

Inductive Body :=
| JMessage (m : Message)
| JMessages (ms : list Message)
| JUsers (us : list User)
| JInfo (message : string)      (* [{ message: ... }] *)
| JError (error : string).      (* [{ error: ... }]   *)

Record Response := mkResponse {
  status : nat;
  body : Body
}.

Inductive Payload :=
| PMessage (m : Message)
| PObject (fields : list (string * string))
| PUserIds (ids : gset string).

(** [io.to(sid).emit(ev, p)] is [mkEmit (Some sid) ev p]; [io.emit(ev, p)]
    is [mkEmit None ev p]. *)
Record Emit := mkEmit {
  to : option string;
  event : string;
  payload : Payload
}.

Definition Outcome : Type := World * Response * list Emit.

(** ** Field updates *)

Definition set_deliveredTo (v : list Receipt) (m : Message) : Message :=
  mkMessage (_id m) (senderId m) (receiverId m) (text m) (image m) (video m)
    (audio m) (replyTo m) (edited m) (editedAt m) (deletedForMe m)
    (deletedForEveryone m) (reactions m) (readBy m) v (createdAt m).

Definition set_readBy (v : list Receipt) (m : Message) : Message :=
  mkMessage (_id m) (senderId m) (receiverId m) (text m) (image m) (video m)
    (audio m) (replyTo m) (edited m) (editedAt m) (deletedForMe m)
    (deletedForEveryone m) (reactions m) v (deliveredTo m) (createdAt m).

Definition set_reactions (v : list Reaction) (m : Message) : Message :=
  mkMessage (_id m) (senderId m) (receiverId m) (text m) (image m) (video m)
    (audio m) (replyTo m) (edited m) (editedAt m) (deletedForMe m)
    (deletedForEveryone m) v (readBy m) (deliveredTo m) (createdAt m).

Definition set_deletedForMe (v : list string) (m : Message) : Message :=
  mkMessage (_id m) (senderId m) (receiverId m) (text m) (image m) (video m)
    (audio m) (replyTo m) (edited m) (editedAt m) v
    (deletedForEveryone m) (reactions m) (readBy m) (deliveredTo m) (createdAt m).

(** [message.text = t; message.edited = true; message.editedAt = new Date()] *)
Definition set_edit (t : string) (now : Time) (m : Message) : Message :=
  mkMessage (_id m) (senderId m) (receiverId m) t (image m) (video m)
    (audio m) (replyTo m) true (Some now) (deletedForMe m)
    (deletedForEveryone m) (reactions m) (readBy m) (deliveredTo m) (createdAt m).

(** [deletedForEveryone = true], and [text], [image], [video], [audio] set to
    the empty string. *)
Definition set_tombstone (m : Message) : Message :=
  mkMessage (_id m) (senderId m) (receiverId m) EmptyString
    (Some EmptyString) (Some EmptyString) (Some EmptyString)
    (replyTo m) (edited m) (editedAt m) (deletedForMe m)
    true (reactions m) (readBy m) (deliveredTo m) (createdAt m).

Definition set_messages (v : gmap string Message) (w : World) : World :=
  mkWorld (users w) v (userSocketMap w) (typingUsers w).

(** ** [lib/socket.js] *)

Definition getReceiverSocketId (w : World) (userId : string) : option string :=
  userSocketMap w !! userId.

(** [io.on("connection", ...)]: the part that runs when the socket connects. *)
Definition on_connection (socket : Socket) (w : World) : World * list Emit :=
  let map' := <[socket_userId socket := socket_id socket]> (userSocketMap w) in
  (mkWorld (users w) (messages w) map' (typingUsers w),
   [mkEmit None "getOnlineUsers" (PUserIds (dom map'))]).

(** [socket.on("disconnect", ...)] *)
Definition on_disconnect (socket : Socket) (w : World) : World * list Emit :=
  let map' := delete (socket_userId socket) (userSocketMap w) in
  let typing' := delete (socket_userId socket) (typingUsers w) in
  (mkWorld (users w) (messages w) map' typing',
   [mkEmit None "getOnlineUsers" (PUserIds (dom map'))]).

(** The recurring pattern
    [const sid = getReceiverSocketId(u); if (sid) io.to(sid).emit(ev, p);] *)
Definition emitTo (w : World) (userId : string) (ev : string) (p : Payload)
  : list Emit :=
  let sid := getReceiverSocketId w userId in
  if truthy sid then [mkEmit sid ev p] else [].

(** ** The message store *)

Definition findById (w : World) (messageId : string) : option Message :=
  messages w !! messageId.

(** The write of [doc.save()]: the document is stored under its [_id]. *)
Definition save (m : Message) (w : World) : World :=
  set_messages (<[_id m := m]> (messages w)) w.

(** The documents of the collection. *)
Definition documents (w : World) : list Message :=
  (map_to_list (messages w)).*2.

Definition internal_error : Response :=
  mkResponse 500 (JError "Internal server error").

(** [maxlength: 2000] of the schema's [text] path, checked by [save] when the
    path was modified. *)
Definition text_valid (t : string) : bool := (String.length t <=? 2000)%nat.

(** ** [getAllContacts] and [getChatPartners] *)

(** The callback of both chatbot filters. *)
Definition not_chatbot (user : User) : bool :=
  negb (includes "chatbot" (toLowerCase (fullName user))) &&
  negb (includes "chat bot" (toLowerCase (fullName user))).

Definition getAllContacts (loggedInUserId : string) (w : World) : Outcome :=
  let allUsers := filter (λ u, user_id u ≠ loggedInUserId) (users w) in
  let filteredUsers := filter (λ user, not_chatbot user) allUsers in
  (w, mkResponse 200 (JUsers filteredUsers), []).

Definition partner_of (loggedInUserId : string) (msg : Message) : string :=
  if decide (senderId msg = loggedInUserId) then receiverId msg else senderId msg.

Definition getChatPartners (loggedInUserId : string) (w : World) : Outcome :=
  let msgs :=
    filter (λ msg, senderId msg = loggedInUserId ∨ receiverId msg = loggedInUserId)
           (documents w) in
  let chatPartnerIds : gset string :=
    list_to_set (partner_of loggedInUserId <$> msgs) in
  let allChatPartners := filter (λ u, user_id u ∈ chatPartnerIds) (users w) in
  let chatPartners := filter (λ user, not_chatbot user) allChatPartners in
  (w, mkResponse 200 (JUsers chatPartners), []).

(** ** [getMessagesByUserId] *)

Definition in_conversation (a b : string) (msg : Message) : Prop :=
  (senderId msg = a ∧ receiverId msg = b) ∨ (senderId msg = b ∧ receiverId msg = a).

Global Instance in_conversation_dec a b msg : Decision (in_conversation a b msg).
Proof. unfold in_conversation; apply _. Defined.

(** The order of [.sort({ createdAt: 1 })]. *)
Definition by_createdAt (x y : Message) : Prop := createdAt x ≤ createdAt y.

Global Instance by_createdAt_dec x y : Decision (by_createdAt x y).
Proof. unfold by_createdAt; apply _. Defined.

(** Receiver is the caller and the caller is not yet in [deliveredTo]. *)
Definition undelivered (myId : string) (msg : Message) : Prop :=
  receiverId msg = myId ∧ myId ∉ receipt_userId <$> deliveredTo msg.

Global Instance undelivered_dec myId msg : Decision (undelivered myId msg).
Proof. unfold undelivered; apply _. Defined.

(** [msg.deliveredTo.push({ userId: myId })] *)
Definition push_delivered (myId : string) (now : Time) (msg : Message) : Message :=
  set_deliveredTo (deliveredTo msg ++ [mkReceipt myId now]) msg.

(** The [for (const msg of unreadMessages)] loop. *)
Fixpoint deliver_loop (myId : string) (now : Time) (unread : list Message)
    (w : World) : World * list Emit :=
  match unread with
  | [] => (w, [])
  | msg :: rest =>
      let msg' := push_delivered myId now msg in
      let w1 := save msg' w in
      let ev := emitTo w1 (senderId msg) "messageDelivered"
                  (PObject [("messageId", _id msg); ("userId", myId)]) in
      let '(w2, evs) := deliver_loop myId now rest w1 in
      (w2, ev ++ evs)
  end.

Definition getMessagesByUserId (myId userToChatId : string) (now : Time)
    (w : World) : Outcome :=
  let allMessages :=
    merge_sort by_createdAt
      (filter (in_conversation myId userToChatId) (documents w)) in
  let msgs := filter (λ msg, myId ∉ deletedForMe msg) allMessages in
  let unreadMessages := filter (undelivered myId) msgs in
  let '(w', evs) := deliver_loop myId now unreadMessages w in
  (* the response holds the same document objects the loop has updated *)
  let shown :=
    (λ msg, if decide (undelivered myId msg)
            then push_delivered myId now msg else msg) <$> msgs in
  (w', mkResponse 200 (JMessages shown), evs).

(** ** [sendMessage] *)

(** What [uploadToCloudinary] does with a file of the request: it resolves
    with a [secure_url] or rejects with an error message.  The Blob Store is
    external; the outcome is part of the request. *)
Inductive Upload :=
| Resolved (secure_url : string)
| Rejected (message : string).

(** [req.files]: the first file of each multer field, when the field is there. *)
Record Files := mkFiles {
  files_image : option Upload;
  files_video : option Upload;
  files_audio : option Upload
}.

(** [error.message || "Unknown error"] *)
Definition error_message (message : string) : string :=
  if truthy (Some message) then message else "Unknown error".

(** [new Message({...})] of [sendMessage], with the schema defaults. *)
Definition new_message (newId senderId receiverId : string) (text : option string)
    (imageUrl videoUrl audioUrl : option string) (replyTo : option string)
    (now : Time) : Message :=
  {| _id := newId;
     senderId := senderId;
     receiverId := receiverId;
     text := if truthy (trim <$> text)
             then default EmptyString (trim <$> text) else EmptyString;
     image := imageUrl;
     video := videoUrl;
     audio := audioUrl;
     replyTo := if truthy replyTo then replyTo else None;
     edited := false;
     editedAt := None;
     deletedForMe := [];
     deletedForEveryone := false;
     reactions := [];
     readBy := [];
     deliveredTo := [mkReceipt senderId now];
     createdAt := now |}.

(** The part of [sendMessage] after the three uploads. *)
Definition sendMessage_store (senderId receiverId : string) (body_text replyTo : option string)
    (imageUrl videoUrl audioUrl : option string) (newId : string) (now : Time)
    (w : World) : Outcome :=
  let newMessage :=
    new_message newId senderId receiverId body_text imageUrl videoUrl audioUrl replyTo now in
  (* [await newMessage.save()] throws on a schema violation or a duplicate key *)
  if negb (text_valid (text newMessage)) then (w, internal_error, [])
  else if decide (is_Some (messages w !! newId)) then (w, internal_error, [])
  else
    let w' := save newMessage w in
    (w', mkResponse 201 (JMessage newMessage),
     emitTo w' receiverId "newMessage" (PMessage newMessage)).

Definition upload_failed (w : World) (kind message : string) : Outcome :=
  (w, mkResponse 500
        (JInfo ("Failed to upload " +:+ kind +:+ ": " +:+ error_message message)), []).

Definition sendMessage (senderId receiverId : string) (body_text replyTo : option string)
    (files : Files) (newId : string) (now : Time) (w : World) : Outcome :=
  if negb (truthy (trim <$> body_text)) && negb (bool_decide (is_Some (files_image files)))
     && negb (bool_decide (is_Some (files_video files)))
     && negb (bool_decide (is_Some (files_audio files)))
  then (w, mkResponse 400 (JInfo "Text, image, video, or audio is required."), [])
  else if decide (senderId = receiverId)
  then (w, mkResponse 400 (JInfo "Cannot send messages to yourself."), [])
  else if negb (bool_decide (receiverId ∈ user_id <$> users w))
  then (w, mkResponse 404 (JInfo "Receiver not found."), [])
  else
    match files_image files with
    | Some (Rejected e) => upload_failed w "image" e
    | image =>
      let imageUrl := match image with Some (Resolved u) => Some u | _ => None end in
      match files_video files with
      | Some (Rejected e) => upload_failed w "video" e
      | video =>
        let videoUrl := match video with Some (Resolved u) => Some u | _ => None end in
        match files_audio files with
        | Some (Rejected e) => upload_failed w "audio" e
        | audio =>
          let audioUrl := match audio with Some (Resolved u) => Some u | _ => None end in
          sendMessage_store senderId receiverId body_text replyTo
            imageUrl videoUrl audioUrl newId now w
        end
      end
    end.

(** ** [markMessageAsRead] *)

Definition markMessageAsRead (userId messageId : string) (now : Time) (w : World)
  : Outcome :=
  match findById w messageId with
  | None => (w, mkResponse 404 (JInfo "Message not found"), [])
  | Some message =>
      let alreadyRead := bool_decide (userId ∈ receipt_userId <$> readBy message) in
      if alreadyRead then (w, mkResponse 200 (JInfo "Message marked as read"), [])
      else
        let message' := set_readBy (readBy message ++ [mkReceipt userId now]) message in
        let w' := save message' w in
        (w', mkResponse 200 (JInfo "Message marked as read"),
         emitTo w' (senderId message) "messageRead"
           (PObject [("messageId", _id message); ("userId", userId)]))
  end.

(** ** [addReaction] and [removeReaction] *)

Definition addReaction (userId messageId : string) (emoji : option string)
    (w : World) : Outcome :=
  match emoji with
  | Some (String c e) =>
      match findById w messageId with
      | None => (w, mkResponse 404 (JInfo "Message not found"), [])
      | Some message =>
          let kept := filter (λ r, reaction_userId r ≠ userId) (reactions message) in
          let message' := set_reactions (kept ++ [mkReaction userId (String c e)]) message in
          let w' := save message' w in
          (w', mkResponse 200 (JMessage message'),
           emitTo w' (receiverId message) "reactionAdded" (PMessage message') ++
           emitTo w' (senderId message) "reactionAdded" (PMessage message'))
      end
  | _ => (w, mkResponse 400 (JInfo "Emoji is required"), [])
  end.

Definition removeReaction (userId messageId : string) (w : World) : Outcome :=
  match findById w messageId with
  | None => (w, mkResponse 404 (JInfo "Message not found"), [])
  | Some message =>
      let kept := filter (λ r, reaction_userId r ≠ userId) (reactions message) in
      let message' := set_reactions kept message in
      let w' := save message' w in
      (w', mkResponse 200 (JMessage message'),
       emitTo w' (receiverId message) "reactionRemoved" (PMessage message') ++
       emitTo w' (senderId message) "reactionRemoved" (PMessage message'))
  end.

(** ** [editMessage] *)

Definition editMessage (userId messageId : string) (body_text : option string)
    (now : Time) (w : World) : Outcome :=
  if negb (truthy body_text) || negb (truthy (trim <$> body_text))
  then (w, mkResponse 400 (JInfo "Message text is required"), [])
  else
    match findById w messageId with
    | None => (w, mkResponse 404 (JInfo "Message not found"), [])
    | Some message =>
        if decide (senderId message ≠ userId)
        then (w, mkResponse 403 (JInfo "You can only edit your own messages"), [])
        else if deletedForEveryone message
        then (w, mkResponse 400 (JInfo "Cannot edit a deleted message"), [])
        else
          let message' :=
            set_edit (default EmptyString (trim <$> body_text)) now message in
          if negb (text_valid (text message')) then (w, internal_error, [])
          else
            let w' := save message' w in
            (w', mkResponse 200 (JMessage message'),
             emitTo w' (receiverId message) "messageEdited" (PMessage message') ++
             emitTo w' (senderId message) "messageEdited" (PMessage message'))
    end.

(** ** [deleteMessage] *)

Definition deleteMessage (userId messageId : string) (deleteForEveryone : bool)
    (w : World) : Outcome :=
  match findById w messageId with
  | None => (w, mkResponse 404 (JInfo "Message not found"), [])
  | Some message =>
      let isSender := bool_decide (senderId message = userId) in
      if deleteForEveryone then
        if negb isSender
        then (w, mkResponse 403 (JInfo "Only the sender can delete for everyone"), [])
        else
          let message' := set_tombstone message in
          let w' := save message' w in
          (w', mkResponse 200 (JMessage message'),
           emitTo w' (receiverId message) "messageDeleted" (PMessage message') ++
           emitTo w' (senderId message) "messageDeleted" (PMessage message'))
      else
        let alreadyDeleted := bool_decide (userId ∈ deletedForMe message) in
        let message' :=
          if alreadyDeleted then message
          else set_deletedForMe (deletedForMe message ++ [userId]) message in
        let w' := if alreadyDeleted then w else save message' w in
        (w', mkResponse 200 (JMessage message'),
         emitTo w' userId "messageDeletedForMe" (PMessage message'))
  end.

(** ** The server as a transition system *)

Inductive Request :=
| GetAllContacts
| GetChatPartners
| GetMessagesByUserId (id : string)
| SendMessage (id : string) (text replyTo : option string) (files : Files)
              (newId : string)
| MarkMessageAsRead (messageId : string)
| AddReaction (messageId : string) (emoji : option string)
| RemoveReaction (messageId : string)
| EditMessage (messageId : string) (text : option string)
| DeleteMessage (messageId : string) (deleteForEveryone : bool).

(** The router of [routes/message.route.js]; [user] is [req.user._id], set by
    [protectRoute]. *)
Definition handle (user : string) (now : Time) (r : Request) (w : World) : Outcome :=
  match r with
  | GetAllContacts => getAllContacts user w
  | GetChatPartners => getChatPartners user w
  | GetMessagesByUserId id => getMessagesByUserId user id now w
  | SendMessage id text replyTo files newId =>
      sendMessage user id text replyTo files newId now w
  | MarkMessageAsRead messageId => markMessageAsRead user messageId now w
  | AddReaction messageId emoji => addReaction user messageId emoji w
  | RemoveReaction messageId => removeReaction user messageId w
  | EditMessage messageId text => editMessage user messageId text now w
  | DeleteMessage messageId deleteForEveryone =>
      deleteMessage user messageId deleteForEveryone w
  end.

Inductive Action :=
| Http (user : string) (now : Time) (r : Request)
| Connect (socket : Socket)
| Disconnect (socket : Socket).

Definition step (a : Action) (w : World) : World * list Emit :=
  match a with
  | Http user now r => let '(w', _, evs) := handle user now r w in (w', evs)
  | Connect socket => on_connection socket w
  | Disconnect socket => on_disconnect socket w
  end.

(** The world after a sequence of actions, first action first. *)
Fixpoint run (acts : list Action) (w : World) : World :=
  match acts with
  | [] => w
  | a :: rest => run rest (step a w).1
  end.

(** A server that has just started: users are registered, nothing else. *)
Definition init_world (us : list User) : World := mkWorld us ∅ ∅ ∅.

(** ** Properties of worlds, messages and events *)

(** Every document is stored under its own [_id]. *)
Definition store_wf (w : World) : Prop :=
  map_Forall (λ k m, _id m = k) (messages w).

(** Every registry entry holds a socket of the user it is filed under.
    [owner] gives the user of a socket id: socket.io gives every connection
    an id of its own and [socketAuthMiddleware] binds the connection to one
    user. *)
Definition registry_owned (owner : string → string) (w : World) : Prop :=
  map_Forall (λ u s, owner s = u) (userSocketMap w).

(** The users with an entry in [readBy], in [deliveredTo], in [reactions]. *)
Definition readers (m : Message) : list string := receipt_userId <$> readBy m.
Definition recipients (m : Message) : list string := receipt_userId <$> deliveredTo m.
Definition reactors (m : Message) : list string := reaction_userId <$> reactions m.

(** The reactions of one user on a message. *)
Definition reactions_of (u : string) (m : Message) : list Reaction :=
  filter (λ r, reaction_userId r = u) (reactions m).

(** A tombstone: flagged deleted for everyone, no text and no media URL. *)
Definition is_tombstone (m : Message) : Prop :=
  deletedForEveryone m = true ∧ text m = EmptyString ∧
  truthy (image m) = false ∧ truthy (video m) = false ∧ truthy (audio m) = false.


(** The object payload has a field named [f]. *)
Definition has_field (f : string) (p : Payload) : bool :=
  match p with
  | PObject fields => bool_decide (f ∈ fields.*1)
  | _ => false
  end.

Definition is_receipt (e : Emit) : Prop :=
  event e = "messageDelivered" ∨ event e = "messageRead".

(** The [secure_url] an upload resolved with. *)
Definition upload_url (f : option Upload) : option string :=
  match f with
  | Some (Resolved u) => Some u
  | _ => None
  end.

(** What one handler call by [user] at time [now] can do to a stored
    document: the seven writes of the controller. *)
Inductive update (user : string) (now : Time) : Message → Message → Prop :=
| update_delivered m :
    undelivered user m →
    update user now m (push_delivered user now m)
| update_read m :
    user ∉ readers m →
    update user now m (set_readBy (readBy m ++ [mkReceipt user now]) m)
| update_react m c e :
    update user now m
      (set_reactions (filter (λ r, reaction_userId r ≠ user) (reactions m)
                      ++ [mkReaction user (String c e)]) m)
| update_unreact m :
    update user now m
      (set_reactions (filter (λ r, reaction_userId r ≠ user) (reactions m)) m)
| update_edit m t :
    senderId m = user → deletedForEveryone m = false →
    update user now m (set_edit t now m)
| update_tombstone m :
    senderId m = user →
    update user now m (set_tombstone m)
| update_deletedForMe m :
    user ∉ deletedForMe m →
    update user now m (set_deletedForMe (deletedForMe m ++ [user]) m).

Definition evolves (m m' : Message) : Prop := ∃ user now, update user now m m'.

(** [name] has a substring that is [pat] up to the case of its letters;
    [pat] is in lower case. *)
Definition contains_ignoring_case (pat name : string) : Prop :=
  ∃ pre mid post, name = pre +:+ mid +:+ post ∧ toLowerCase mid = pat.

(** The names the two listings leave out. *)
Definition names_chatbot (name : string) : Prop :=
  contains_ignoring_case "chatbot" name ∨ contains_ignoring_case "chat bot" name.

(** Some stored message went from [me] to [p] or from [p] to [me]. *)
Definition exchanged (me p : string) (w : World) : Prop :=
  ∃ msg, msg ∈ documents w ∧
         ((senderId msg = me ∧ receiverId msg = p) ∨
          (senderId msg = p ∧ receiverId msg = me)).

(** The users in the body of a response. *)
Definition listed (o : Outcome) : list User :=
  match body o.1.2 with
  | JUsers us => us
  | _ => []
  end.

(** The receipt payload of the specification: [{messageId, userId, timestamp}]. *)
Definition receipt_with_timestamp (e : Emit) : Prop :=
  has_field "messageId" (payload e) = true ∧
  has_field "userId" (payload e) = true ∧
  has_field "timestamp" (payload e) = true.

(** The guarded unregister of the specification, for one disconnecting
    socket: when the registry holds another connection for the user of the
    socket, the disconnect leaves that entry in place. *)
Definition stale_disconnect_ignored (socket : Socket) (w : World) : Prop :=
  ∀ newer, userSocketMap w !! socket_userId socket = Some newer →
           newer ≠ socket_id socket →
           userSocketMap (on_disconnect socket w).1 !! socket_userId socket = Some newer.

(** [messages] and [unreadMessages] of [getMessagesByUserId]. *)
Definition visible_for (myId other : string) (w : World) : list Message :=
  filter (λ msg, myId ∉ deletedForMe msg)
    (merge_sort by_createdAt (filter (in_conversation myId other) (documents w))).

Definition unread_for (myId other : string) (w : World) : list Message :=
  filter (undelivered myId) (visible_for myId other w).

(** The store after the delivery loop has run over [unread]. *)
Definition deliver_all (myId : string) (now : Time) (unread : list Message)
    (ms : gmap string Message) : gmap string Message :=
  foldl (λ acc msg, <[_id msg := push_delivered myId now msg]> acc) ms unread.

(** The documents a user gets from one fetch of a conversation. *)
Definition fetched (myId userToChatId : string) (now : Time) (w : World)
  : list Message :=
  match body (getMessagesByUserId myId userToChatId now w).1.2 with
  | JMessages ms => ms
  | _ => []
  end.

(** How the store of [w'] relates to the store of [w] after one request of
    [user] at time [now]: a stored document stays or undergoes one update,
    and a free [_id] stays free or receives a message newly created by
    [user]. *)
Definition tracked (user : string) (now : Time) (w w' : World) : Prop :=
  ∀ k, match messages w !! k with
       | Some m => ∃ m', messages w' !! k = Some m' ∧ (m' = m ∨ update user now m m')
       | None =>
           messages w' !! k = None ∨
           ∃ rcv t i v a rt,
             messages w' !! k = Some (new_message k user rcv t i v a rt now)
       end.

(** No user has two entries in the [reactions] of a stored message. *)
Definition reactions_ok (w : World) : Prop :=
  map_Forall (λ _ m, NoDup (reactors m)) (messages w).

(** No user has two entries in [readBy] or in [deliveredTo]. *)
Definition receipts_ok (w : World) : Prop :=
  map_Forall (λ _ m, NoDup (readers m) ∧ NoDup (recipients m)) (messages w).

(** ** A small world used in the examples *)

Definition alice : User := mkUser "a" "Alice" EmptyString.
Definition bob : User := mkUser "b" "Bob" EmptyString.
Definition carol : User := mkUser "c" "Carol" EmptyString.
Definition helper : User := mkUser "x" "Support ChatBot" EmptyString.

Definition no_files : Files := mkFiles None None None.

(** Alice and Bob are connected; Alice has sent ["hello"] to Bob. *)
Definition demo_world : World :=
  run [Connect (mkSocket "s1" "a"); Connect (mkSocket "s2" "b");
       Http "a" 5 (SendMessage "b" (Some "hello") None no_files "m1")]
      (init_world [alice; bob; carol; helper]).

(** The users of the two sockets of [demo_world]. *)
Definition demo_owner (s : string) : string :=
  if decide (s = "s1") then "a" else "b".

(** [demo_world] after Alice has deleted her message for everyone. *)
Definition demo_deleted : World :=
  run [Http "a" 6 (DeleteMessage "m1" true)] demo_world.

(** Bob reacts twice to the message of Alice. *)
Definition demo_reactions : list Action :=
  [Http "b" 7 (AddReaction "m1" (Some ":)"));
   Http "b" 8 (AddReaction "m1" (Some "<3"))].

(** Bob opens the conversation and reads the message, twice over. *)
Definition demo_reading : list Action :=
  [Http "b" 7 (GetMessagesByUserId "a"); Http "b" 8 (MarkMessageAsRead "m1");
   Http "b" 9 (GetMessagesByUserId "a"); Http "b" 10 (MarkMessageAsRead "m1")].

(** ** Further notions for the properties of the handlers *)

(** The check that opens [sendMessage]: a text that is not blank, or a file. *)
Definition has_content (body_text : option string) (files : Files) : bool :=
  truthy (trim <$> body_text)
  || bool_decide (is_Some (files_image files))
  || bool_decide (is_Some (files_video files))
  || bool_decide (is_Some (files_audio files)).

(** The error of an upload that was rejected. *)
Definition upload_error (f : option Upload) : option string :=
  match f with
  | Some (Rejected e) => Some e
  | _ => None
  end.

(** The first upload that fails, in the order image, video, audio, with its
    error. *)
Definition first_rejected (files : Files) : option (string * string) :=
  match upload_error (files_image files) with
  | Some e => Some ("image", e)
  | None =>
      match upload_error (files_video files) with
      | Some e => Some ("video", e)
      | None =>
          match upload_error (files_audio files) with
          | Some e => Some ("audio", e)
          | None => None
          end
      end
  end.

(** [text?.trim() || ""] *)
Definition stored_text (body_text : option string) : string :=
  default EmptyString (trim <$> body_text).


(** What holds of every message the server stores: two different
    participants, a registered receiver, [deliveredTo] opened by the sender at
    the time of creation and holding participants only, [edited] and
    [editedAt] set together, cleared content under the deleted flag, and no
    user twice in [deletedForMe]. *)
Definition message_ok (us : list User) (m : Message) : Prop :=
  senderId m ≠ receiverId m ∧
  receiverId m ∈ user_id <$> us ∧
  (∃ rest, deliveredTo m = mkReceipt (senderId m) (createdAt m) :: rest) ∧
  (∀ u, u ∈ recipients m → u = senderId m ∨ u = receiverId m) ∧
  (edited m = true ↔ is_Some (editedAt m)) ∧
  (deletedForEveryone m = true → is_tombstone m) ∧
  NoDup (deletedForMe m).

(** Alice sends, Bob fetches, reacts and reads, Alice edits, Bob hides the
    message from his own view. *)
Definition demo_session : list Action :=
  [Connect (mkSocket "s1" "a");
   Http "a" 5 (SendMessage "b" (Some " hello ") None no_files "m1");
   Connect (mkSocket "s2" "b");
   Http "b" 6 (GetMessagesByUserId "a");
   Http "b" 7 (AddReaction "m1" (Some ":)"));
   Http "b" 8 (MarkMessageAsRead "m1");
   Http "a" 9 (EditMessage "m1" (Some "hello Bob"));
   Http "b" 10 (DeleteMessage "m1" false)].

(** What a later version [m'] of a stored message [m] keeps: the identity of
    the message never changes, the flags never go back, [deletedForMe] only
    grows, the text changes under the edited or the deleted flag only, the
    media under the deleted flag only. *)
Definition later_version (m m' : Message) : Prop :=
  _id m' = _id m ∧ senderId m' = senderId m ∧ receiverId m' = receiverId m ∧
  replyTo m' = replyTo m ∧ createdAt m' = createdAt m ∧
  (edited m = true → edited m' = true) ∧
  (deletedForEveryone m = true → deletedForEveryone m' = true) ∧
  deletedForMe m `prefix_of` deletedForMe m' ∧
  (text m' = text m ∨ edited m' = true ∨ deletedForEveryone m' = true) ∧
  ((image m' = image m ∧ video m' = video m ∧ audio m' = audio m) ∨
   deletedForEveryone m' = true).


(** ** Typing indicators of [lib/socket.js] *)

(** [socket.user?.fullName || "Unknown"] *)
Definition userName_of (fullName : option string) : string :=
  if truthy fullName then default EmptyString fullName else "Unknown".

Definition set_typingUsers (v : gmap string Typing) (w : World) : World :=
  mkWorld (users w) (messages w) (userSocketMap w) v.

(** [socket.on("typing", ({ receiverId }) => ...)]; [userName] is the name
    taken from the socket when it connected. *)
Definition on_typing (socket : Socket) (userName receiverId : string) (now : Time)
    (w : World) : World * list Emit :=
  let w' := set_typingUsers
              (<[socket_userId socket := mkTyping receiverId now]> (typingUsers w)) w in
  (w', emitTo w' receiverId "userTyping"
         (PObject [("userId", socket_userId socket); ("userName", userName)])).

(** [socket.on("stopTyping", ({ receiverId }) => ...)] *)
Definition on_stopTyping (socket : Socket) (receiverId : string) (w : World)
  : World * list Emit :=
  let w' := set_typingUsers (delete (socket_userId socket) (typingUsers w)) w in
  (w', emitTo w' receiverId "userStoppedTyping"
         (PObject [("userId", socket_userId socket)])).

(** [now - typingData.timestamp > 3000], times in milliseconds. *)
Definition typing_expired (now : Time) (typingData : Typing) : Prop :=
  3000 < now - typing_timestamp typingData.

Global Instance typing_expired_dec now d : Decision (typing_expired now d).
Proof. unfold typing_expired; apply _. Defined.

(** The loop of the cleanup interval over [Object.entries(typingUsers)]. *)
Fixpoint sweep_loop (now : Time) (entries : list (string * Typing)) (w : World)
  : World * list Emit :=
  match entries with
  | [] => (w, [])
  | (uid, typingData) :: rest =>
      if decide (typing_expired now typingData) then
        let w1 := set_typingUsers (delete uid (typingUsers w)) w in
        let ev := emitTo w1 (typingTo typingData) "userStoppedTyping"
                    (PObject [("userId", uid)]) in
        let '(w2, evs) := sweep_loop now rest w1 in
        (w2, ev ++ evs)
      else sweep_loop now rest w
  end.

(** One tick of the cleanup interval, at time [now].  The entries are visited
    in the order of the table, which the properties below do not depend on. *)
Definition typing_sweep (now : Time) (w : World) : World * list Emit :=
  sweep_loop now (map_to_list (typingUsers w)) w.

(** The notification that [uid] stopped typing. *)
Definition stopped_typing (uid : string) : Payload := PObject [("userId", uid)].

(** ** [uploadToCloudinary] *)

(** The three Cloudinary settings of [ENV]. *)
Record Env := mkEnv {
  CLOUDINARY_CLOUD_NAME : option string;
  CLOUDINARY_API_KEY : option string;
  CLOUDINARY_API_SECRET : option string
}.

Definition cloudinary_configured (env : Env) : bool :=
  truthy (CLOUDINARY_CLOUD_NAME env) && truthy (CLOUDINARY_API_KEY env)
  && truthy (CLOUDINARY_API_SECRET env).

(** A file as multer hands it over; only the presence of the buffer is read. *)
Record RawFile := mkRawFile {
  buffer : option string
}.

Record UploadOptions := mkUploadOptions {
  resource_type : string;
  folder : string;
  use_filename : bool;
  unique_filename : bool;
  quality : option string
}.

(** What Cloudinary does with a stream: the callback gets a result or an
    error, or the stream itself fails. *)
Inductive CloudAnswer :=
| CloudResult (secure_url : string)
| CloudError (message : option string)
| StreamError (message : string).

Definition upload_options (resourceType : string) : UploadOptions :=
  mkUploadOptions resourceType "chat-app" true true
    (if decide (resourceType = "image") then Some "auto" else None).

Definition not_configured_message : string :=
  "Cloudinary is not configured. Please set CLOUDINARY_CLOUD_NAME, CLOUDINARY_API_KEY, and CLOUDINARY_API_SECRET in your .env file".

(** The error the callback of [upload_stream] rejects with. *)
Definition cloud_error_message (message : option string) : string :=
  match message with
  | Some (String c s) =>
      if includes "Invalid cloud_name" (String c s)
      then "Invalid Cloudinary cloud name. Please check your CLOUDINARY_CLOUD_NAME in .env file"
      else if includes "Invalid API Key" (String c s)
      then "Invalid Cloudinary API key. Please check your CLOUDINARY_API_KEY in .env file"
      else "Cloudinary upload failed: " +:+ String c s
  | _ => "Cloudinary upload failed: Unknown error"
  end.

(** [uploadToCloudinary(file, resourceType)]; [cloud] stands for the
    Cloudinary service. *)
Definition uploadToCloudinary (env : Env) (cloud : UploadOptions → string → CloudAnswer)
    (file : option RawFile) (resourceType : string) : Upload :=
  match file ≫= buffer with
  | None => Rejected "Invalid file: no buffer found"
  | Some bytes =>
      if negb (cloudinary_configured env) then Rejected not_configured_message
      else
        match cloud (upload_options resourceType) bytes with
        | CloudResult secure_url => Resolved secure_url
        | CloudError message => Rejected (cloud_error_message message)
        | StreamError message => Rejected message
        end
  end.

(** [req.files] before the uploads. *)
Record RawFiles := mkRawFiles {
  raw_image : option RawFile;
  raw_video : option RawFile;
  raw_audio : option RawFile
}.

(** The uploads of [sendMessage]: the image as ["image"], the video and the
    audio as ["video"].  [sendMessage] stops at the first upload that fails;
    the outcomes of the later ones are then not looked at. *)
Definition uploads (env : Env) (cloud : UploadOptions → string → CloudAnswer)
    (raw : RawFiles) : Files :=
  mkFiles
    ((λ f, uploadToCloudinary env cloud (Some f) "image") <$> raw_image raw)
    ((λ f, uploadToCloudinary env cloud (Some f) "video") <$> raw_video raw)
    ((λ f, uploadToCloudinary env cloud (Some f) "video") <$> raw_audio raw).

(** The kind of the first file of the request, in the order of the uploads. *)
Definition first_file (raw : RawFiles) : option string :=
  match raw_image raw, raw_video raw, raw_audio raw with
  | Some _, _, _ => Some "image"
  | None, Some _, _ => Some "video"
  | None, None, Some _ => Some "audio"
  | None, None, None => None
  end.

(** The URL Cloudinary answers with for a file uploaded as [resourceType]. *)
Definition cloud_url (cloud : UploadOptions → string → CloudAnswer)
    (resourceType : string) (file : option RawFile) : option string :=
  match file ≫= buffer with
  | Some bytes =>
      match cloud (upload_options resourceType) bytes with
      | CloudResult secure_url => Some secure_url
      | _ => None
      end
  | None => None
  end.

(** ** The client: [frontend/src/store/useChatStore.js] *)

(** An element of [readBy] or [deliveredTo] as the client holds it: with the
    date the server stored, or without date when the client added it from a
    receipt event ([{ userId }]). *)
Record ClientReceipt := mkClientReceipt {
  cr_userId : string;
  cr_at : option Time
}.

(** A message as the client holds it.  A user reference is the id that
    [x._id || x] yields, whether the server populated it or not;
    [isOptimistic] is set on placeholders only. *)
Record ClientMessage := mkClientMessage {
  c_id : string;
  c_senderId : string;
  c_receiverId : string;
  c_text : string;
  c_image : option string;
  c_video : option string;
  c_audio : option string;
  c_replyTo : option string;
  c_edited : bool;
  c_editedAt : option Time;
  c_deletedForMe : list string;
  c_deletedForEveryone : bool;
  c_reactions : list Reaction;
  c_readBy : list ClientReceipt;
  c_deliveredTo : list ClientReceipt;
  c_createdAt : Time;
  isOptimistic : bool
}.

Definition dated (r : Receipt) : ClientReceipt :=
  mkClientReceipt (receipt_userId r) (Some (receipt_at r)).

(** The JSON of a stored document, as the client reads it. *)
Definition to_client (m : Message) : ClientMessage :=
  mkClientMessage (_id m) (senderId m) (receiverId m) (text m) (image m) (video m)
    (audio m) (replyTo m) (edited m) (editedAt m) (deletedForMe m)
    (deletedForEveryone m) (reactions m) (dated <$> readBy m)
    (dated <$> deliveredTo m) (createdAt m) false.

Definition set_c_readBy (v : list ClientReceipt) (m : ClientMessage) : ClientMessage :=
  mkClientMessage (c_id m) (c_senderId m) (c_receiverId m) (c_text m) (c_image m)
    (c_video m) (c_audio m) (c_replyTo m) (c_edited m) (c_editedAt m)
    (c_deletedForMe m) (c_deletedForEveryone m) (c_reactions m) v
    (c_deliveredTo m) (c_createdAt m) (isOptimistic m).

Definition set_c_deliveredTo (v : list ClientReceipt) (m : ClientMessage)
  : ClientMessage :=
  mkClientMessage (c_id m) (c_senderId m) (c_receiverId m) (c_text m) (c_image m)
    (c_video m) (c_audio m) (c_replyTo m) (c_edited m) (c_editedAt m)
    (c_deletedForMe m) (c_deletedForEveryone m) (c_reactions m) (c_readBy m)
    v (c_createdAt m) (isOptimistic m).

(** The users in [readBy] and in [deliveredTo] of a client message. *)
Definition c_readers (m : ClientMessage) : list string := cr_userId <$> c_readBy m.
Definition c_recipients (m : ClientMessage) : list string :=
  cr_userId <$> c_deliveredTo m.

(** The part of the store that the message handlers read and write.
    [selectedUser] holds the [_id] of the selected user. *)
Record Client := mkClient {
  selectedUser : option string;
  c_messages : list ClientMessage;
  pendingMessages : gset string;
  c_typingUsers : list string;
  isTyping : bool
}.

Definition set_c_messages (v : list ClientMessage) (c : Client) : Client :=
  mkClient (selectedUser c) v (pendingMessages c) (c_typingUsers c) (isTyping c).

Definition set_c_typingUsers (v : list string) (c : Client) : Client :=
  mkClient (selectedUser c) (c_messages c) (pendingMessages c) v (isTyping c).

Definition set_pendingMessages (v : gset string) (c : Client) : Client :=
  mkClient (selectedUser c) (c_messages c) v (c_typingUsers c) (isTyping c).

(** A client that has just started. *)
Definition init_client : Client := mkClient None [] ∅ [] false.

(** [setSelectedUser], called by [currentUser]: the new state and the [_id]s
    of the messages it asks the server to mark as read.  The messages are
    read back after they have been cleared. *)
Definition setSelectedUser (selected : option string) (currentUser : string)
    (c : Client) : Client * list string :=
  let c' := mkClient selected [] ∅ (c_typingUsers c) (isTyping c) in
  match selected with
  | Some selectedId =>
      let unreadMessages :=
        filter (λ msg, c_senderId msg = selectedId ∧ currentUser ∉ c_readers msg)
               (c_messages c') in
      (c', c_id <$> unreadMessages)
  | None => (c', [])
  end.

(** [getMessagesByUserId] of the store, on a successful answer [data]. *)
Definition client_getMessagesByUserId (data : list ClientMessage) (c : Client)
  : Client :=
  mkClient (selectedUser c) data ∅ (c_typingUsers c) (isTyping c).

(** [handleNewMessage], the listener of [newMessage]. *)
Definition handleNewMessage (newMessage : ClientMessage) (c : Client) : Client :=
  match selectedUser c with
  | None => c
  | Some currentSelectedUserId =>
      if decide (c_senderId newMessage = currentSelectedUserId) then
        let messageExists :=
          bool_decide (c_id newMessage ∈ c_id <$> c_messages c) in
        let isPending := bool_decide (c_id newMessage ∈ pendingMessages c) in
        if negb messageExists && negb isPending
        then set_c_messages (c_messages c ++ [newMessage]) c
        else c
      else c
  end.

(** What the listener of [messageRead] does to one message. *)
Definition add_reader (userId : string) (msg : ClientMessage) : ClientMessage :=
  if bool_decide (userId ∈ c_readers msg) then msg
  else set_c_readBy (c_readBy msg ++ [mkClientReceipt userId None]) msg.

(** The listener of [messageRead]. *)
Definition on_messageRead (messageId userId : string) (c : Client) : Client :=
  set_c_messages
    ((λ msg, if decide (c_id msg = messageId) then add_reader userId msg else msg)
       <$> c_messages c) c.

(** What the listener of [messageDelivered] does to one message. *)
Definition add_recipient (userId : string) (msg : ClientMessage) : ClientMessage :=
  if bool_decide (userId ∈ c_recipients msg) then msg
  else set_c_deliveredTo (c_deliveredTo msg ++ [mkClientReceipt userId None]) msg.

(** The listener of [messageDelivered]. *)
Definition on_messageDelivered (messageId userId : string) (c : Client) : Client :=
  set_c_messages
    ((λ msg, if decide (c_id msg = messageId) then add_recipient userId msg else msg)
       <$> c_messages c) c.

(** [messages.map((msg) => msg._id === messageId ? message : msg)]: the
    listeners of [reactionAdded], [reactionRemoved], [messageEdited] and
    [messageDeleted] with [messageId = message._id], and the store's
    [addReaction], [removeReaction], [editMessage] and [deleteMessage] for
    everyone with the answer of the server. *)
Definition replace_message (messageId : string) (message : ClientMessage)
    (c : Client) : Client :=
  set_c_messages
    ((λ msg, if decide (c_id msg = messageId) then message else msg)
       <$> c_messages c) c.

(** [messages.filter((msg) => msg._id !== messageId)]: the listener of
    [messageDeletedForMe], and the store's [deleteMessage] for the user
    alone. *)
Definition remove_message (messageId : string) (c : Client) : Client :=
  set_c_messages (filter (λ msg, c_id msg ≠ messageId) (c_messages c)) c.

(** The listener of [userTyping]; [subscribed] is the user that was selected
    when [subscribeToMessages] attached the listeners. *)
Definition on_userTyping (subscribed userId : string) (c : Client) : Client :=
  if decide (userId = subscribed)
  then set_c_typingUsers
         (filter (λ id, id ≠ userId) (c_typingUsers c) ++ [userId]) c
  else c.

(** The listener of [userStoppedTyping]. *)
Definition on_userStoppedTyping (userId : string) (c : Client) : Client :=
  set_c_typingUsers (filter (λ id, id ≠ userId) (c_typingUsers c)) c.

(** What arrives on the socket, for the listeners of [subscribeToMessages]. *)
Inductive ServerEvent :=
| NewMessage (m : ClientMessage)
| MessageRead (messageId userId : string)
| MessageDelivered (messageId userId : string)
| ReactionAdded (m : ClientMessage)
| ReactionRemoved (m : ClientMessage)
| MessageEdited (m : ClientMessage)
| MessageDeleted (m : ClientMessage)
| MessageDeletedForMe (m : ClientMessage)
| UserTyping (userId : string)
| UserStoppedTyping (userId : string).

(** The listeners that [subscribeToMessages] attaches for [subscribed]. *)
Definition client_on (subscribed : string) (ev : ServerEvent) (c : Client) : Client :=
  match ev with
  | NewMessage m => handleNewMessage m c
  | MessageRead messageId userId => on_messageRead messageId userId c
  | MessageDelivered messageId userId => on_messageDelivered messageId userId c
  | ReactionAdded m | ReactionRemoved m | MessageEdited m | MessageDeleted m =>
      replace_message (c_id m) m c
  | MessageDeletedForMe m => remove_message (c_id m) c
  | UserTyping userId => on_userTyping subscribed userId c
  | UserStoppedTyping userId => on_userStoppedTyping userId c
  end.

(** The field [f] of an object payload, as a destructuring parameter reads
    it. *)
Definition field (f : string) (p : Payload) : option string :=
  match p with
  | PObject fields => snd <$> head (filter (λ x, x.1 = f) fields)
  | _ => None
  end.

Definition message_of (p : Payload) : option ClientMessage :=
  match p with
  | PMessage m => Some (to_client m)
  | _ => None
  end.

(** What the socket hands to the listeners for an event of the server: the
    name selects the listener, the listener reads the payload.  Names without
    listener in this store are dropped. *)
Definition decode (e : Emit) : option ServerEvent :=
  if decide (event e = "newMessage") then NewMessage <$> message_of (payload e)
  else if decide (event e = "reactionAdded")
  then ReactionAdded <$> message_of (payload e)
  else if decide (event e = "reactionRemoved")
  then ReactionRemoved <$> message_of (payload e)
  else if decide (event e = "messageEdited")
  then MessageEdited <$> message_of (payload e)
  else if decide (event e = "messageDeleted")
  then MessageDeleted <$> message_of (payload e)
  else if decide (event e = "messageDeletedForMe")
  then MessageDeletedForMe <$> message_of (payload e)
  else if decide (event e = "messageRead")
  then messageId ← field "messageId" (payload e);
       userId ← field "userId" (payload e);
       Some (MessageRead messageId userId)
  else if decide (event e = "messageDelivered")
  then messageId ← field "messageId" (payload e);
       userId ← field "userId" (payload e);
       Some (MessageDelivered messageId userId)
  else if decide (event e = "userTyping")
  then UserTyping <$> field "userId" (payload e)
  else if decide (event e = "userStoppedTyping")
  then UserStoppedTyping <$> field "userId" (payload e)
  else None.

(** One event of the server at the client whose socket is [sid]. *)
Definition client_event (subscribed sid : string) (c : Client) (e : Emit) : Client :=
  if decide (to e = Some sid)
  then match decode e with
       | Some ev => client_on subscribed ev c
       | None => c
       end
  else c.

(** The client whose socket is [sid] handles the events addressed to that
    socket, in the order of emission. *)
Definition client_receive (subscribed sid : string) (evs : list Emit) (c : Client)
  : Client :=
  foldl (client_event subscribed sid) c evs.

(** *** [sendMessage] of the store *)

(** [optimisticMessage]; the previews are the object URLs of the files. *)
Definition optimisticMessage (tempId authUser selected : string) (body_text : string)
    (imagePreview videoPreview audioPreview : option string) (reply : option string)
    (now : Time) : ClientMessage :=
  mkClientMessage tempId authUser selected body_text imagePreview videoPreview
    audioPreview reply false None [] false [] [] [] now true.

(** The call up to the request: the placeholder is appended to the messages
    read at the start of the call. *)
Definition client_sendMessage_begin (optimistic : ClientMessage) (c : Client)
  : Client :=
  match selectedUser c with
  | None => c
  | Some _ => set_c_messages (c_messages c ++ [optimistic]) c
  end.

(** The call after the answer [realMessage]; [pending0] is the pending set
    read at the start of the call. *)
Definition client_sendMessage_success (tempId : string) (pending0 : gset string)
    (realMessage : ClientMessage) (c : Client) : Client :=
  mkClient (selectedUser c)
    ((λ msg, if decide (c_id msg = tempId) then realMessage else msg) <$> c_messages c)
    (pending0 ∪ {[c_id realMessage]}) (c_typingUsers c) (isTyping c).

(** The timer that ends the pending window, 2000 ms after the answer. *)
Definition client_sendMessage_timeout (realId : string) (c : Client) : Client :=
  set_pendingMessages (pendingMessages c ∖ {[realId]}) c.

(** The call after a failed request. *)
Definition client_sendMessage_failure (tempId : string) (c : Client) : Client :=
  set_c_messages (filter (λ msg, c_id msg ≠ tempId) (c_messages c)) c.

(** *** Typing signals of the store *)

Inductive Signal :=
| SigTyping (receiverId : string)
| SigStopTyping (receiverId : string).

(** [handleTyping]; [connected] tells whether there is a connected socket. *)
Definition handleTyping (connected : bool) (receiverId : string) (c : Client)
  : Client * list Signal :=
  if connected && negb (isTyping c)
  then (mkClient (selectedUser c) (c_messages c) (pendingMessages c)
          (c_typingUsers c) true, [SigTyping receiverId])
  else (c, []).

(** [handleStopTyping] *)
Definition handleStopTyping (connected : bool) (receiverId : string) (c : Client)
  : Client * list Signal :=
  if connected && isTyping c
  then (mkClient (selectedUser c) (c_messages c) (pendingMessages c)
          (c_typingUsers c) false, [SigStopTyping receiverId])
  else (c, []).

(** ** The chat view: [frontend/src/components/ChatContainer.jsx] *)

(** The effect that marks messages as read: the [_id]s it sends a
    [PUT /messages/read/:id] for. *)
Definition read_requests (authUser : string) (c : Client) : list string :=
  match selectedUser c with
  | Some _ =>
      c_id <$> filter (λ msg, c_senderId msg ≠ authUser ∧ authUser ∉ c_readers msg)
                      (c_messages c)
  | None => []
  end.

(** [handleReactionClick]: the request that a click on the emoji [clicked]
    sends. *)
Definition handleReactionClick (authUser messageId clicked : string) (c : Client)
  : Request :=
  let message := head (filter (λ m, c_id m = messageId) (c_messages c)) in
  let hasReaction :=
    match message with
    | Some message =>
        bool_decide (Exists (λ r, reaction_userId r = authUser ∧ emoji r = clicked)
                       (c_reactions message))
    | None => false
    end in
  if hasReaction then RemoveReaction messageId
  else AddReaction messageId (Some clicked).

(** [isMessageRead] *)
Definition isMessageRead (authUser : string) (message : ClientMessage) : bool :=
  bool_decide (Exists (λ r, cr_userId r = authUser) (c_readBy message)).

(** [isMessageDelivered].  The callback of [some] is
    [id(d) === message.receiverId._id || message.receiverId]: the comparison
    binds tighter than [||].  [populated] tells whether the server sent the
    receiver as a user summary (an object, which is truthy and has an [_id])
    or as an id (a string, which has no [_id]). *)
Definition isMessageDelivered (populated : bool) (message : ClientMessage) : bool :=
  bool_decide
    (Exists (λ d, (populated = true ∧ cr_userId d = c_receiverId message) ∨
                  (populated = true ∨ truthy (Some (c_receiverId message)) = true))
            (c_deliveredTo message)).

(** The receipt mark under a message: none under a message of somebody else,
    else two blue checks, two grey checks or one grey check. *)
Inductive Tick := NoTick | OneCheck | TwoChecks | TwoBlueChecks.

Definition receipt_tick (authUser : string) (populated : bool)
    (msg : ClientMessage) : Tick :=
  let isSentByMe := bool_decide (c_senderId msg = authUser) in
  if isSentByMe then
    if isMessageRead authUser msg then TwoBlueChecks
    else if isMessageDelivered populated msg then TwoChecks
    else OneCheck
  else NoTick.

(** ** The message menu: [frontend/src/components/MessageMenu.jsx] *)



(** ** Client and server together *)

(** The ids of the messages on display. *)
Definition shown_ids (c : Client) : list string := c_id <$> c_messages c.

(** The client copy [cm] shows the stored document [m]: the same message
    with the same content, flags and reactions, read by and delivered to the
    same users in the same order.  The dates of the receipts and
    [deletedForMe] are not compared. *)
Definition agrees (cm : ClientMessage) (m : Message) : Prop :=
  c_id cm = _id m ∧ c_senderId cm = senderId m ∧ c_receiverId cm = receiverId m ∧
  c_text cm = text m ∧ c_image cm = image m ∧ c_video cm = video m ∧
  c_audio cm = audio m ∧ c_replyTo cm = replyTo m ∧ c_edited cm = edited m ∧
  c_editedAt cm = editedAt m ∧ c_deletedForEveryone cm = deletedForEveryone m ∧
  c_reactions cm = reactions m ∧ c_createdAt cm = createdAt m ∧
  c_readers cm = readers m ∧ c_recipients cm = recipients m.

(** Every message of [me] that the client of [me] displays, placeholders
    apart, shows the document stored under its [_id]. *)
Definition in_sync (me : string) (w : World) (c : Client) : Prop :=
  ∀ cm, cm ∈ c_messages c → c_senderId cm = me → isOptimistic cm = false →
        ∃ m, messages w !! c_id cm = Some m ∧ agrees cm m.


(** Server and client together: the server takes the actions one by one, and
    after each the client whose socket is [sid] handles the events of that
    action. *)
Fixpoint session (subscribed sid : string) (acts : list Action) (w : World)
    (c : Client) : World * Client :=
  match acts with
  | [] => (w, c)
  | a :: rest =>
      session subscribed sid rest (step a w).1
        (client_receive subscribed sid (step a w).2 c)
  end.

(** Alice shows her message to Bob; Bob fetches the conversation, reads the
    message and reacts to it. *)
Definition demo_alice_client : Client :=
  client_getMessagesByUserId (to_client <$> fetched "a" "b" 6 demo_world)
    (setSelectedUser (Some "b") "a" init_client).1.

Definition demo_bob_actions : list Action :=
  [Http "b" 7 (GetMessagesByUserId "a"); Http "b" 8 (MarkMessageAsRead "m1");
   Http "b" 9 (AddReaction "m1" (Some ":)"))].

(** Bob has opened the conversation with Alice. *)
Definition demo_bob_client : Client :=
  client_getMessagesByUserId (to_client <$> fetched "b" "a" 6 demo_world)
    (setSelectedUser (Some "a") "b" init_client).1.

Global Instance Reaction_eq_dec : EqDecision Reaction.
Proof. solve_decision. Defined.

(** ** The input form: [frontend/src/components/MessageInput.jsx] *)



(** ** Uploads: the multer middleware of the message routes *)

(** A file of a multipart request as multer hands it to [fileFilter], and as
    the browser holds it ([name], [type], [size]): [ext_lower] is
    [path.extname(file.originalname).toLowerCase()], the size is in bytes. *)
Record IncomingFile := mkIncomingFile {
  ext_lower : string;
  mimetype : string;
  file_size : N
}.

(** [/a|b|c/.test(s)]: one of the alternatives occurs in [s]. *)
Definition regex_test (alternatives : list string) (s : string) : bool :=
  existsb (λ a, includes a s) alternatives.

Definition allowedImageTypes : list string := ["jpeg"; "jpg"; "png"; "gif"; "webp"].
Definition allowedVideoTypes : list string :=
  ["mp4"; "webm"; "ogg"; "mov"; "quicktime"].
Definition allowedAudioTypes : list string :=
  ["mp3"; "wav"; "ogg"; "m4a"; "aac"; "webm"].

Definition invalid_file_type (mimetype : string) : string :=
  "Invalid file type: " +:+ mimetype
  +:+ ". Only images, videos, and audio files are allowed.".

(** [fileFilter]: [None] when the file is accepted, else the message of the
    error. *)
Definition fileFilter (file : IncomingFile) : option string :=
  let extname :=
    regex_test allowedImageTypes (ext_lower file) ||
    regex_test allowedVideoTypes (ext_lower file) ||
    regex_test allowedAudioTypes (ext_lower file) in
  let mimetype_ok :=
    String.prefix "image/" (mimetype file) ||
    String.prefix "video/" (mimetype file) ||
    String.prefix "audio/" (mimetype file) ||
    bool_decide (mimetype file = "audio/webm") in
  if mimetype_ok || extname then None
  else Some (invalid_file_type (mimetype file)).

(** [limits.fileSize] *)
Definition fileSize : N := 50 * 1024 * 1024.

(** The error that [uploadFields] hands to its callback. *)
Inductive UploadError :=
| MulterError (code message : string)
| PlainError (message : string).

(** [uploadMessageMedia]: the answer, or [None] when the request goes on to
    the controller. *)
Definition uploadMessageMedia (err : option UploadError) : option Response :=
  match err with
  | None => None
  | Some (MulterError code message) =>
      if decide (code = "LIMIT_FILE_SIZE")
      then Some (mkResponse 400 (JInfo "File size too large. Maximum size is 50MB."))
      else Some (mkResponse 400 (JInfo ("File upload error: " +:+ message)))
  | Some (PlainError message) =>
      Some (mkResponse 400
              (JInfo (if truthy (Some message) then message else "File upload failed")))
  end.

(** [handleImageChange] and [handleVideoChange] of the input form: the toast
    of a refused file, or the file that is attached. *)
Definition handleImageChange (file : IncomingFile) : string + IncomingFile :=
  if negb (String.prefix "image/" (mimetype file))
  then inl "Please select an image file"
  else if (10 * 1024 * 1024 <? file_size file)%N
  then inl "Image size should be less than 10MB"
  else inr file.

Definition handleVideoChange (file : IncomingFile) : string + IncomingFile :=
  if negb (String.prefix "video/" (mimetype file))
  then inl "Please select a video file"
  else if (50 * 1024 * 1024 <? file_size file)%N
  then inl "Video size should be less than 50MB"
  else inr file.

(** The recording that [handleSendMessage] appends as ["voice-message.webm"]. *)
Definition voice_message (size : N) : IncomingFile :=
  mkIncomingFile ".webm" "audio/webm" size.



(** * Proofs *)

(** Closes a decidable goal about concrete data by evaluation. *)
Ltac by_evaluation :=
  apply (bool_decide_unpack _); vm_compute; exact I.


(** ** String primitives on examples *)

Example trim_ex :
  trim "  hello  world  " = "hello  world" ∧ trim "   " = EmptyString.
Proof. split; reflexivity. Qed.

Example includes_ex :
  includes "chat bot" (toLowerCase "My CHAT Bot") = true ∧
  includes "chatbot" (toLowerCase "Chad Botha") = false.
Proof. split; reflexivity. Qed.

(** ** Presence registry *)

Lemma on_connection_lookup socket w u :
  userSocketMap (on_connection socket w).1 !! u =
  if decide (socket_userId socket = u) then Some (socket_id socket)
  else userSocketMap w !! u.
Proof. cbn. apply lookup_insert. Qed.

Lemma on_disconnect_lookup socket w u :
  userSocketMap (on_disconnect socket w).1 !! u =
  if decide (socket_userId socket = u) then None else userSocketMap w !! u.
Proof. cbn. apply lookup_delete. Qed.

(** C2, as stated, fails: user [u] connects on [s1], then on [s2]; the late
    disconnect of [s1] removes the entry of [s2]. *)
Lemma stale_disconnect_evicts_newer :
  let old := mkSocket "s1" "u" in
  let new := mkSocket "s2" "u" in
  let w := (on_connection new (on_connection old (init_world [])).1).1 in
  userSocketMap w !! "u" = Some "s2" ∧
  userSocketMap (on_disconnect old w).1 !! "u" = None ∧
  ¬ stale_disconnect_ignored old w.
Proof.
  cbn zeta. split; [by vm_compute|]. split; [by vm_compute|].
  intros H. specialize (H "s2"). cbn in H.
  rewrite lookup_delete_eq in H.
  assert (None = Some "s2") as Hn; [|discriminate Hn].
  apply H; [by vm_compute | discriminate].
Qed.

(** C2, amended: a disconnect removes the entry of the socket's user whatever
    connection the registry holds for that user, leaves every other user's
    entry alone, and broadcasts the remaining online users. *)
Theorem on_disconnect_unconditional (socket : Socket) (w : World) :
  userSocketMap (on_disconnect socket w).1 !! socket_userId socket = None ∧
  (∀ u, u ≠ socket_userId socket →
        userSocketMap (on_disconnect socket w).1 !! u = userSocketMap w !! u) ∧
  (on_disconnect socket w).2 =
    [mkEmit None "getOnlineUsers"
       (PUserIds (dom (userSocketMap w) ∖ {[socket_userId socket]}))].
Proof.
  split; [|split].
  - rewrite on_disconnect_lookup. by rewrite decide_True.
  - intros u Hu. rewrite on_disconnect_lookup. by rewrite decide_False.
  - cbn. by rewrite dom_delete_L.
Qed.

(** ** Events follow the registry *)

Lemma emitTo_registry w1 w2 u ev p :
  userSocketMap w1 = userSocketMap w2 → emitTo w1 u ev p = emitTo w2 u ev p.
Proof. unfold emitTo, getReceiverSocketId. by intros ->. Qed.

Lemma emitTo_save m w u ev p : emitTo (save m w) u ev p = emitTo w u ev p.
Proof. by apply emitTo_registry. Qed.

Lemma emitTo_offline w u ev p :
  userSocketMap w !! u = None → emitTo w u ev p = [].
Proof. unfold emitTo, getReceiverSocketId. by intros ->. Qed.

Lemma elem_of_emitTo e w u ev p :
  e ∈ emitTo w u ev p →
  to e = userSocketMap w !! u ∧ is_Some (to e) ∧ event e = ev ∧ payload e = p.
Proof.
  unfold emitTo, getReceiverSocketId.
  destruct (userSocketMap w !! u) as [[|c s]|] eqn:E; cbn;
    [by intros ?%elem_of_nil | | by intros ?%elem_of_nil].
  intros ->%list_elem_of_singleton. cbn. eauto.
Qed.

Lemma registry_owned_lookup owner w u s :
  registry_owned owner w → userSocketMap w !! u = Some s → owner s = u.
Proof. intros Hown Hu. exact (Hown u s Hu). Qed.

(** A connection keeps the registry owned, and so does a disconnect. *)
Lemma on_connection_owned owner socket w :
  registry_owned owner w →
  owner (socket_id socket) = socket_userId socket →
  registry_owned owner (on_connection socket w).1.
Proof.
  intros Hown Hsock u s. rewrite on_connection_lookup.
  case_decide; intros Hu; simplify_eq; [done|]. by eapply Hown.
Qed.

Lemma on_disconnect_owned owner socket w :
  registry_owned owner w → registry_owned owner (on_disconnect socket w).1.
Proof.
  intros Hown u s. rewrite on_disconnect_lookup.
  case_decide; intros Hu; simplify_eq. by eapply Hown.
Qed.

(** ** [sendMessage] *)

(** A 201 response pins down the whole outcome. *)
Lemma sendMessage_created senderId receiverId body_text replyTo files newId now w
    w' resp evs :
  sendMessage senderId receiverId body_text replyTo files newId now w = (w', resp, evs) →
  status resp = 201 →
  let m := new_message newId senderId receiverId body_text
             (upload_url (files_image files)) (upload_url (files_video files))
             (upload_url (files_audio files)) replyTo now in
  senderId ≠ receiverId ∧ receiverId ∈ user_id <$> users w ∧
  messages w !! newId = None ∧
  w' = save m w ∧ resp = mkResponse 201 (JMessage m) ∧
  evs = emitTo w receiverId "newMessage" (PMessage m).
Proof.
  unfold sendMessage. intros H Hst.
  destruct (_ && _); [by simplify_eq|].
  destruct (decide (senderId = receiverId)); [by simplify_eq|].
  destruct (bool_decide (receiverId ∈ user_id <$> users w)) eqn:Hrecv;
    cbn in H; [|by simplify_eq].
  apply bool_decide_eq_true in Hrecv.
  assert (sendMessage_store senderId receiverId body_text replyTo
            (upload_url (files_image files)) (upload_url (files_video files))
            (upload_url (files_audio files)) newId now w = (w', resp, evs)) as Hs.
  { destruct (files_image files) as [[]|], (files_video files) as [[]|],
      (files_audio files) as [[]|]; cbn in *;
      first [ exact H | unfold upload_failed in H; by simplify_eq ]. }
  clear H. unfold sendMessage_store in Hs.
  destruct (negb (text_valid _)); [by simplify_eq|].
  destruct (decide (is_Some (messages w !! newId))) as [|Hnone]; [by simplify_eq|].
  apply eq_None_not_Some in Hnone.
  injection Hs as <- <- <-. by rewrite emitTo_save.
Qed.

(** C4: the message a successful [sendMessage] returns and stores has the
    sender, and only the sender, in [deliveredTo], stamped with the time of
    creation; this holds for the document as created, whatever is emitted. *)
Theorem sendMessage_delivered_to_sender
    senderId receiverId body_text replyTo files newId now w w' resp evs :
  sendMessage senderId receiverId body_text replyTo files newId now w = (w', resp, evs) →
  status resp = 201 →
  ∃ m, body resp = JMessage m ∧ findById w' newId = Some m ∧
       deliveredTo m = [mkReceipt senderId now] ∧ senderId ∈ recipients m ∧
       ∀ e, e ∈ evs → payload e = PMessage m.
Proof.
  intros H Hst.
  destruct (sendMessage_created _ _ _ _ _ _ _ _ _ _ _ H Hst)
    as (_ & _ & _ & -> & -> & ->).
  eexists. split; [reflexivity|]. split; [|split; [reflexivity|split]].
  - unfold findById, save. cbn. apply lookup_insert_eq.
  - unfold recipients. cbn. apply list_elem_of_singleton. reflexivity.
  - intros e He. by apply elem_of_emitTo in He as (_ & _ & _ & ->).
Qed.

Lemma sendMessage_delivered_to_sender_witness :
  let o := sendMessage "a" "b" (Some "again") None no_files "m2" 8 demo_world in
  ∃ m, body o.1.2 = JMessage m ∧ findById o.1.1 "m2" = Some m ∧
       deliveredTo m = [mkReceipt "a" 8] ∧ "a" ∈ recipients m ∧
       ∀ e, e ∈ o.2 → payload e = PMessage m.
Proof.
  intros o.
  apply (sendMessage_delivered_to_sender "a" "b" (Some "again") None no_files
           "m2" 8 demo_world o.1.1 o.1.2 o.2).
  - vm_compute. reflexivity.
  - vm_compute. reflexivity.
Defined.

(** The response and the stored messages of [sendMessage] do not depend on
    the presence registry. *)
Lemma sendMessage_registry_agnostic
    senderId receiverId body_text replyTo files newId now w reg typing :
  let wr := mkWorld (users w) (messages w) reg typing in
  (sendMessage senderId receiverId body_text replyTo files newId now wr).1.2 =
  (sendMessage senderId receiverId body_text replyTo files newId now w).1.2 ∧
  messages (sendMessage senderId receiverId body_text replyTo files newId now wr).1.1 =
  messages (sendMessage senderId receiverId body_text replyTo files newId now w).1.1.
Proof.
  cbn zeta. unfold sendMessage. cbn [users messages].
  destruct (_ && _); [done|].
  destruct (decide (senderId = receiverId)); [done|].
  destruct (negb (bool_decide (receiverId ∈ user_id <$> users w))); [done|].
  unfold sendMessage_store, upload_failed. cbn [users messages].
  destruct (files_image files) as [[]|], (files_video files) as [[]|],
    (files_audio files) as [[]|]; try done;
    (destruct (negb (text_valid _)); [done|]);
    (destruct (decide (is_Some (messages w !! newId))); done).
Qed.

(** C3: a successful [sendMessage] emits [newMessage] through the registry
    entry of the receiver and nowhere else: the event goes to a socket of the
    receiver, never to a socket of the sender, never to the registry entry of
    the sender, and it is not broadcast.  Without an entry for the receiver
    nothing is emitted, and the response and the stored message are the ones
    produced under any other registry. *)
Theorem sendMessage_emits_to_receiver_only (owner : string → string)
    senderId receiverId body_text replyTo files newId now w w' resp evs :
  registry_owned owner w →
  sendMessage senderId receiverId body_text replyTo files newId now w = (w', resp, evs) →
  status resp = 201 →
  ∃ m, resp = mkResponse 201 (JMessage m) ∧ findById w' newId = Some m ∧
       evs = emitTo w receiverId "newMessage" (PMessage m) ∧
       (∀ e, e ∈ evs →
             event e = "newMessage" ∧
             to e = userSocketMap w !! receiverId ∧
             to e ≠ userSocketMap w !! senderId ∧
             ∃ sid, to e = Some sid ∧ owner sid = receiverId ∧ owner sid ≠ senderId) ∧
       (∀ c sid, userSocketMap w !! receiverId = Some (String c sid) →
                 evs = [mkEmit (Some (String c sid)) "newMessage" (PMessage m)]) ∧
       (userSocketMap w !! receiverId = None → evs = []) ∧
       (∀ reg typing,
          let o := sendMessage senderId receiverId body_text replyTo files newId now
                     (mkWorld (users w) (messages w) reg typing) in
          o.1.2 = resp ∧ messages o.1.1 = messages w').
Proof.
  intros Hown H Hst.
  pose proof (sendMessage_registry_agnostic senderId receiverId body_text replyTo
                files newId now w) as Hreg.
  rewrite H in Hreg. cbn in Hreg.
  destruct (sendMessage_created _ _ _ _ _ _ _ _ _ _ _ H Hst)
    as (Hne & _ & _ & -> & -> & ->).
  eexists. split; [reflexivity|]. split; [|split; [reflexivity|]].
  { unfold findById, save. cbn. apply lookup_insert_eq. }
  split; [|split; [|split]].
  - intros e He. apply elem_of_emitTo in He as (Hto & [sid Hsid] & Hev & _).
    assert (owner sid = receiverId) as Hsock.
    { apply (registry_owned_lookup owner w); [done|congruence]. }
    split; [done|]. split; [done|]. split.
    + intros Heq. apply Hne. rewrite <- Hsock. symmetry.
      apply (registry_owned_lookup owner w); [done|congruence].
    + exists sid. split; [done|]. split; [done|]. congruence.
  - intros c sid Hs. unfold emitTo, getReceiverSocketId. by rewrite Hs.
  - apply emitTo_offline.
  - intros reg typing. apply Hreg.
Qed.

Lemma sendMessage_emits_to_receiver_only_witness :
  let o := sendMessage "a" "b" (Some "again") None no_files "m2" 8 demo_world in
  ∃ m, o.1.2 = mkResponse 201 (JMessage m) ∧ findById o.1.1 "m2" = Some m ∧
       o.2 = emitTo demo_world "b" "newMessage" (PMessage m) ∧
       (∀ e, e ∈ o.2 →
             event e = "newMessage" ∧
             to e = userSocketMap demo_world !! "b" ∧
             to e ≠ userSocketMap demo_world !! "a" ∧
             ∃ sid, to e = Some sid ∧ demo_owner sid = "b" ∧ demo_owner sid ≠ "a") ∧
       (∀ c sid, userSocketMap demo_world !! "b" = Some (String c sid) →
                 o.2 = [mkEmit (Some (String c sid)) "newMessage" (PMessage m)]) ∧
       (userSocketMap demo_world !! "b" = None → o.2 = []) ∧
       (∀ reg typing,
          let o' := sendMessage "a" "b" (Some "again") None no_files "m2" 8
                      (mkWorld (users demo_world) (messages demo_world) reg typing) in
          o'.1.2 = o.1.2 ∧ messages o'.1.1 = messages o.1.1).
Proof.
  intros o.
  apply (sendMessage_emits_to_receiver_only demo_owner "a" "b" (Some "again") None
           no_files "m2" 8 demo_world o.1.1 o.1.2 o.2).
  - unfold registry_owned. by_evaluation.
  - vm_compute. reflexivity.
  - vm_compute. reflexivity.
Defined.

(** The events of the example: one [newMessage], to the socket of Bob. *)
Example demo_send_events :
  (sendMessage "a" "b" (Some "again") None no_files "m2" 8 demo_world).2 =
  [mkEmit (Some "s2") "newMessage"
     (PMessage (new_message "m2" "a" "b" (Some "again") None None None None 8))].
Proof. vm_compute. reflexivity. Qed.

(** ** One request, seen from the store *)

Lemma update_id user now m m' : update user now m m' → _id m' = _id m.
Proof. by destruct 1. Qed.

Lemma store_wf_lookup w k m : store_wf w → messages w !! k = Some m → _id m = k.
Proof. intros Hwf Hk. exact (Hwf k m Hk). Qed.

Lemma elem_of_documents w m :
  m ∈ documents w ↔ ∃ k, messages w !! k = Some m.
Proof.
  unfold documents. rewrite list_elem_of_fmap. split.
  - intros ([k m'] & -> & Hkm). exists k. by apply elem_of_map_to_list.
  - intros [k Hk]. exists (k, m). split; [done|]. by apply elem_of_map_to_list.
Qed.

Lemma tracked_refl user now w : tracked user now w w.
Proof. intros k. destruct (messages w !! k); eauto. Qed.

(** Saving an updated version of a stored document. *)
Lemma tracked_save user now w m m' :
  messages w !! _id m = Some m → update user now m m' →
  tracked user now w (save m' w).
Proof.
  intros Hm Hup k. unfold save. cbn.
  rewrite (update_id _ _ _ _ Hup).
  destruct (decide (_id m = k)) as [<-|Hne].
  - rewrite Hm, lookup_insert_eq. eauto.
  - rewrite lookup_insert_ne by done. destruct (messages w !! k); eauto.
Qed.

Lemma deliver_loop_spec myId now unread w :
  deliver_loop myId now unread w =
  (set_messages (deliver_all myId now unread (messages w)) w,
   unread ≫= λ msg, emitTo w (senderId msg) "messageDelivered"
                      (PObject [("messageId", _id msg); ("userId", myId)])).
Proof.
  revert w. induction unread as [|msg rest IH]; intros w.
  - by destruct w.
  - cbn [deliver_loop]. rewrite IH. cbn. rewrite emitTo_save. reflexivity.
Qed.

(** The loop writes each [_id] of [unread] and nothing else. *)
Lemma deliver_all_lookup myId now unread ms k :
  (deliver_all myId now unread ms !! k = ms !! k ∧ ∀ msg, msg ∈ unread → _id msg ≠ k) ∨
  (∃ msg, msg ∈ unread ∧ _id msg = k ∧
          deliver_all myId now unread ms !! k = Some (push_delivered myId now msg)).
Proof.
  unfold deliver_all. induction unread as [|x l IH] using rev_ind.
  - left. split; [done|]. by intros msg ?%elem_of_nil.
  - rewrite foldl_snoc. destruct (decide (_id x = k)) as [<-|Hne].
    + right. exists x. rewrite lookup_insert_eq.
      split; [|done]. apply elem_of_app. right. by apply list_elem_of_singleton.
    + rewrite lookup_insert_ne by done.
      destruct IH as [[Heq Hall]|(msg & Hin & Hid & Hl)].
      * left. split; [done|]. intros msg Hin.
        apply elem_of_app in Hin as [Hin|Hin]; [by apply Hall|].
        apply list_elem_of_singleton in Hin. by subst.
      * right. exists msg. split; [|done]. apply elem_of_app. by left.
Qed.

(** What [getMessagesByUserId] shows and what it selects for the loop. *)
Lemma elem_of_visible myId other w msg :
  msg ∈ visible_for myId other w ↔
  (myId ∉ deletedForMe msg) ∧ in_conversation myId other msg ∧ msg ∈ documents w.
Proof.
  unfold visible_for.
  rewrite list_elem_of_filter, merge_sort_Permutation, list_elem_of_filter.
  tauto.
Qed.

Lemma elem_of_unread myId other w msg :
  msg ∈ unread_for myId other w ↔
  undelivered myId msg ∧ msg ∈ visible_for myId other w.
Proof. unfold unread_for. apply list_elem_of_filter. Qed.

Lemma getMessagesByUserId_unfold myId other now w :
  getMessagesByUserId myId other now w =
  (set_messages (deliver_all myId now (unread_for myId other w) (messages w)) w,
   mkResponse 200
     (JMessages
        ((λ msg, if decide (undelivered myId msg)
                 then push_delivered myId now msg else msg)
           <$> visible_for myId other w)),
   unread_for myId other w ≫= λ msg,
     emitTo w (senderId msg) "messageDelivered"
       (PObject [("messageId", _id msg); ("userId", myId)])).
Proof.
  unfold getMessagesByUserId.
  change (filter (undelivered myId) _) with (unread_for myId other w).
  by rewrite deliver_loop_spec.
Qed.

Lemma tracked_fetch myId other now w :
  store_wf w → tracked myId now w (getMessagesByUserId myId other now w).1.1.
Proof.
  intros Hwf k. rewrite getMessagesByUserId_unfold. cbn.
  destruct (deliver_all_lookup myId now (unread_for myId other w) (messages w) k)
    as [[-> _]|(msg & Hin & Hid & ->)].
  - destruct (messages w !! k); eauto.
  - apply elem_of_unread in Hin as [Hund Hvis].
    apply elem_of_visible in Hvis as (_ & _ & [k0 Hk0]%elem_of_documents).
    assert (k0 = k) as -> by (rewrite <- Hid; symmetry; by eapply store_wf_lookup).
    rewrite Hk0. eexists. split; [done|]. right. by constructor.
Qed.

Lemma sendMessage_world senderId receiverId body_text replyTo files newId now w :
  (sendMessage senderId receiverId body_text replyTo files newId now w).1.1 = w ∨
  (messages w !! newId = None ∧
   (sendMessage senderId receiverId body_text replyTo files newId now w).1.1 =
   save (new_message newId senderId receiverId body_text
           (upload_url (files_image files)) (upload_url (files_video files))
           (upload_url (files_audio files)) replyTo now) w).
Proof.
  destruct (sendMessage senderId receiverId body_text replyTo files newId now w)
    as [[w' resp] evs] eqn:H.
  destruct (decide (status resp = 201)) as [Hst|Hst].
  - right. by destruct (sendMessage_created _ _ _ _ _ _ _ _ _ _ _ H Hst)
      as (_ & _ & ? & ? & _).
  - left. cbn. revert H. unfold sendMessage, sendMessage_store, upload_failed.
    repeat case_match; intros; simplify_eq; done.
Qed.

Lemma tracked_send senderId receiverId body_text replyTo files newId now w :
  tracked senderId now w
    (sendMessage senderId receiverId body_text replyTo files newId now w).1.1.
Proof.
  destruct (sendMessage_world senderId receiverId body_text replyTo files newId now w)
    as [->|[Hfree ->]]; [apply tracked_refl|].
  intros k. unfold save. cbn. destruct (decide (newId = k)) as [<-|Hne].
  - rewrite Hfree, lookup_insert_eq. right. by repeat eexists.
  - rewrite lookup_insert_ne by done. destruct (messages w !! k); eauto.
Qed.

Lemma findById_stored w messageId message :
  store_wf w → findById w messageId = Some message →
  _id message = messageId ∧ messages w !! _id message = Some message.
Proof.
  intros Hwf Hf. unfold findById in Hf.
  pose proof (store_wf_lookup _ _ _ Hwf Hf) as ->. done.
Qed.

Lemma handle_tracked user now r w :
  store_wf w → tracked user now w (handle user now r w).1.1.
Proof.
  intros Hwf.
  destruct r as [ | |id|id body_text reply files newId|messageId|messageId em
                |messageId|messageId body_text|messageId deleteForEveryone];
    cbn [handle].
  - apply tracked_refl.
  - apply tracked_refl.
  - by apply tracked_fetch.
  - apply tracked_send.
  - unfold markMessageAsRead.
    destruct (findById w messageId) as [message|] eqn:Hf; [|apply tracked_refl].
    apply findById_stored in Hf as [_ Hm]; [|done].
    case_bool_decide as Hread; cbn; [apply tracked_refl|].
    eapply tracked_save; [done|]. by constructor.
  - unfold addReaction. destruct em as [[|c e]|]; try apply tracked_refl.
    destruct (findById w messageId) as [message|] eqn:Hf; [|apply tracked_refl].
    apply findById_stored in Hf as [_ Hm]; [|done].
    eapply tracked_save; [done|]. constructor.
  - unfold removeReaction.
    destruct (findById w messageId) as [message|] eqn:Hf; [|apply tracked_refl].
    apply findById_stored in Hf as [_ Hm]; [|done].
    eapply tracked_save; [done|]. constructor.
  - unfold editMessage. destruct (_ || _); [apply tracked_refl|].
    destruct (findById w messageId) as [message|] eqn:Hf; [|apply tracked_refl].
    apply findById_stored in Hf as [_ Hm]; [|done].
    destruct (decide (senderId message ≠ user)) as [|Hs]; [apply tracked_refl|].
    destruct (deletedForEveryone message) eqn:Hdel; [apply tracked_refl|].
    destruct (negb (text_valid _)); [apply tracked_refl|].
    eapply tracked_save; [done|]. constructor; [|done].
    by destruct (decide (senderId message = user)).
  - unfold deleteMessage.
    destruct (findById w messageId) as [message|] eqn:Hf; [|apply tracked_refl].
    apply findById_stored in Hf as [_ Hm]; [|done].
    destruct deleteForEveryone.
    + case_bool_decide as Hs; cbn; [|apply tracked_refl].
      eapply tracked_save; [done|]. by constructor.
    + case_bool_decide as Hd; cbn; [apply tracked_refl|].
      eapply tracked_save; [done|]. by constructor.
Qed.

Lemma tracked_store_wf user now w w' :
  store_wf w → tracked user now w w' → store_wf w'.
Proof.
  intros Hwf Ht k m' Hk. specialize (Ht k).
  destruct (messages w !! k) as [m|] eqn:Hm.
  - destruct Ht as (m'' & Hk' & [->|Hup]); simplify_eq; [by eapply Hwf|].
    rewrite (update_id _ _ _ _ Hup). by eapply Hwf.
  - destruct Ht as [?|(rcv & t & i & v & a & rt & Hk')]; by simplify_eq.
Qed.

Lemma step_messages a w :
  (∃ socket, a = Connect socket ∨ a = Disconnect socket) →
  messages (step a w).1 = messages w.
Proof. by intros [socket [-> | ->]]. Qed.

(** Any action, seen from the store. *)
Lemma step_tracked a w :
  store_wf w → ∃ user now, tracked user now w (step a w).1.
Proof.
  intros Hwf. destruct a as [user now r|socket|socket].
  - exists user, now. cbn.
    pose proof (handle_tracked user now r w Hwf) as Ht.
    by destruct (handle user now r w) as [[w' resp] evs].
  - exists EmptyString, 0. intros k. cbn. destruct (messages w !! k); eauto.
  - exists EmptyString, 0. intros k. cbn. destruct (messages w !! k); eauto.
Qed.

Lemma step_store_wf a w : store_wf w → store_wf (step a w).1.
Proof.
  intros Hwf. destruct (step_tracked a w Hwf) as (user & now & Ht).
  by eapply tracked_store_wf.
Qed.

Lemma run_store_wf acts w : store_wf w → store_wf (run acts w).
Proof.
  revert w. induction acts as [|a acts IH]; intros w Hwf; [done|].
  cbn. apply IH. by apply step_store_wf.
Qed.

Lemma init_world_wf us : store_wf (init_world us).
Proof. intros k m Hk. cbn in Hk. by rewrite lookup_empty in Hk. Qed.

(** A stored document is never removed; its later versions come from it by
    the updates of the controller. *)
Lemma run_lookup acts w k m :
  store_wf w → messages w !! k = Some m →
  ∃ m', messages (run acts w) !! k = Some m' ∧ rtc evolves m m'.
Proof.
  revert w m. induction acts as [|a acts IH]; intros w m Hwf Hk.
  - exists m. by split.
  - cbn. destruct (step_tracked a w Hwf) as (user & now & Ht).
    specialize (Ht k). rewrite Hk in Ht. destruct Ht as (m1 & Hk1 & Hm1).
    destruct (IH _ _ (step_store_wf a w Hwf) Hk1) as (m' & Hk' & Hrtc).
    exists m'. split; [done|].
    destruct Hm1 as [->|Hup]; [done|].
    eapply rtc_l; [|done]. by exists user, now.
Qed.

(** A property that every new message has and every update keeps holds of
    every document of every world the server reaches. *)
Lemma run_invariant (P : Message → Prop) acts w :
  (∀ k user rcv t i v a rt now, P (new_message k user rcv t i v a rt now)) →
  (∀ user now m m', update user now m m' → P m → P m') →
  store_wf w → (∀ k m, messages w !! k = Some m → P m) →
  ∀ k m, messages (run acts w) !! k = Some m → P m.
Proof.
  intros Hnew Hup. revert w. induction acts as [|a acts IH]; intros w Hwf HP; [done|].
  cbn. apply IH; [by apply step_store_wf|].
  intros k m Hk. destruct (step_tracked a w Hwf) as (user & now & Ht).
  specialize (Ht k). destruct (messages w !! k) as [m0|] eqn:Hm0.
  - destruct Ht as (m' & Hk' & [->|Hu]); simplify_eq; eauto.
  - destruct Ht as [?|(rcv & t & i & v & a' & rt & Hk')]; simplify_eq. apply Hnew.
Qed.

(** ** Lists keyed by user *)

Section keyed.
Context {A : Type} (key : A → string).

Lemma NoDup_key_filter (P : A → Prop) `{∀ x, Decision (P x)} (l : list A) :
  NoDup (key <$> l) → NoDup (key <$> filter P l).
Proof.
  induction l as [|x l IH]; [done|].
  rewrite fmap_cons, NoDup_cons, filter_cons. intros [Hx Hl].
  case_decide; [|by apply IH].
  rewrite fmap_cons, NoDup_cons. split; [|by apply IH].
  intros (y & Hy & Hin)%list_elem_of_fmap. apply Hx.
  apply list_elem_of_fmap. exists y. split; [done|].
  by apply list_elem_of_filter in Hin as [_ ?].
Qed.

Lemma filter_key_absent (u : string) (l : list A) :
  u ∉ key <$> l → filter (λ x, key x = u) l = [].
Proof.
  induction l as [|x l IH]; [done|].
  rewrite fmap_cons, not_elem_of_cons, filter_cons. intros [Hx Hl].
  rewrite decide_False by done. by apply IH.
Qed.

(** Without duplicate keys, at most one element has the key [u]. *)
Lemma NoDup_key_one (u : string) (l : list A) :
  NoDup (key <$> l) → length (filter (λ x, key x = u) l) ≤ 1.
Proof.
  induction l as [|x l IH]; [cbn; lia|].
  rewrite fmap_cons, NoDup_cons, filter_cons. intros [Hx Hl].
  case_decide as Hk; [|by apply IH].
  rewrite filter_key_absent by (by rewrite <- Hk). cbn. lia.
Qed.

(** [filter] for [u] after the user [v] was filtered out. *)
Lemma filter_key_other (u v : string) (l : list A) :
  filter (λ x, key x = u) (filter (λ x, key x ≠ v) l) =
  if decide (u = v) then [] else filter (λ x, key x = u) l.
Proof.
  induction l as [|x l IH]; [by case_decide|].
  rewrite (filter_cons (λ x, key x ≠ v)), (filter_cons (λ x, key x = u)).
  destruct (decide (key x ≠ v)) as [Hxv|Hxv].
  - rewrite filter_cons, IH.
    destruct (decide (key x = u)) as [Hxu|Hxu]; [|done].
    rewrite !decide_False by congruence. done.
  - rewrite IH. destruct (decide (u = v)) as [Huv|Huv]; [done|].
    rewrite decide_False; [done|].
    intros Hxu. apply Hxv. intros Hv. congruence.
Qed.

Lemma key_filter_absent (v : string) (l : list A) :
  v ∉ key <$> filter (λ x, key x ≠ v) l.
Proof.
  intros (y & Hy & Hin)%list_elem_of_fmap.
  by apply list_elem_of_filter in Hin as [Hne _].
Qed.

(** Appending an element whose key is new keeps the keys distinct. *)
Lemma NoDup_key_snoc (l : list A) (x : A) :
  NoDup (key <$> l) → key x ∉ key <$> l → NoDup (key <$> l ++ [x]).
Proof.
  intros Hl Hx. rewrite fmap_app. apply NoDup_app. split; [done|]. split.
  - intros y Hy ->%list_elem_of_singleton. done.
  - apply NoDup_singleton.
Qed.
End keyed.

(** ** Reactions *)

Lemma update_reactors user now m m' :
  update user now m m' → NoDup (reactors m) → NoDup (reactors m').
Proof.
  unfold reactors. destruct 1; cbn; try done; intros Hnd.
  - apply NoDup_key_snoc; [by apply NoDup_key_filter|].
    apply (key_filter_absent reaction_userId).
  - by apply NoDup_key_filter.
Qed.

Lemma run_reactions_ok acts w :
  store_wf w → reactions_ok w → reactions_ok (run acts w).
Proof.
  intros Hwf Hok k m Hk. revert k m Hk.
  apply run_invariant; try done.
  - intros. apply NoDup_nil_2.
  - intros user now m m'. apply update_reactors.
Qed.

Lemma addReaction_stored userId messageId c e w message :
  store_wf w → findById w messageId = Some message →
  let new := set_reactions
               (filter (λ r, reaction_userId r ≠ userId) (reactions message)
                ++ [mkReaction userId (String c e)]) message in
  addReaction userId messageId (Some (String c e)) w =
    (save new w, mkResponse 200 (JMessage new),
     emitTo w (receiverId message) "reactionAdded" (PMessage new) ++
     emitTo w (senderId message) "reactionAdded" (PMessage new)) ∧
  findById (save new w) messageId = Some new.
Proof.
  intros Hwf Hf. cbn zeta. unfold addReaction. rewrite Hf, !emitTo_save.
  split; [done|].
  apply findById_stored in Hf as [<- _]; [|done].
  unfold findById, save. cbn. apply lookup_insert_eq.
Qed.

Lemma removeReaction_stored userId messageId w message :
  store_wf w → findById w messageId = Some message →
  let new := set_reactions
               (filter (λ r, reaction_userId r ≠ userId) (reactions message))
               message in
  removeReaction userId messageId w =
    (save new w, mkResponse 200 (JMessage new),
     emitTo w (receiverId message) "reactionRemoved" (PMessage new) ++
     emitTo w (senderId message) "reactionRemoved" (PMessage new)) ∧
  findById (save new w) messageId = Some new.
Proof.
  intros Hwf Hf. cbn zeta. unfold removeReaction. rewrite Hf, !emitTo_save.
  split; [done|].
  apply findById_stored in Hf as [<- _]; [|done].
  unfold findById, save. cbn. apply lookup_insert_eq.
Qed.

(** C5: in a store where no message has two reactions of one user, no
    sequence of requests, reaction requests among them, produces a message
    with two; and [addReaction] leaves the user with exactly the new reaction,
    in place of an earlier one, every other user's reactions being kept. *)
Theorem one_reaction_per_user (w : World) (acts : list Action) (k : string)
    (m : Message) :
  store_wf w → reactions_ok w →
  messages (run acts w) !! k = Some m →
  (∀ u, length (reactions_of u m) ≤ 1) ∧
  (∀ userId c e,
     let o := addReaction userId k (Some (String c e)) (run acts w) in
     ∃ m', status o.1.2 = 200 ∧ findById o.1.1 k = Some m' ∧
           reactions_of userId m' = [mkReaction userId (String c e)] ∧
           (∀ u, u ≠ userId → reactions_of u m' = reactions_of u m) ∧
           (∀ u, length (reactions_of u m') ≤ 1)) ∧
  (∀ userId,
     let o := removeReaction userId k (run acts w) in
     ∃ m', status o.1.2 = 200 ∧ findById o.1.1 k = Some m' ∧
           reactions_of userId m' = [] ∧
           (∀ u, u ≠ userId → reactions_of u m' = reactions_of u m)).
Proof.
  intros Hwf Hok Hk.
  pose proof (run_store_wf acts w Hwf) as Hwf'.
  pose proof (run_reactions_ok acts w Hwf Hok k m Hk) as Hnd. cbn in Hnd.
  split; [|split].
  - intros u. by apply (NoDup_key_one reaction_userId).
  - intros userId c e. cbn zeta.
    destruct (addReaction_stored userId k c e _ m Hwf' Hk) as [-> Hf].
    eexists. split; [done|]. split; [exact Hf|].
    unfold reactions_of. cbn. rewrite filter_app.
    rewrite !(filter_key_other reaction_userId), decide_True by done.
    split; [|split].
    + by rewrite filter_cons_True.
    + intros u Hu. rewrite filter_app, (filter_key_other reaction_userId).
      rewrite decide_False by done.
      rewrite filter_cons_False; [by rewrite app_nil_r|].
      cbn. congruence.
    + intros u. apply (NoDup_key_one reaction_userId).
      apply NoDup_key_snoc; [by apply NoDup_key_filter|].
      apply (key_filter_absent reaction_userId).
  - intros userId. cbn zeta.
    destruct (removeReaction_stored userId k _ m Hwf' Hk) as [-> Hf].
    eexists. split; [done|]. split; [exact Hf|].
    unfold reactions_of. cbn. split.
    + by rewrite (filter_key_other reaction_userId), decide_True.
    + intros u Hu. by rewrite (filter_key_other reaction_userId), decide_False.
Qed.

Lemma one_reaction_per_user_witness :
  ∃ m, messages (run demo_reactions demo_world) !! "m1" = Some m ∧
       reactions m = [mkReaction "b" "<3"] ∧
       (∀ u, length (reactions_of u m) ≤ 1) ∧
       (∀ userId c e,
          let o := addReaction userId "m1" (Some (String c e))
                     (run demo_reactions demo_world) in
          ∃ m', status o.1.2 = 200 ∧ findById o.1.1 "m1" = Some m' ∧
                reactions_of userId m' = [mkReaction userId (String c e)] ∧
                (∀ u, u ≠ userId → reactions_of u m' = reactions_of u m) ∧
                (∀ u, length (reactions_of u m') ≤ 1)) ∧
       (∀ userId,
          let o := removeReaction userId "m1" (run demo_reactions demo_world) in
          ∃ m', status o.1.2 = 200 ∧ findById o.1.1 "m1" = Some m' ∧
                reactions_of userId m' = [] ∧
                (∀ u, u ≠ userId → reactions_of u m' = reactions_of u m)).
Proof.
  eexists. split; [vm_compute; reflexivity|]. split; [reflexivity|].
  apply (one_reaction_per_user demo_world demo_reactions "m1").
  - unfold store_wf. by_evaluation.
  - unfold reactions_ok. by_evaluation.
  - vm_compute. reflexivity.
Defined.

(** ** [markMessageAsRead] *)

Lemma markMessageAsRead_again userId messageId now w message :
  findById w messageId = Some message → userId ∈ readers message →
  markMessageAsRead userId messageId now w =
    (w, mkResponse 200 (JInfo "Message marked as read"), []).
Proof.
  intros Hf Hin. unfold markMessageAsRead. rewrite Hf.
  by rewrite bool_decide_eq_true_2.
Qed.

Lemma markMessageAsRead_first userId messageId now w message :
  store_wf w → findById w messageId = Some message → userId ∉ readers message →
  let new := set_readBy (readBy message ++ [mkReceipt userId now]) message in
  markMessageAsRead userId messageId now w =
    (save new w, mkResponse 200 (JInfo "Message marked as read"),
     emitTo w (senderId message) "messageRead"
       (PObject [("messageId", messageId); ("userId", userId)])) ∧
  findById (save new w) messageId = Some new.
Proof.
  intros Hwf Hf Hin. cbn zeta. unfold markMessageAsRead. rewrite Hf.
  rewrite bool_decide_eq_false_2 by done. rewrite emitTo_save.
  apply findById_stored in Hf as [<- _]; [|done].
  split; [done|]. unfold findById, save. cbn. apply lookup_insert_eq.
Qed.



(** ** [editMessage] and [addReaction] on a tombstone *)





(** ** Tombstones *)

Lemma set_tombstone_is_tombstone m : is_tombstone (set_tombstone m).
Proof. by repeat split. Qed.

Lemma update_keeps_tombstone user now m m' :
  update user now m m' → is_tombstone m → is_tombstone m'.
Proof.
  intros Hup (Hdel & Htext & Himg & Hvid & Haud).
  destruct Hup; try (by repeat split).
  congruence.
Qed.

Lemma evolves_keeps_tombstone m m' :
  rtc evolves m m' → is_tombstone m → is_tombstone m'.
Proof.
  induction 1 as [|m m1 m2 (user & now & Hup) _ IH]; [done|].
  intros Ht. apply IH. by eapply update_keeps_tombstone.
Qed.

(** Every document a fetch returns is a stored document, possibly with the
    caller just added to [deliveredTo]. *)
Lemma elem_of_fetched myId other now w x :
  x ∈ fetched myId other now w →
  ∃ msg, msg ∈ documents w ∧ (x = msg ∨ x = push_delivered myId now msg).
Proof.
  unfold fetched. rewrite getMessagesByUserId_unfold. cbn.
  intros (msg & -> & Hin)%list_elem_of_fmap.
  apply elem_of_visible in Hin as (_ & _ & Hdoc).
  exists msg. split; [done|]. case_decide; auto.
Qed.

Lemma deleteMessage_by_other userId k w m :
  findById w k = Some m → senderId m ≠ userId →
  deleteMessage userId k true w =
    (w, mkResponse 403 (JInfo "Only the sender can delete for everyone"), []).
Proof.
  intros Hf Hs. unfold deleteMessage. rewrite Hf.
  by rewrite bool_decide_eq_false_2.
Qed.

Lemma deleteMessage_by_sender userId k w m :
  store_wf w → findById w k = Some m → senderId m = userId →
  deleteMessage userId k true w =
    (save (set_tombstone m) w, mkResponse 200 (JMessage (set_tombstone m)),
     emitTo w (receiverId m) "messageDeleted" (PMessage (set_tombstone m)) ++
     emitTo w (senderId m) "messageDeleted" (PMessage (set_tombstone m))) ∧
  findById (save (set_tombstone m) w) k = Some (set_tombstone m).
Proof.
  intros Hwf Hf Hs. unfold deleteMessage. rewrite Hf.
  rewrite bool_decide_eq_true_2 by done. cbn [negb]. rewrite !emitTo_save.
  split; [done|].
  apply findById_stored in Hf as [<- _]; [|done].
  unfold findById, save. cbn. apply lookup_insert_eq.
Qed.

(** C8: deleting for everyone is refused with 403 to anyone but the sender,
    and then nothing changes.  For the sender it stores the tombstone: the
    flag set, the text empty, the three media fields cleared.  Whatever
    requests follow, the stored message stays a tombstone and so does every
    copy of it that a later fetch returns. *)
Theorem deleteForEveryone_tombstone (w : World) (userId k : string) (m : Message) :
  store_wf w → findById w k = Some m →
  let o := deleteMessage userId k true w in
  (senderId m ≠ userId →
     o = (w, mkResponse 403 (JInfo "Only the sender can delete for everyone"), [])) ∧
  (senderId m = userId →
     o.1.2 = mkResponse 200 (JMessage (set_tombstone m)) ∧
     findById o.1.1 k = Some (set_tombstone m) ∧
     deletedForEveryone (set_tombstone m) = true ∧
     text (set_tombstone m) = EmptyString ∧
     image (set_tombstone m) = Some EmptyString ∧
     video (set_tombstone m) = Some EmptyString ∧
     audio (set_tombstone m) = Some EmptyString ∧
     ∀ acts,
       (∃ m', findById (run acts o.1.1) k = Some m' ∧ is_tombstone m') ∧
       ∀ viewer other now x,
         x ∈ fetched viewer other now (run acts o.1.1) → _id x = k →
         is_tombstone x).
Proof.
  intros Hwf Hf. cbn zeta. split.
  - intros Hs. by apply (deleteMessage_by_other userId k w m).
  - intros Hs.
    destruct (deleteMessage_by_sender userId k w m Hwf Hf Hs) as [-> Hnew].
    cbn [fst snd]. repeat (split; [done|]).
    intros acts.
    assert (store_wf (save (set_tombstone m) w)) as Hwf1.
    { pose proof (step_store_wf (Http userId 0 (DeleteMessage k true)) w Hwf) as H.
      cbn in H.
      by destruct (deleteMessage_by_sender userId k w m Hwf Hf Hs) as [-> _] in H. }
    destruct (run_lookup acts _ k _ Hwf1 Hnew) as (m' & Hm' & Hrtc).
    assert (is_tombstone m') as Htomb.
    { eapply evolves_keeps_tombstone; [done|]. apply set_tombstone_is_tombstone. }
    split; [by exists m'|].
    intros viewer other now x Hx Hid.
    apply elem_of_fetched in Hx as (msg & [k0 Hk0]%elem_of_documents & Hcase).
    pose proof (run_store_wf acts _ Hwf1) as Hwf2.
    pose proof (store_wf_lookup _ _ _ Hwf2 Hk0) as Hid0.
    assert (_id msg = k) as Hmk by (by destruct Hcase as [->| ->]).
    assert (msg = m') as -> by congruence.
    destruct Hcase as [->| ->]; [done|].
    destruct Htomb as (? & ? & ? & ? & ?). by repeat split.
Qed.

Lemma deleteForEveryone_tombstone_witness :
  let o := deleteMessage "a" "m1" true demo_world in
  ∃ m, findById demo_world "m1" = Some m ∧
  (senderId m ≠ "a" →
     o = (demo_world,
          mkResponse 403 (JInfo "Only the sender can delete for everyone"), [])) ∧
  (senderId m = "a" →
     o.1.2 = mkResponse 200 (JMessage (set_tombstone m)) ∧
     findById o.1.1 "m1" = Some (set_tombstone m) ∧
     deletedForEveryone (set_tombstone m) = true ∧
     text (set_tombstone m) = EmptyString ∧
     image (set_tombstone m) = Some EmptyString ∧
     video (set_tombstone m) = Some EmptyString ∧
     audio (set_tombstone m) = Some EmptyString ∧
     ∀ acts,
       (∃ m', findById (run acts o.1.1) "m1" = Some m' ∧ is_tombstone m') ∧
       ∀ viewer other now x,
         x ∈ fetched viewer other now (run acts o.1.1) → _id x = "m1" →
         is_tombstone x).
Proof.
  intros o. eexists. split; [vm_compute; reflexivity|].
  apply (deleteForEveryone_tombstone demo_world "a" "m1").
  - unfold store_wf. by_evaluation.
  - vm_compute. reflexivity.
Defined.

(** Bob may not delete the message of Alice for everyone; Alice may, and her
    later edit is refused. *)
Example demo_delete_for_everyone :
  deleteMessage "b" "m1" true demo_world =
    (demo_world,
     mkResponse 403 (JInfo "Only the sender can delete for everyone"), []) ∧
  (λ m, (deletedForEveryone m, text m, image m, video m, audio m))
    <$> findById demo_deleted "m1"
  = Some (true, EmptyString, Some EmptyString, Some EmptyString, Some EmptyString) ∧
  (editMessage "a" "m1" (Some "changed my mind") 7 demo_deleted).1.2 =
    mkResponse 400 (JInfo "Cannot edit a deleted message").
Proof. repeat split; vm_compute; reflexivity. Qed.

(** ** Receipts: [readBy] and [deliveredTo] *)

Lemma update_receipts_grow user now m m' :
  update user now m m' →
  readBy m `prefix_of` readBy m' ∧ deliveredTo m `prefix_of` deliveredTo m'.
Proof.
  destruct 1; cbn; split; try done; by apply prefix_app_r.
Qed.

Lemma evolves_receipts_grow m m' :
  rtc evolves m m' →
  readBy m `prefix_of` readBy m' ∧ deliveredTo m `prefix_of` deliveredTo m'.
Proof.
  induction 1 as [|m m1 m2 (user & now & Hup) _ [IHr IHd]]; [done|].
  apply update_receipts_grow in Hup as [Hr Hd].
  split; by etrans.
Qed.

Lemma update_receipts_distinct user now m m' :
  update user now m m' →
  NoDup (readers m) ∧ NoDup (recipients m) →
  NoDup (readers m') ∧ NoDup (recipients m').
Proof.
  unfold readers, recipients.
  destruct 1 as [m [_ Hund]|m Hread| | | | |]; cbn; try done; intros [Hr Hd].
  - split; [done|]. by apply NoDup_key_snoc.
  - split; [|done]. by apply NoDup_key_snoc.
Qed.

Lemma run_receipts_ok acts w :
  store_wf w → receipts_ok w → receipts_ok (run acts w).
Proof.
  intros Hwf Hok k m Hk. revert k m Hk.
  apply run_invariant; try done.
  - intros. cbn. split; [apply NoDup_nil_2|apply NoDup_singleton].
  - intros user now m m'. apply update_receipts_distinct.
Qed.

(** After [markMessageAsRead] the user is a reader of the message. *)
Lemma markMessageAsRead_reader userId k now w m :
  store_wf w → findById w k = Some m →
  ∃ m1, findById (markMessageAsRead userId k now w).1.1 k = Some m1 ∧
        userId ∈ readers m1.
Proof.
  intros Hwf Hf. destruct (decide (userId ∈ readers m)) as [Hin|Hin].
  - rewrite (markMessageAsRead_again _ _ _ _ _ Hf Hin). by exists m.
  - destruct (markMessageAsRead_first userId k now w m Hwf Hf Hin) as [-> Hnew].
    eexists. split; [exact Hnew|].
    unfold readers. cbn. rewrite fmap_app. apply elem_of_app. right.
    by apply list_elem_of_singleton.
Qed.

(** A message the user already received is not touched by a fetch. *)
Lemma fetch_delivered_untouched myId other now w k m :
  store_wf w → messages w !! k = Some m → myId ∈ recipients m →
  messages (getMessagesByUserId myId other now w).1.1 !! k = Some m.
Proof.
  intros Hwf Hk Hin. rewrite getMessagesByUserId_unfold. cbn.
  destruct (deliver_all_lookup myId now (unread_for myId other w) (messages w) k)
    as [[-> _]|(msg & Hmsg & Hid & _)]; [done|].
  apply elem_of_unread in Hmsg as [[_ Hund] Hvis].
  apply elem_of_visible in Hvis as (_ & _ & [k0 Hk0]%elem_of_documents).
  pose proof (store_wf_lookup _ _ _ Hwf Hk0) as Hid0.
  assert (msg = m) as -> by congruence. done.
Qed.

(** After a fetch nothing is left to mark for the same caller. *)
Lemma fetch_leaves_nothing_unread myId other now w :
  store_wf w →
  unread_for myId other (getMessagesByUserId myId other now w).1.1 = [].
Proof.
  intros Hwf. apply elem_of_nil_inv. intros msg Hmsg.
  apply elem_of_unread in Hmsg as [[Hrcv Hund] Hvis].
  apply elem_of_visible in Hvis as (Hdel & Hconv & [k Hk]%elem_of_documents).
  pose proof (tracked_store_wf _ _ _ _ Hwf (tracked_fetch myId other now w Hwf)) as Hwf1.
  pose proof (store_wf_lookup _ _ _ Hwf1 Hk) as Hid.
  rewrite getMessagesByUserId_unfold in Hk. cbn in Hk.
  destruct (deliver_all_lookup myId now (unread_for myId other w) (messages w) k)
    as [[Heq Hall]|(x & _ & _ & Hx)].
  - rewrite Heq in Hk. apply (Hall msg); [|done].
    apply elem_of_unread. split; [done|].
    apply elem_of_visible. repeat split; try done.
    apply elem_of_documents. by exists k.
  - rewrite Hx in Hk. injection Hk as <-. apply Hund.
    unfold recipients. cbn. rewrite fmap_app. apply elem_of_app. right.
    by apply list_elem_of_singleton.
Qed.

Lemma fetch_again myId other now now' w :
  store_wf w →
  let w1 := (getMessagesByUserId myId other now w).1.1 in
  (getMessagesByUserId myId other now' w1).1.1 = w1 ∧
  (getMessagesByUserId myId other now' w1).2 = [].
Proof.
  intros Hwf w1. rewrite (getMessagesByUserId_unfold myId other now' w1).
  unfold w1. rewrite (fetch_leaves_nothing_unread myId other now w Hwf). cbn.
  split; [|done]. by destruct (getMessagesByUserId myId other now w).1.1.
Qed.

(** C6: marking is idempotent and the receipt lists only grow.  For a stored
    message: [markMessageAsRead] by a user already in [readBy] changes nothing
    and emits nothing, so a second marking after a first is a no-op; a fetch
    leaves a message alone once the caller is in [deliveredTo], so a second
    fetch after a first is a no-op; and after any sequence of requests the
    message is still stored, its [readBy] and [deliveredTo] extend the earlier
    lists, and no user occurs twice in either. *)
Theorem receipts_idempotent_monotone (w : World) (acts : list Action) (k : string)
    (m : Message) :
  store_wf w → receipts_ok w → messages w !! k = Some m →
  (∀ userId now, userId ∈ readers m →
     markMessageAsRead userId k now w =
       (w, mkResponse 200 (JInfo "Message marked as read"), [])) ∧
  (∀ userId now now',
     let w1 := (markMessageAsRead userId k now w).1.1 in
     markMessageAsRead userId k now' w1 =
       (w1, mkResponse 200 (JInfo "Message marked as read"), [])) ∧
  (∀ myId other now, myId ∈ recipients m →
     messages (getMessagesByUserId myId other now w).1.1 !! k = Some m) ∧
  (∀ myId other now now',
     let w1 := (getMessagesByUserId myId other now w).1.1 in
     (getMessagesByUserId myId other now' w1).1.1 = w1 ∧
     (getMessagesByUserId myId other now' w1).2 = []) ∧
  ∃ m', messages (run acts w) !! k = Some m' ∧
        readBy m `prefix_of` readBy m' ∧
        deliveredTo m `prefix_of` deliveredTo m' ∧
        NoDup (readers m') ∧ NoDup (recipients m').
Proof.
  intros Hwf Hok Hk. split; [|split; [|split; [|split]]].
  - intros userId now Hin. by apply (markMessageAsRead_again _ _ _ _ m).
  - intros userId now now' w1.
    destruct (markMessageAsRead_reader userId k now w m Hwf Hk) as (m1 & Hm1 & Hin).
    by apply (markMessageAsRead_again _ _ _ _ m1).
  - intros myId other now Hin. by apply fetch_delivered_untouched.
  - intros myId other now now'. by apply fetch_again.
  - destruct (run_lookup acts w k m Hwf Hk) as (m' & Hm' & Hrtc).
    destruct (evolves_receipts_grow _ _ Hrtc) as [Hr Hd].
    destruct (run_receipts_ok acts w Hwf Hok k m' Hm') as [Hnr Hnd].
    by exists m'.
Qed.

Lemma receipts_idempotent_monotone_witness :
  ∃ m, messages demo_world !! "m1" = Some m ∧
  (∀ userId now, userId ∈ readers m →
     markMessageAsRead userId "m1" now demo_world =
       (demo_world, mkResponse 200 (JInfo "Message marked as read"), [])) ∧
  (∀ userId now now',
     let w1 := (markMessageAsRead userId "m1" now demo_world).1.1 in
     markMessageAsRead userId "m1" now' w1 =
       (w1, mkResponse 200 (JInfo "Message marked as read"), [])) ∧
  (∀ myId other now, myId ∈ recipients m →
     messages (getMessagesByUserId myId other now demo_world).1.1 !! "m1" = Some m) ∧
  (∀ myId other now now',
     let w1 := (getMessagesByUserId myId other now demo_world).1.1 in
     (getMessagesByUserId myId other now' w1).1.1 = w1 ∧
     (getMessagesByUserId myId other now' w1).2 = []) ∧
  ∃ m', messages (run demo_reading demo_world) !! "m1" = Some m' ∧
        readBy m `prefix_of` readBy m' ∧
        deliveredTo m `prefix_of` deliveredTo m' ∧
        NoDup (readers m') ∧ NoDup (recipients m').
Proof.
  eexists. split; [vm_compute; reflexivity|].
  apply (receipts_idempotent_monotone demo_world demo_reading "m1").
  - unfold store_wf. by_evaluation.
  - unfold receipts_ok. by_evaluation.
  - vm_compute. reflexivity.
Defined.

(** The run of the example: Bob ends up once in each list. *)
Example demo_reading_receipts :
  (λ m, (readers m, recipients m)) <$> messages (run demo_reading demo_world) !! "m1"
  = Some (["b"], ["a"; "b"]).
Proof. vm_compute. reflexivity. Qed.

(** ** Receipts on the wire *)

Lemma emitTo_not_receipt e w u ev p :
  e ∈ emitTo w u ev p → ev ≠ "messageDelivered" → ev ≠ "messageRead" →
  ¬ is_receipt e.
Proof.
  intros (_ & _ & Hev & _)%elem_of_emitTo Hd Hr [He|He]; congruence.
Qed.

Lemma emitTo2_not_receipt e w u1 u2 ev p :
  e ∈ emitTo w u1 ev p ++ emitTo w u2 ev p →
  ev ≠ "messageDelivered" → ev ≠ "messageRead" → ¬ is_receipt e.
Proof.
  intros [He|He]%elem_of_app; by apply (emitTo_not_receipt _ _ _ _ _ He).
Qed.

Lemma sendMessage_events senderId receiverId body_text replyTo files newId now w e :
  e ∈ (sendMessage senderId receiverId body_text replyTo files newId now w).2 →
  event e = "newMessage".
Proof.
  destruct (sendMessage senderId receiverId body_text replyTo files newId now w)
    as [[w' resp] evs] eqn:H.
  destruct (decide (status resp = 201)) as [Hst|Hst].
  - destruct (sendMessage_created _ _ _ _ _ _ _ _ _ _ _ H Hst)
      as (_ & _ & _ & _ & _ & ->).
    cbn. by intros (_ & _ & Hev & _)%elem_of_emitTo.
  - cbn. revert H. unfold sendMessage, sendMessage_store, upload_failed.
    repeat case_match; intros Heq Hin; simplify_eq; by apply elem_of_nil in Hin.
Qed.

(** C7, as stated, fails: the receipts Bob causes in the example reach the
    socket of Alice, the sender, with [messageId] and [userId] only. *)
Lemma receipts_without_timestamp :
  (markMessageAsRead "b" "m1" 9 demo_world).2 =
    [mkEmit (Some "s1") "messageRead"
       (PObject [("messageId", "m1"); ("userId", "b")])] ∧
  (getMessagesByUserId "b" "a" 9 demo_world).2 =
    [mkEmit (Some "s1") "messageDelivered"
       (PObject [("messageId", "m1"); ("userId", "b")])] ∧
  ∃ e, e ∈ (markMessageAsRead "b" "m1" 9 demo_world).2 ∧ is_receipt e ∧
       ¬ receipt_with_timestamp e.
Proof.
  split; [by vm_compute|]. split; [by vm_compute|].
  eexists. split; [vm_compute; apply list_elem_of_here|].
  split; [by right|]. intros (_ & _ & Hts). vm_compute in Hts. discriminate.
Qed.

(** C7, amended: every [messageDelivered] and [messageRead] event of a request
    goes to the registry entry of the sender of a stored message, and its
    payload is exactly [{messageId, userId}], the message and the requesting
    user; it has no timestamp. *)
Theorem receipts_go_to_sender (user : string) (now : Time) (r : Request)
    (w : World) (e : Emit) :
  e ∈ (handle user now r w).2 → is_receipt e →
  ∃ m, m ∈ documents w ∧
       to e = userSocketMap w !! senderId m ∧ is_Some (to e) ∧
       payload e = PObject [("messageId", _id m); ("userId", user)] ∧
       has_field "messageId" (payload e) = true ∧
       has_field "userId" (payload e) = true ∧
       has_field "timestamp" (payload e) = false.
Proof.
  intros He Hrec.
  destruct r as [ | |id|id body_text reply files newId|messageId|messageId em
                |messageId|messageId body_text|messageId deleteForEveryone];
    cbn [handle] in He.
  - by apply elem_of_nil in He.
  - by apply elem_of_nil in He.
  - rewrite getMessagesByUserId_unfold in He. cbn in He.
    apply list_elem_of_bind in He as (msg & He & Hmsg).
    apply elem_of_unread in Hmsg as [_ Hvis].
    apply elem_of_visible in Hvis as (_ & _ & Hdoc).
    apply elem_of_emitTo in He as (Hto & Hsome & _ & Hp).
    exists msg. rewrite Hp. by repeat split.
  - apply sendMessage_events in He. destruct Hrec as [Hr|Hr]; congruence.
  - unfold markMessageAsRead in He.
    destruct (findById w messageId) as [message|] eqn:Hf;
      [|by apply elem_of_nil in He].
    case_bool_decide; cbn in He; [by apply elem_of_nil in He|].
    apply elem_of_emitTo in He as (Hto & Hsome & _ & Hp).
    exists message. rewrite Hp. repeat split; try done.
    apply elem_of_documents. by exists messageId.
  - unfold addReaction in He.
    destruct em as [[|c s]|]; try (by apply elem_of_nil in He).
    destruct (findById w messageId); [|by apply elem_of_nil in He].
    cbn in He. by apply emitTo2_not_receipt in He.
  - unfold removeReaction in He.
    destruct (findById w messageId); [|by apply elem_of_nil in He].
    cbn in He. by apply emitTo2_not_receipt in He.
  - unfold editMessage in He.
    repeat (case_match; try (by apply elem_of_nil in He)).
    cbn in He. by apply emitTo2_not_receipt in He.
  - unfold deleteMessage in He.
    destruct (findById w messageId); [|by apply elem_of_nil in He].
    destruct deleteForEveryone.
    + case_bool_decide; cbn in He; [|by apply elem_of_nil in He].
      by apply emitTo2_not_receipt in He.
    + cbn in He. by apply emitTo_not_receipt in He.
Qed.

Lemma receipts_go_to_sender_witness :
  let e := mkEmit (Some "s1") "messageRead"
             (PObject [("messageId", "m1"); ("userId", "b")]) in
  e ∈ (handle "b" 9 (MarkMessageAsRead "m1") demo_world).2 ∧
  ∃ m, m ∈ documents demo_world ∧
       to e = userSocketMap demo_world !! senderId m ∧ is_Some (to e) ∧
       payload e = PObject [("messageId", _id m); ("userId", "b")] ∧
       has_field "messageId" (payload e) = true ∧
       has_field "userId" (payload e) = true ∧
       has_field "timestamp" (payload e) = false.
Proof.
  intros e.
  assert (e ∈ (handle "b" 9 (MarkMessageAsRead "m1") demo_world).2) as He.
  { vm_compute. apply list_elem_of_here. }
  split; [exact He|].
  apply (receipts_go_to_sender "b" 9 (MarkMessageAsRead "m1") demo_world e He).
  right. reflexivity.
Defined.

(** ** The chatbot filter *)

Lemma append_cons c a b : String c a +:+ b = String c (a +:+ b).
Proof. reflexivity. Qed.

Lemma append_nil b : EmptyString +:+ b = b.
Proof. reflexivity. Qed.

Lemma prefix_spec pat s :
  String.prefix pat s = true ↔ ∃ post, s = pat +:+ post.
Proof.
  revert s. induction pat as [|a pat IH]; intros s.
  - split; [intros _; by exists s|intros _; by destruct s].
  - destruct s as [|b s]; cbn.
    + split; [done|]. by intros [post ?].
    + setoid_rewrite append_cons. destruct (ascii_dec a b) as [->|Hab].
      * rewrite IH. split; intros [post Hp]; exists post; congruence.
      * split; [done|]. intros [post Hp]. congruence.
Qed.

Lemma includes_spec pat s :
  includes pat s = true ↔ ∃ pre post, s = pre +:+ pat +:+ post.
Proof.
  induction s as [|c s IH]; cbn [includes]; rewrite orb_true_iff, prefix_spec.
  - split.
    + intros [[post Hp]|?]; [|done]. by exists EmptyString, post.
    + intros (pre & post & Hp). left.
      destruct pre; [by exists post|discriminate].
  - rewrite IH. split.
    + intros [[post Hp]|(pre & post & Hp)].
      * by exists EmptyString, post.
      * exists (String c pre), post. by rewrite append_cons, Hp.
    + intros (pre & post & Hp). destruct pre as [|c' pre].
      * left. by exists post.
      * right. exists pre, post. rewrite append_cons in Hp. congruence.
Qed.

Lemma toLowerCase_app a b :
  toLowerCase (a +:+ b) = toLowerCase a +:+ toLowerCase b.
Proof.
  induction a as [|c a IH]; [done|].
  rewrite append_cons. cbn [toLowerCase]. by rewrite append_cons, IH.
Qed.

Lemma toLowerCase_split s x y :
  toLowerCase s = x +:+ y →
  ∃ a b, s = a +:+ b ∧ toLowerCase a = x ∧ toLowerCase b = y.
Proof.
  revert s. induction x as [|c x IH]; intros s Hs.
  - by exists EmptyString, s.
  - destruct s as [|d s]; [discriminate|].
    rewrite append_cons in Hs. cbn [toLowerCase] in Hs.
    injection Hs as Hc Hs. destruct (IH _ Hs) as (a & b & -> & Ha & Hb).
    exists (String d a), b. rewrite append_cons. cbn [toLowerCase].
    by rewrite Hc, Ha.
Qed.

(** The test of the controller finds exactly the substrings that match up to
    case. *)
Lemma includes_toLowerCase pat name :
  includes pat (toLowerCase name) = true ↔ contains_ignoring_case pat name.
Proof.
  rewrite includes_spec. unfold contains_ignoring_case. split.
  - intros (pre' & post' & Hl).
    apply toLowerCase_split in Hl as (pre & rest & -> & _ & Hrest).
    apply toLowerCase_split in Hrest as (mid & post & -> & Hmid & _).
    by exists pre, mid, post.
  - intros (pre & mid & post & -> & <-).
    exists (toLowerCase pre), (toLowerCase post).
    by rewrite !toLowerCase_app.
Qed.

Lemma not_chatbot_spec user :
  not_chatbot user = true ↔ ¬ names_chatbot (fullName user).
Proof.
  unfold not_chatbot, names_chatbot.
  rewrite andb_true_iff, !negb_true_iff, <- !includes_toLowerCase.
  rewrite <- !not_true_iff_false. tauto.
Qed.

Lemma elem_of_partners me w p :
  p ∈ (list_to_set (partner_of me <$>
         filter (λ msg, senderId msg = me ∨ receiverId msg = me) (documents w))
       : gset string) ↔
  exchanged me p w.
Proof.
  rewrite elem_of_list_to_set, list_elem_of_fmap. unfold exchanged, partner_of.
  split.
  - intros (msg & -> & [Hm Hdoc]%list_elem_of_filter).
    exists msg. split; [done|].
    destruct (decide (senderId msg = me)) as [Hs|Hs]; [by left|].
    destruct Hm as [Hm|Hm]; [done|by right].
  - intros (msg & Hdoc & Hm). exists msg. split.
    + destruct (decide (senderId msg = me)) as [Hs|Hs];
        destruct Hm as [[H1 H2]|[H1 H2]]; congruence.
    + apply list_elem_of_filter. split; [|done].
      destruct Hm as [[H1 H2]|[H1 H2]]; [by left|by right].
Qed.

(** C10: both listings answer 200 with users of the collection, in the order
    of the collection, and leave out exactly the users whose [fullName] has
    "chatbot" or "chat bot" in it, whatever the case of the letters: a contact
    is any other user but the caller, a chat partner any other user who
    exchanged a message with the caller. *)
Theorem chatbot_never_listed (w : World) (loggedInUserId : string) :
  (getAllContacts loggedInUserId w).1.1 = w ∧
  (getChatPartners loggedInUserId w).1.1 = w ∧
  status (getAllContacts loggedInUserId w).1.2 = 200 ∧
  status (getChatPartners loggedInUserId w).1.2 = 200 ∧
  (∀ u, u ∈ listed (getAllContacts loggedInUserId w) ↔
        u ∈ users w ∧ user_id u ≠ loggedInUserId ∧ ¬ names_chatbot (fullName u)) ∧
  (∀ u, u ∈ listed (getChatPartners loggedInUserId w) ↔
        u ∈ users w ∧ exchanged loggedInUserId (user_id u) w ∧
        ¬ names_chatbot (fullName u)) ∧
  listed (getAllContacts loggedInUserId w) `sublist_of` users w ∧
  listed (getChatPartners loggedInUserId w) `sublist_of` users w.
Proof.
  repeat (split; [done|]). unfold listed. cbn. split; [|split; [|split]].
  - intros u. rewrite !list_elem_of_filter, Is_true_true, not_chatbot_spec. tauto.
  - intros u.
    rewrite !list_elem_of_filter, Is_true_true, not_chatbot_spec, elem_of_partners.
    tauto.
  - etrans; apply sublist_filter.
  - etrans; apply sublist_filter.
Qed.

(** The helper bot of the example corresponds with Alice and is still in
    neither of her lists; Bob is in both. *)
Example chatbot_hidden_from_alice :
  let w := run [Http "x" 6 (SendMessage "a" (Some "How can I help?") None no_files "m2")]
               demo_world in
  exchanged "a" "x" w ∧
  user_id <$> listed (getAllContacts "a" w) = ["b"; "c"] ∧
  user_id <$> listed (getChatPartners "a" w) = ["b"].
Proof.
  cbn zeta. split; [|split; by vm_compute].
  eexists. split.
  - apply elem_of_documents. exists "m2". vm_compute. reflexivity.
  - right. by split.
Qed.

(** ** The REST handlers leave the registry alone *)

Lemma handle_registry user now r w :
  userSocketMap (handle user now r w).1.1 = userSocketMap w.
Proof.
  destruct r as [ | |id|id body_text reply files newId|messageId|messageId em
                |messageId|messageId body_text|messageId deleteForEveryone];
    cbn [handle]; try done.
  - by rewrite getMessagesByUserId_unfold.
  - by destruct (sendMessage_world user id body_text reply files newId now w)
      as [->|[_ ->]].
  - unfold markMessageAsRead. by repeat case_match.
  - unfold addReaction. by repeat case_match.
  - unfold removeReaction. by repeat case_match.
  - unfold editMessage. by repeat case_match.
  - unfold deleteMessage. by repeat case_match.
Qed.

Lemma handle_owned owner user now r w :
  registry_owned owner w → registry_owned owner (handle user now r w).1.1.
Proof. unfold registry_owned. by rewrite handle_registry. Qed.

(** The registry stays owned along every run whose connecting sockets carry
    the user that [owner] gives to their id. *)
Lemma run_owned owner acts w :
  registry_owned owner w →
  (∀ socket, Connect socket ∈ acts → owner (socket_id socket) = socket_userId socket) →
  registry_owned owner (run acts w).
Proof.
  revert w. induction acts as [|a acts IH]; intros w Hown Hsock; [done|].
  cbn [run]. apply IH.
  - destruct a as [user now r|socket|socket]; cbn [step].
    + pose proof (handle_owned owner user now r w Hown) as H.
      by destruct (handle user now r w) as [[w' resp] evs].
    + apply on_connection_owned; [done|]. apply Hsock. apply list_elem_of_here.
    + by apply on_disconnect_owned.
  - intros socket Hin. apply Hsock. by apply list_elem_of_further.
Qed.

(** ** Worlds the server reaches from its start *)

Lemma init_world_reactions_ok us : reactions_ok (init_world us).
Proof. intros k m Hk. cbn in Hk. by rewrite lookup_empty in Hk. Qed.

Lemma init_world_receipts_ok us : receipts_ok (init_world us).
Proof. intros k m Hk. cbn in Hk. by rewrite lookup_empty in Hk. Qed.

Lemma init_world_owned owner us : registry_owned owner (init_world us).
Proof. intros u s Hu. cbn in Hu. by rewrite lookup_empty in Hu. Qed.

Lemma reachable_ok us acts :
  let w := run acts (init_world us) in
  store_wf w ∧ reactions_ok w ∧ receipts_ok w.
Proof.
  cbn zeta. split; [|split].
  - apply run_store_wf, init_world_wf.
  - apply run_reactions_ok; [apply init_world_wf|apply init_world_reactions_ok].
  - apply run_receipts_ok; [apply init_world_wf|apply init_world_receipts_ok].
Qed.

(** * Further properties of the back end *)

(** ** Requests that fail *)

Lemma new_message_text k s r body_text i v a rt now :
  text (new_message k s r body_text i v a rt now) = stored_text body_text.
Proof.
  unfold stored_text. cbn.
  destruct body_text as [t|]; cbn; [by destruct (trim t)|done].
Qed.

Lemma sendMessage_refused senderId receiverId body_text replyTo files newId now w :
  status (sendMessage senderId receiverId body_text replyTo files newId now w).1.2 ≠ 201 →
  (sendMessage senderId receiverId body_text replyTo files newId now w).1.1 = w ∧
  (sendMessage senderId receiverId body_text replyTo files newId now w).2 = [].
Proof.
  unfold sendMessage, sendMessage_store, upload_failed.
  repeat case_match; cbn; by intros.
Qed.

(** X1: a request that is answered with an error status has no effect: the
    world is the one before and no event is emitted. *)
Theorem failed_request_no_effect (user : string) (now : Time) (r : Request)
    (w : World) :
  400 ≤ status (handle user now r w).1.2 →
  (handle user now r w).1.1 = w ∧ (handle user now r w).2 = [].
Proof.
  destruct r as [ | |id|id body_text reply files newId|messageId|messageId em
                |messageId|messageId body_text|messageId deleteForEveryone];
    cbn [handle].
  - done.
  - done.
  - rewrite getMessagesByUserId_unfold. cbn. lia.
  - intros Hst. apply sendMessage_refused. lia.
  - unfold markMessageAsRead. repeat case_match; cbn; try done; lia.
  - unfold addReaction. repeat case_match; cbn; try done; lia.
  - unfold removeReaction. repeat case_match; cbn; try done; lia.
  - unfold editMessage. repeat case_match; cbn; try done; lia.
  - unfold deleteMessage. repeat case_match; cbn; try done; lia.
Qed.

(** Bob tries to edit the message of Alice. *)
Lemma failed_request_no_effect_witness :
  let r := EditMessage "m1" (Some "not mine") in
  status (handle "b" 7 r demo_world).1.2 = 403 ∧
  (handle "b" 7 r demo_world).1.1 = demo_world ∧ (handle "b" 7 r demo_world).2 = [].
Proof.
  intros r. split; [vm_compute; reflexivity|].
  apply (failed_request_no_effect "b" 7 r demo_world).
  vm_compute. lia.
Defined.



(** ** The status of [sendMessage] *)

Lemma sendMessage_early senderId receiverId body_text replyTo files newId now w :
  sendMessage senderId receiverId body_text replyTo files newId now w =
  if negb (has_content body_text files)
  then (w, mkResponse 400 (JInfo "Text, image, video, or audio is required."), [])
  else if decide (senderId = receiverId)
  then (w, mkResponse 400 (JInfo "Cannot send messages to yourself."), [])
  else if negb (bool_decide (receiverId ∈ user_id <$> users w))
  then (w, mkResponse 404 (JInfo "Receiver not found."), [])
  else
    match first_rejected files with
    | Some (kind, e) => upload_failed w kind e
    | None =>
        sendMessage_store senderId receiverId body_text replyTo
          (upload_url (files_image files)) (upload_url (files_video files))
          (upload_url (files_audio files)) newId now w
    end.
Proof.
  unfold sendMessage, has_content, first_rejected. rewrite !negb_orb.
  destruct (_ && _); [done|]. destruct (decide _); [done|].
  destruct (negb _); [done|].
  by destruct (files_image files) as [[u1|e1]|], (files_video files) as [[u2|e2]|],
    (files_audio files) as [[u3|e3]|].
Qed.



(** A text of white space only is no content; a rejected image stops a
    message that also has a text. *)
Example sendMessage_refusals :
  (sendMessage "a" "b" (Some "   ") None no_files "m2" 8 demo_world).1.2 =
    mkResponse 400 (JInfo "Text, image, video, or audio is required.") ∧
  (sendMessage "a" "b" (Some "look")  None
     (mkFiles (Some (Rejected "quota")) None None) "m2" 8 demo_world).1.2 =
    mkResponse 500 (JInfo "Failed to upload image: quota").
Proof. split; vm_compute; reflexivity. Qed.

(** ** Messages appear by [sendMessage] only *)

Lemma step_users a w : users (step a w).1 = users w.
Proof.
  destruct a as [user now r|socket|socket]; [|done|done]. cbn.
  destruct (handle user now r w) as [[w' resp] evs] eqn:H. cbn.
  change w' with (w', resp, evs).1.1. rewrite <- H. clear H.
  destruct r as [ | |id|id body_text reply files newId|messageId|messageId em
                |messageId|messageId body_text|messageId deleteForEveryone];
    cbn [handle]; try done.
  - by rewrite getMessagesByUserId_unfold.
  - by destruct (sendMessage_world user id body_text reply files newId now w)
      as [->|[_ ->]].
  - unfold markMessageAsRead. by repeat case_match.
  - unfold addReaction. by repeat case_match.
  - unfold removeReaction. by repeat case_match.
  - unfold editMessage. by repeat case_match.
  - unfold deleteMessage. by repeat case_match.
Qed.

Lemma run_users acts w : users (run acts w) = users w.
Proof.
  revert w. induction acts as [|a acts IH]; intros w; [done|].
  cbn. by rewrite IH, step_users.
Qed.

(** Writing a new version of a stored document fills no free [_id]. *)
Lemma save_keeps_free w m (m' : Message) k :
  messages w !! _id m = Some m → messages w !! k = None →
  <[_id m := m']> (messages w) !! k = None.
Proof.
  intros Hm Hk. rewrite lookup_insert_ne; [done|]. intros <-. congruence.
Qed.

Lemma handle_keeps_free user now r w k :
  store_wf w → messages w !! k = None →
  (∀ id t rt files, r ≠ SendMessage id t rt files k) →
  messages (handle user now r w).1.1 !! k = None.
Proof.
  intros Hwf Hk Hr.
  destruct r as [ | |id|id body_text reply files newId|messageId|messageId em
                |messageId|messageId body_text|messageId deleteForEveryone];
    cbn [handle]; try done.
  - rewrite getMessagesByUserId_unfold. cbn.
    destruct (deliver_all_lookup user now (unread_for user id w) (messages w) k)
      as [[-> _]|(msg & Hin & Hid & _)]; [done|].
    apply elem_of_unread in Hin as [_ Hvis].
    apply elem_of_visible in Hvis as (_ & _ & [k0 Hk0]%elem_of_documents).
    pose proof (store_wf_lookup _ _ _ Hwf Hk0). congruence.
  - destruct (sendMessage_world user id body_text reply files newId now w)
      as [->|[_ ->]]; [done|].
    unfold save. cbn. rewrite lookup_insert_ne; [done|].
    intros ->. by eapply Hr.
  - unfold markMessageAsRead.
    destruct (findById w messageId) as [message|] eqn:Hf; [|done].
    apply findById_stored in Hf as [_ Hm]; [|done].
    case_bool_decide; cbn; [done|]. by apply (save_keeps_free w message).
  - unfold addReaction. destruct em as [[|c e]|]; try done.
    destruct (findById w messageId) as [message|] eqn:Hf; [|done].
    apply findById_stored in Hf as [_ Hm]; [|done].
    by apply (save_keeps_free w message).
  - unfold removeReaction.
    destruct (findById w messageId) as [message|] eqn:Hf; [|done].
    apply findById_stored in Hf as [_ Hm]; [|done].
    by apply (save_keeps_free w message).
  - unfold editMessage. destruct (_ || _); [done|].
    destruct (findById w messageId) as [message|] eqn:Hf; [|done].
    apply findById_stored in Hf as [_ Hm]; [|done].
    repeat case_match; try done. by apply (save_keeps_free w message).
  - unfold deleteMessage.
    destruct (findById w messageId) as [message|] eqn:Hf; [|done].
    apply findById_stored in Hf as [_ Hm]; [|done].
    destruct deleteForEveryone; repeat case_match; try done;
      by apply (save_keeps_free w message).
Qed.

(** A document that appears under a free [_id] was created by a successful
    [sendMessage]: between two different users, to a registered receiver. *)
Lemma step_created a w k m :
  store_wf w → messages w !! k = None → messages (step a w).1 !! k = Some m →
  ∃ s r t i v au rt now,
    s ≠ r ∧ r ∈ user_id <$> users w ∧ m = new_message k s r t i v au rt now.
Proof.
  intros Hwf Hk Hm. destruct a as [user now r|socket|socket];
    [|cbn in Hm; congruence|cbn in Hm; congruence].
  cbn in Hm.
  destruct (handle user now r w) as [[w' resp] evs] eqn:H. cbn in Hm.
  destruct r as [ | |id|id body_text reply files newId|messageId|messageId em
                |messageId|messageId body_text|messageId deleteForEveryone].
  4:{ cbn [handle] in H.
      destruct (decide (status resp = 201)) as [Hst|Hst].
      - destruct (sendMessage_created _ _ _ _ _ _ _ _ _ _ _ H Hst)
          as (Hne & Hrcv & _ & -> & _ & _).
        unfold save in Hm. cbn in Hm.
        destruct (decide (newId = k)) as [->|Hnk].
        + rewrite lookup_insert_eq in Hm. injection Hm as <-.
          by repeat eexists.
        + rewrite lookup_insert_ne in Hm by done. congruence.
      - pose proof (sendMessage_refused user id body_text reply files newId now w) as Hr.
        rewrite H in Hr. destruct (Hr Hst) as [Hw _]. cbn in Hw. congruence. }
  all: match type of H with handle _ _ ?r _ = _ =>
         pose proof (handle_keeps_free user now r w k Hwf Hk) as Hfree end;
       rewrite H in Hfree; cbn in Hfree; rewrite Hfree in Hm; [done|];
       by intros.
Qed.

Lemma run_invariant_created (P : Message → Prop) acts w :
  (∀ k s r t i v a rt now, s ≠ r → r ∈ user_id <$> users w →
     P (new_message k s r t i v a rt now)) →
  (∀ user now m m', update user now m m' → P m → P m') →
  store_wf w → (∀ k m, messages w !! k = Some m → P m) →
  ∀ k m, messages (run acts w) !! k = Some m → P m.
Proof.
  intros Hnew Hup. revert w Hnew.
  induction acts as [|a acts IH]; intros w Hnew Hwf HP; [done|].
  cbn. apply IH; [by rewrite step_users|by apply step_store_wf|].
  intros k m Hk. destruct (messages w !! k) as [m0|] eqn:Hm0.
  - destruct (step_tracked a w Hwf) as (user & now & Ht).
    specialize (Ht k). rewrite Hm0 in Ht.
    destruct Ht as (m' & Hk' & [->|Hu]); simplify_eq; eauto.
  - destruct (step_created a w k m Hwf Hm0 Hk)
      as (s & r & t & i & v & au & rt & now & Hne & Hr & ->).
    by apply Hnew.
Qed.

(** ** What holds of every stored message *)

Lemma update_message_ok us user now m m' :
  update user now m m' → message_ok us m → message_ok us m'.
Proof.
  intros Hup (Hne & Hrcv & [rest Hfirst] & Hpart & Hed & Htomb & Hnd).
  destruct Hup as [m [Hto Hund]|m Hread|m c e|m|m t Hs Hdel|m Hs|m Hdel];
    unfold message_ok, recipients in *; cbn;
    split_and!; try done; try (by exists rest); try congruence.
  - exists (rest ++ [mkReceipt user now]). by rewrite Hfirst.
  - intros u. rewrite fmap_app, elem_of_app. intros [Hu|Hu]; [by apply Hpart|].
    apply list_elem_of_singleton in Hu. cbn in Hu. right. congruence.
  - apply NoDup_app. split; [done|]. split; [|apply NoDup_singleton].
    intros x Hx ->%list_elem_of_singleton. done.
Qed.

Lemma new_message_ok us k s r t i v a rt now :
  s ≠ r → r ∈ user_id <$> us → message_ok us (new_message k s r t i v a rt now).
Proof.
  intros Hne Hr. unfold message_ok, recipients. cbn.
  split_and!; try done; try (by exists []); try apply NoDup_nil_2.
  intros u ->%list_elem_of_singleton. by left.
Qed.

(** X4: every message stored in a world the server reaches from its start is
    filed under its [_id], goes between two different participants to a
    registered receiver, has a [deliveredTo] that starts with the sender at the
    time of creation and holds participants only, has [edited] set exactly
    when [editedAt] is, is a tombstone when flagged deleted for everyone, and
    lists no user twice in [deletedForMe]. *)
Theorem reachable_messages_ok (us : list User) (acts : list Action) (k : string)
    (m : Message) :
  messages (run acts (init_world us)) !! k = Some m →
  _id m = k ∧ message_ok us m.
Proof.
  intros Hk. split.
  - eapply store_wf_lookup; [|done]. apply run_store_wf, init_world_wf.
  - revert k m Hk. apply run_invariant_created.
    + intros. by apply new_message_ok.
    + intros user now m m'. apply update_message_ok.
    + apply init_world_wf.
    + intros k m Hk. cbn in Hk. by rewrite lookup_empty in Hk.
Qed.

Lemma reachable_messages_ok_witness :
  ∃ m, messages (run demo_session (init_world [alice; bob; carol; helper])) !! "m1"
       = Some m ∧
       text m = "hello Bob" ∧ recipients m = ["a"; "b"] ∧
       _id m = "m1" ∧ message_ok [alice; bob; carol; helper] m.
Proof.
  eexists. split; [vm_compute; reflexivity|].
  split; [reflexivity|]. split; [reflexivity|].
  apply (reachable_messages_ok [alice; bob; carol; helper] demo_session "m1").
  vm_compute. reflexivity.
Defined.

(** ** Chat partners *)

Lemma run_message_ok us acts k m :
  messages (run acts (init_world us)) !! k = Some m → message_ok us m.
Proof.
  revert k m. apply run_invariant_created.
  - intros. by apply new_message_ok.
  - intros user now m m'. apply update_message_ok.
  - apply init_world_wf.
  - intros k m Hk. cbn in Hk. by rewrite lookup_empty in Hk.
Qed.

(** X5: in a world the server reaches from its start, every chat partner the
    server lists for a user is one of the contacts it lists for that user:
    another user, one the caller has exchanged a message with. *)
Theorem chat_partners_are_contacts (us : list User) (acts : list Action)
    (me : string) (u : User) :
  let w := run acts (init_world us) in
  u ∈ listed (getChatPartners me w) →
  u ∈ listed (getAllContacts me w) ∧ user_id u ≠ me ∧ exchanged me (user_id u) w.
Proof.
  cbn zeta. unfold listed. cbn.
  rewrite !list_elem_of_filter, elem_of_partners.
  intros (Hbot & Hex & Hu).
  assert (user_id u ≠ me) as Hne.
  { destruct Hex as (msg & [k Hk]%elem_of_documents & Hcase).
    destruct (run_message_ok us acts k msg Hk) as (Hsr & _).
    intros Heq. destruct Hcase as [[H1 H2]|[H1 H2]]; congruence. }
  done.
Qed.

Lemma chat_partners_are_contacts_witness :
  let w := run demo_session (init_world [alice; bob; carol; helper]) in
  bob ∈ listed (getChatPartners "a" w) ∧
  bob ∈ listed (getAllContacts "a" w) ∧ user_id bob ≠ "a" ∧
  exchanged "a" (user_id bob) w.
Proof.
  intros w.
  assert (bob ∈ listed (getChatPartners "a" w)) as Hin.
  { vm_compute. apply list_elem_of_here. }
  split; [exact Hin|].
  apply (chat_partners_are_contacts [alice; bob; carol; helper] demo_session "a" bob Hin).
Defined.

(** ** The history of a message *)

Lemma later_version_refl m : later_version m m.
Proof. unfold later_version. split_and!; auto. Qed.

Lemma update_later_version user now m m' :
  update user now m m' → later_version m m'.
Proof.
  destruct 1; unfold later_version; cbn; split_and!; auto;
    try (by apply prefix_app_r).
Qed.

Lemma later_version_trans m1 m2 m3 :
  later_version m1 m2 → later_version m2 m3 → later_version m1 m3.
Proof.
  intros (Ha1 & Ha2 & Ha3 & Ha4 & Ha5 & Ha6 & Ha7 & Ha8 & Ha9 & Ha10)
         (Hb1 & Hb2 & Hb3 & Hb4 & Hb5 & Hb6 & Hb7 & Hb8 & Hb9 & Hb10).
  unfold later_version. split_and!; try congruence; auto.
  - by etrans.
  - destruct Hb9 as [Hb9|[Hb9|Hb9]]; auto.
    destruct Ha9 as [Ha9|[Ha9|Ha9]]; auto. left. congruence.
  - destruct Hb10 as [(? & ? & ?)|Hb10]; auto.
    destruct Ha10 as [(? & ? & ?)|Ha10]; auto. left. split_and!; congruence.
Qed.

(** X6: a stored message is never removed, and whatever requests follow, its
    later version has the same [_id], sender, receiver, [replyTo] and
    [createdAt]; [edited] and [deletedForEveryone] stay set once set;
    [deletedForMe] only grows; the text differs from the earlier one only
    under the edited or the deleted flag, the media only under the deleted
    flag. *)
Theorem message_history (w : World) (acts : list Action) (k : string) (m : Message) :
  store_wf w → messages w !! k = Some m →
  ∃ m', messages (run acts w) !! k = Some m' ∧ later_version m m'.
Proof.
  intros Hwf Hk. destruct (run_lookup acts w k m Hwf Hk) as (m' & Hm' & Hrtc).
  exists m'. split; [done|]. clear Hk Hm'.
  induction Hrtc as [m|m m1 m2 (user & now & Hup) _ IH].
  - apply later_version_refl.
  - eapply later_version_trans; [|exact IH]. by eapply update_later_version.
Qed.

Lemma message_history_witness :
  ∃ m, messages demo_world !! "m1" = Some m ∧
  ∃ m', messages
          (run [Http "a" 9 (EditMessage "m1" (Some "hello Bob"));
                Http "b" 10 (DeleteMessage "m1" false);
                Http "a" 11 (DeleteMessage "m1" true)] demo_world) !! "m1"
        = Some m' ∧ later_version m m'.
Proof.
  eexists. split; [vm_compute; reflexivity|].
  apply (message_history demo_world).
  - unfold store_wf. by_evaluation.
  - vm_compute. reflexivity.
Defined.

(** ** Sending, then fetching *)

(** What a fetch returns, exactly. *)
Lemma elem_of_fetched_iff myId other now w x :
  x ∈ fetched myId other now w ↔
  ∃ msg, msg ∈ visible_for myId other w ∧
         x = if decide (undelivered myId msg)
             then push_delivered myId now msg else msg.
Proof.
  unfold fetched. rewrite getMessagesByUserId_unfold. cbn.
  rewrite list_elem_of_fmap. split; intros (msg & ? & ?); by exists msg.
Qed.

Lemma getMessagesByUserId_messages myId other now w :
  messages (getMessagesByUserId myId other now w).1.1 =
  deliver_all myId now (unread_for myId other w) (messages w).
Proof. by rewrite getMessagesByUserId_unfold. Qed.

Lemma getMessagesByUserId_events myId other now w :
  (getMessagesByUserId myId other now w).2 =
  unread_for myId other w ≫= λ msg,
    emitTo w (senderId msg) "messageDelivered"
      (PObject [("messageId", _id msg); ("userId", myId)]).
Proof. by rewrite getMessagesByUserId_unfold. Qed.

(** X7: a message just created is returned by the next fetch of either
    participant.  The sender gets it as created, and that fetch leaves it as
    it is.  The receiver gets it with itself added to [deliveredTo]; that
    fetch stores the addition and sends the [messageDelivered] receipt through
    the registry entry of the sender. *)
Theorem send_then_fetch
    senderId receiverId body_text replyTo files newId now w w' resp evs (later : Time) :
  store_wf w →
  sendMessage senderId receiverId body_text replyTo files newId now w = (w', resp, evs) →
  status resp = 201 →
  ∃ m, body resp = JMessage m ∧ text m = stored_text body_text ∧
       m ∈ fetched senderId receiverId later w' ∧
       findById (getMessagesByUserId senderId receiverId later w').1.1 newId
         = Some m ∧
       push_delivered receiverId later m ∈ fetched receiverId senderId later w' ∧
       findById (getMessagesByUserId receiverId senderId later w').1.1 newId
         = Some (push_delivered receiverId later m) ∧
       recipients (push_delivered receiverId later m) = [senderId; receiverId] ∧
       ∀ e, e ∈ emitTo w senderId "messageDelivered"
                  (PObject [("messageId", newId); ("userId", receiverId)]) →
            e ∈ (getMessagesByUserId receiverId senderId later w').2.
Proof.
  intros Hwf H Hst.
  destruct (sendMessage_created _ _ _ _ _ _ _ _ _ _ _ H Hst)
    as (Hne & _ & Hfree & -> & -> & _).
  set (m := new_message newId senderId receiverId body_text _ _ _ replyTo now).
  assert (store_wf (save m w)) as Hwf'.
  { pose proof (tracked_store_wf _ _ _ _ Hwf
                  (tracked_send senderId receiverId body_text replyTo files newId now w)) as Hw.
    by rewrite H in Hw. }
  assert (messages (save m w) !! newId = Some m) as Hm
    by (unfold save; cbn; apply lookup_insert_eq).
  assert (m ∈ documents (save m w)) as Hdoc
    by (apply elem_of_documents; by exists newId).
  assert (¬ undelivered senderId m) as Hs by (intros [? _]; done).
  assert (undelivered receiverId m) as Hr.
  { split; [done|]. cbn. intros ->%list_elem_of_singleton. done. }
  assert (m ∈ visible_for receiverId senderId (save m w)) as Hvis.
  { apply elem_of_visible. split; [by intros ?%elem_of_nil|]. split; [|done].
    by right. }
  exists m. split; [done|]. split; [apply new_message_text|].
  split; [|split; [|split; [|split; [|split]]]].
  - apply elem_of_fetched_iff. exists m. split.
    + apply elem_of_visible. split; [by intros ?%elem_of_nil|]. split; [|done].
      by left.
    + by rewrite decide_False.
  - apply fetch_delivered_untouched; [done|done|].
    unfold recipients. cbn. by apply list_elem_of_singleton.
  - apply elem_of_fetched_iff. exists m. split; [done|]. by rewrite decide_True.
  - unfold findById. rewrite getMessagesByUserId_messages.
    destruct (deliver_all_lookup receiverId later
                (unread_for receiverId senderId (save m w)) (messages (save m w)) newId)
      as [[_ Hall]|(x & Hx & Hid & ->)].
    + exfalso. apply (Hall m); [|done]. by apply elem_of_unread.
    + apply elem_of_unread in Hx as [_ Hx].
      apply elem_of_visible in Hx as (_ & _ & [k0 Hk0]%elem_of_documents).
      pose proof (store_wf_lookup _ _ _ Hwf' Hk0) as Hk.
      assert (x = m) as -> by congruence. done.
  - done.
  - intros e He. rewrite getMessagesByUserId_events.
    apply list_elem_of_bind. exists m. split; [|by apply elem_of_unread].
    by rewrite emitTo_save.
Qed.

(** Alice sends while Bob is away; Bob connects and opens the conversation. *)
Lemma send_then_fetch_witness :
  let w := (on_disconnect (mkSocket "s2" "b") demo_world).1 in
  let o := sendMessage "a" "b" (Some " are you there? ") None no_files "m2" 8 w in
  o.2 = [] ∧
  ∃ m, body o.1.2 = JMessage m ∧ text m = stored_text (Some " are you there? ") ∧
       m ∈ fetched "a" "b" 9 o.1.1 ∧
       findById (getMessagesByUserId "a" "b" 9 o.1.1).1.1 "m2" = Some m ∧
       push_delivered "b" 9 m ∈ fetched "b" "a" 9 o.1.1 ∧
       findById (getMessagesByUserId "b" "a" 9 o.1.1).1.1 "m2"
         = Some (push_delivered "b" 9 m) ∧
       recipients (push_delivered "b" 9 m) = ["a"; "b"] ∧
       ∀ e, e ∈ emitTo w "a" "messageDelivered"
                  (PObject [("messageId", "m2"); ("userId", "b")]) →
            e ∈ (getMessagesByUserId "b" "a" 9 o.1.1).2.
Proof.
  intros w o. split; [vm_compute; reflexivity|].
  apply (send_then_fetch "a" "b" (Some " are you there? ") None no_files "m2" 8 w
           o.1.1 o.1.2 o.2 9).
  - unfold store_wf. by_evaluation.
  - vm_compute. reflexivity.
  - vm_compute. reflexivity.
Defined.

(** ** [editMessage] *)




(** ** Deleting for oneself *)

Lemma deleteForMe_unfold userId k w m :
  findById w k = Some m →
  deleteMessage userId k false w =
  if decide (userId ∈ deletedForMe m)
  then (w, mkResponse 200 (JMessage m),
        emitTo w userId "messageDeletedForMe" (PMessage m))
  else
    let m' := set_deletedForMe (deletedForMe m ++ [userId]) m in
    (save m' w, mkResponse 200 (JMessage m'),
     emitTo w userId "messageDeletedForMe" (PMessage m')).
Proof.
  intros Hf. unfold deleteMessage. rewrite Hf.
  destruct (decide (userId ∈ deletedForMe m)) as [Hin|Hin].
  - by rewrite bool_decide_eq_true_2.
  - rewrite bool_decide_eq_false_2 by done. cbn zeta. by rewrite emitTo_save.
Qed.

Lemma fetched_id myId now msg :
  _id (if decide (undelivered myId msg) then push_delivered myId now msg else msg)
  = _id msg.
Proof. by case_decide. Qed.

(** Whether a fetch shows the message filed under [k]. *)
Lemma fetch_shows_iff viewer other now w k m :
  store_wf w → messages w !! k = Some m →
  (∃ x, x ∈ fetched viewer other now w ∧ _id x = k) ↔
  (viewer ∉ deletedForMe m) ∧ in_conversation viewer other m.
Proof.
  intros Hwf Hk. pose proof (store_wf_lookup _ _ _ Hwf Hk) as Hid. split.
  - intros (x & (msg & Hvis & ->)%elem_of_fetched_iff & Hx).
    rewrite fetched_id in Hx.
    apply elem_of_visible in Hvis as (Hdel & Hconv & [k0 Hk0]%elem_of_documents).
    pose proof (store_wf_lookup _ _ _ Hwf Hk0).
    assert (msg = m) as -> by congruence. done.
  - intros [Hdel Hconv]. eexists. split.
    + apply elem_of_fetched_iff. exists m. split; [|done].
      apply elem_of_visible. split; [done|]. split; [done|].
      apply elem_of_documents. by exists k.
    + by rewrite fetched_id.
Qed.

Lemma deleteForMe_views w w' userId k m m' :
  store_wf w → store_wf w' →
  findById w k = Some m → findById w' k = Some m' →
  userId ∈ deletedForMe m' →
  senderId m' = senderId m → receiverId m' = receiverId m →
  (∀ viewer, viewer ≠ userId →
     viewer ∈ deletedForMe m' ↔ viewer ∈ deletedForMe m) →
  (∀ other now x, x ∈ fetched userId other now w' → _id x ≠ k) ∧
  (∀ viewer other now, viewer ≠ userId →
     (∃ x, x ∈ fetched viewer other now w' ∧ _id x = k) ↔
     (∃ x, x ∈ fetched viewer other now w ∧ _id x = k)) ∧
  (deleteMessage userId k false w').1.1 = w'.
Proof.
  intros Hwf Hwf' Hf Hf' Hin Hs Hr Hothers. split; [|split].
  - intros other now x Hx Hk.
    assert (∃ x, x ∈ fetched userId other now w' ∧ _id x = k) as Hex by eauto.
    apply (fetch_shows_iff userId other now w' k m' Hwf' Hf') in Hex as [Hdel _].
    done.
  - intros viewer other now Hne.
    rewrite (fetch_shows_iff viewer other now w' k m' Hwf' Hf').
    rewrite (fetch_shows_iff viewer other now w k m Hwf Hf).
    unfold in_conversation. rewrite Hs, Hr. by rewrite (Hothers viewer Hne).
  - rewrite (deleteForMe_unfold userId k w' m' Hf'). by rewrite decide_True.
Qed.

(** X9: [deleteMessage] without [deleteForEveryone] works for any user on any
    stored message: it answers 200, adds the user to [deletedForMe] unless it
    is there already, changes no other field, and emits [messageDeletedForMe]
    through the registry entry of the requester only.  From then on no fetch
    of the requester shows the message, while for every other user a fetch
    shows it exactly when it did before; a second such request changes
    nothing. *)
Theorem deleteForMe_hides_from_requester_only (w : World) (userId k : string)
    (m : Message) :
  store_wf w → findById w k = Some m →
  let o := deleteMessage userId k false w in
  let m' := if decide (userId ∈ deletedForMe m) then m
            else set_deletedForMe (deletedForMe m ++ [userId]) m in
  o.1.2 = mkResponse 200 (JMessage m') ∧
  findById o.1.1 k = Some m' ∧
  userId ∈ deletedForMe m' ∧
  o.2 = emitTo w userId "messageDeletedForMe" (PMessage m') ∧
  (∀ other now x, x ∈ fetched userId other now o.1.1 → _id x ≠ k) ∧
  (∀ viewer other now, viewer ≠ userId →
     (∃ x, x ∈ fetched viewer other now o.1.1 ∧ _id x = k) ↔
     (∃ x, x ∈ fetched viewer other now w ∧ _id x = k)) ∧
  (deleteMessage userId k false o.1.1).1.1 = o.1.1.
Proof.
  intros Hwf Hf. cbn zeta.
  pose proof (findById_stored w k m Hwf Hf) as [Hid Hm].
  assert (store_wf (deleteMessage userId k false w).1.1) as Hwf'.
  { pose proof (handle_tracked userId 0 (DeleteMessage k false) w Hwf) as Ht.
    by eapply tracked_store_wf. }
  rewrite (deleteForMe_unfold userId k w m Hf) in *.
  destruct (decide (userId ∈ deletedForMe m)) as [Hin|Hin]; cbn [fst snd] in *.
  - split; [done|]. split; [done|]. split; [done|]. split; [done|].
    by apply (deleteForMe_views w w userId k m m).
  - assert (findById (save (set_deletedForMe (deletedForMe m ++ [userId]) m) w) k
            = Some (set_deletedForMe (deletedForMe m ++ [userId]) m)) as Hf'.
    { unfold findById, save. cbn. rewrite Hid. apply lookup_insert_eq. }
    split; [done|]. split; [done|]. split.
    { cbn. apply elem_of_app. right. by apply list_elem_of_singleton. }
    split; [done|].
    apply (deleteForMe_views w _ userId k m _ Hwf Hwf' Hf Hf'); try done.
    + cbn. apply elem_of_app. right. by apply list_elem_of_singleton.
    + intros viewer Hne. cbn. rewrite elem_of_app, list_elem_of_singleton.
      split; [intros [?|?]; [done|congruence]|by left].
Qed.

(** Bob hides the message of Alice from his view. *)
Lemma deleteForMe_hides_from_requester_only_witness :
  let o := deleteMessage "b" "m1" false demo_world in
  ∃ m, findById demo_world "m1" = Some m ∧
  let m' := if decide ("b" ∈ deletedForMe m) then m
            else set_deletedForMe (deletedForMe m ++ ["b"]) m in
  o.1.2 = mkResponse 200 (JMessage m') ∧
  findById o.1.1 "m1" = Some m' ∧
  "b" ∈ deletedForMe m' ∧
  o.2 = emitTo demo_world "b" "messageDeletedForMe" (PMessage m') ∧
  (∀ other now x, x ∈ fetched "b" other now o.1.1 → _id x ≠ "m1") ∧
  (∀ viewer other now, viewer ≠ "b" →
     (∃ x, x ∈ fetched viewer other now o.1.1 ∧ _id x = "m1") ↔
     (∃ x, x ∈ fetched viewer other now demo_world ∧ _id x = "m1")) ∧
  (deleteMessage "b" "m1" false o.1.1).1.1 = o.1.1.
Proof.
  intros o. eexists. split; [vm_compute; reflexivity|].
  apply (deleteForMe_hides_from_requester_only demo_world "b" "m1").
  - unfold store_wf. by_evaluation.
  - vm_compute. reflexivity.
Defined.

(** ** Events for both participants *)



(** ** What a fetch returns *)

Global Instance by_createdAt_trans : Transitive by_createdAt.
Proof. intros x y z. unfold by_createdAt. lia. Qed.

Global Instance by_createdAt_total : Total by_createdAt.
Proof. intros x y. unfold by_createdAt. lia. Qed.




(** * The typing indicators *)

Lemma sweep_loop_quiet now entries w :
  (∀ p, p ∈ entries → ¬ typing_expired now p.2) → sweep_loop now entries w = (w, []).
Proof.
  induction entries as [|[uid d] rest IH]; intros Hall; [done|].
  cbn. rewrite decide_False.
  - apply IH. intros p Hp. apply Hall. by apply list_elem_of_further.
  - apply (Hall (uid, d)). apply list_elem_of_here.
Qed.

(** The loop in closed form. *)
Lemma sweep_loop_spec now entries w :
  sweep_loop now entries w =
  (set_typingUsers
     (foldl (λ acc p, delete p.1 acc) (typingUsers w)
        (filter (λ p, typing_expired now p.2) entries)) w,
   filter (λ p, typing_expired now p.2) entries ≫= λ p,
     emitTo w (typingTo p.2) "userStoppedTyping" (stopped_typing p.1)).
Proof.
  revert w. induction entries as [|[uid d] rest IH]; intros w.
  - by destruct w.
  - cbn [sweep_loop]. rewrite filter_cons. cbn [snd].
    destruct (decide (typing_expired now d)); [|apply IH].
    rewrite IH. cbn. reflexivity.
Qed.

Lemma foldl_delete_lookup (gone : list (string * Typing)) (t : gmap string Typing) uid :
  foldl (λ acc p, delete p.1 acc) t gone !! uid =
  if decide (uid ∈ gone.*1) then None else t !! uid.
Proof.
  revert t. induction gone as [|[u d] rest IH]; intros t; [done|].
  cbn. rewrite IH. destruct (decide (u = uid)) as [->|Hne].
  - rewrite lookup_delete_eq. rewrite (decide_True (P := uid ∈ uid :: rest.*1)).
    + by case_decide.
    + apply list_elem_of_here.
  - rewrite lookup_delete_ne by done.
    destruct (decide (uid ∈ rest.*1)) as [Hin|Hin].
    + rewrite decide_True; [done|]. by apply list_elem_of_further.
    + rewrite decide_False; [done|]. intros [?|?]%elem_of_cons; congruence.
Qed.

Lemma typing_sweep_lookup now w uid :
  typingUsers (typing_sweep now w).1 !! uid =
  match typingUsers w !! uid with
  | Some d => if decide (typing_expired now d) then None else Some d
  | None => None
  end.
Proof.
  unfold typing_sweep. rewrite sweep_loop_spec. cbn. rewrite foldl_delete_lookup.
  destruct (typingUsers w !! uid) as [d|] eqn:Hd.
  - destruct (decide (typing_expired now d)) as [He|He].
    + rewrite decide_True; [done|].
      apply list_elem_of_fmap. exists (uid, d). split; [done|].
      apply list_elem_of_filter. split; [done|]. by apply elem_of_map_to_list.
    + rewrite decide_False; [done|].
      intros ([u d'] & Hu & [Hexp Hin]%list_elem_of_filter)%list_elem_of_fmap.
      cbn in *. subst u. apply elem_of_map_to_list in Hin. congruence.
  - by case_decide.
Qed.

Lemma typing_sweep_events now w e :
  e ∈ (typing_sweep now w).2 ↔
  ∃ uid d, typingUsers w !! uid = Some d ∧ typing_expired now d ∧
           e ∈ emitTo w (typingTo d) "userStoppedTyping" (stopped_typing uid).
Proof.
  unfold typing_sweep. rewrite sweep_loop_spec. cbn. rewrite list_elem_of_bind.
  split.
  - intros ([uid d] & He & [Hexp Hin]%list_elem_of_filter).
    exists uid, d. by apply elem_of_map_to_list in Hin.
  - intros (uid & d & Hd & Hexp & He). exists (uid, d). split; [done|].
    apply list_elem_of_filter. split; [done|]. by apply elem_of_map_to_list.
Qed.

Lemma typing_sweep_rest now w :
  users (typing_sweep now w).1 = users w ∧
  messages (typing_sweep now w).1 = messages w ∧
  userSocketMap (typing_sweep now w).1 = userSocketMap w.
Proof. unfold typing_sweep. by rewrite sweep_loop_spec. Qed.

(** X12: one tick of the typing cleanup removes exactly the entries older than
    3000 ms and keeps the others as they are; it emits [userStoppedTyping],
    carrying the typist, through the registry entry of the target of each
    removed entry and emits nothing else; it touches neither users, messages
    nor the registry; and a second tick at the same time finds nothing to
    do. *)
Theorem typing_sweep_removes_expired (now : Time) (w : World) :
  let o := typing_sweep now w in
  (∀ uid, typingUsers o.1 !! uid =
          match typingUsers w !! uid with
          | Some d => if decide (typing_expired now d) then None else Some d
          | None => None
          end) ∧
  (∀ e, e ∈ o.2 ↔
        ∃ uid d, typingUsers w !! uid = Some d ∧ typing_expired now d ∧
                 e ∈ emitTo w (typingTo d) "userStoppedTyping" (stopped_typing uid)) ∧
  users o.1 = users w ∧ messages o.1 = messages w ∧
  userSocketMap o.1 = userSocketMap w ∧
  typing_sweep now o.1 = (o.1, []).
Proof.
  cbn zeta. split; [apply typing_sweep_lookup|].
  split; [apply typing_sweep_events|].
  destruct (typing_sweep_rest now w) as (Hu & Hm & Hr).
  split; [done|]. split; [done|]. split; [done|].
  unfold typing_sweep at 1. apply sweep_loop_quiet.
  intros [uid d] Hin%elem_of_map_to_list Hexp. cbn in Hexp.
  rewrite typing_sweep_lookup in Hin.
  destruct (typingUsers w !! uid) as [d'|]; [|done].
  case_decide; [done|]. congruence.
Qed.

Lemma stop_event_payload e w u uid :
  e ∈ emitTo w u "userStoppedTyping" (stopped_typing uid) →
  payload e = stopped_typing uid.
Proof. by intros (_ & _ & _ & ?)%elem_of_emitTo. Qed.

(** X13: a typing signal files the typist under its target with the time of
    the signal, replacing an earlier entry, leaves the other typists alone
    and notifies the target only.  A cleanup tick no later than 3000 ms after
    the signal keeps the entry and sends no stop notification for the typist;
    a later tick removes the entry and sends the stop notification to the
    target.  An explicit stop removes the entry at once and notifies the
    receiver named in the stop signal. *)
Theorem typing_signal_and_timeout (socket : Socket) (userName receiverId : string)
    (t now : Time) (w : World) :
  let user := socket_userId socket in
  let o := on_typing socket userName receiverId t w in
  typingUsers o.1 !! user = Some (mkTyping receiverId t) ∧
  (∀ u, u ≠ user → typingUsers o.1 !! u = typingUsers w !! u) ∧
  o.2 = emitTo w receiverId "userTyping"
          (PObject [("userId", user); ("userName", userName)]) ∧
  (now - t ≤ 3000 →
     typingUsers (typing_sweep now o.1).1 !! user = Some (mkTyping receiverId t) ∧
     ∀ e, e ∈ (typing_sweep now o.1).2 → payload e ≠ stopped_typing user) ∧
  (3000 < now - t →
     typingUsers (typing_sweep now o.1).1 !! user = None ∧
     ∀ e, e ∈ emitTo w receiverId "userStoppedTyping" (stopped_typing user) →
          e ∈ (typing_sweep now o.1).2) ∧
  (∀ target,
     typingUsers (on_stopTyping socket target o.1).1 !! user = None ∧
     (on_stopTyping socket target o.1).2 =
       emitTo w target "userStoppedTyping" (stopped_typing user)).
Proof.
  cbn zeta.
  assert (typingUsers (on_typing socket userName receiverId t w).1
            !! socket_userId socket = Some (mkTyping receiverId t)) as Hentry
    by (cbn; apply lookup_insert_eq).
  split; [done|]. split; [|split; [done|split; [|split]]].
  - intros u Hu. cbn. by rewrite lookup_insert_ne.
  - intros Hle. split.
    + rewrite typing_sweep_lookup, Hentry. rewrite decide_False; [done|].
      unfold typing_expired. cbn. lia.
    + intros e (uid & d & Hd & Hexp & He)%typing_sweep_events Hp.
      rewrite (stop_event_payload _ _ _ _ He) in Hp.
      injection Hp as ->. rewrite Hentry in Hd. injection Hd as <-.
      unfold typing_expired in Hexp. cbn in Hexp. lia.
  - intros Hgt. split.
    + rewrite typing_sweep_lookup, Hentry. by rewrite decide_True.
    + intros e He. apply typing_sweep_events.
      exists (socket_userId socket), (mkTyping receiverId t).
      split; [done|]. split; [done|]. done.
  - intros target. split; [cbn; apply lookup_delete_eq|done].
Qed.

(** Alice types to Bob at 1000 and falls silent. *)
Example demo_typing_timeout :
  let w := (on_typing (mkSocket "s1" "a") "Alice" "b" 1000 demo_world).1 in
  (typing_sweep 4000 w).2 = [] ∧
  (typing_sweep 4001 w).2 =
    [mkEmit (Some "s2") "userStoppedTyping" (stopped_typing "a")] ∧
  typingUsers (typing_sweep 4001 w).1 = ∅.
Proof. cbn zeta. split; [|split]; vm_compute; reflexivity. Qed.

(** X14: a disconnect drops the typing entry of the user without telling the
    target: its only event is the broadcast of the online users, and no later
    cleanup tick sends a stop notification for that user. *)
Theorem disconnect_drops_typing_silently (socket : Socket) (w : World) :
  let user := socket_userId socket in
  let o := on_disconnect socket w in
  typingUsers o.1 !! user = None ∧
  (∀ u, u ≠ user → typingUsers o.1 !! u = typingUsers w !! u) ∧
  (∀ e, e ∈ o.2 → to e = None ∧ event e = "getOnlineUsers") ∧
  (∀ now e, e ∈ (typing_sweep now o.1).2 → payload e ≠ stopped_typing user).
Proof.
  cbn zeta. split; [cbn; apply lookup_delete_eq|].
  split; [intros u Hu; cbn; by rewrite lookup_delete_ne|]. split.
  - intros e ->%list_elem_of_singleton. done.
  - intros now e (uid & d & Hd & _ & He)%typing_sweep_events Hp.
    rewrite (stop_event_payload _ _ _ _ He) in Hp. injection Hp as ->.
    cbn in Hd. by rewrite lookup_delete_eq in Hd.
Qed.

(** * The presence registry, once more *)

(** X15: a connection files the socket under its user, replacing whatever was
    filed there and leaving the other users alone; the broadcast lists the
    user among the online users; from then on an event for the user goes to
    the new socket; users, messages and typing entries are untouched.  A
    second connection of the same user keeps the set of online users and
    takes the events over. *)
Theorem connection_last_wins (socket : Socket) (w : World) :
  let user := socket_userId socket in
  let o := on_connection socket w in
  userSocketMap o.1 !! user = Some (socket_id socket) ∧
  (∀ u, u ≠ user → userSocketMap o.1 !! u = userSocketMap w !! u) ∧
  o.2 = [mkEmit None "getOnlineUsers" (PUserIds ({[user]} ∪ dom (userSocketMap w)))] ∧
  users o.1 = users w ∧ messages o.1 = messages w ∧ typingUsers o.1 = typingUsers w ∧
  (∀ ev p, emitTo o.1 user ev p =
           if truthy (Some (socket_id socket))
           then [mkEmit (Some (socket_id socket)) ev p] else []) ∧
  (∀ sid2,
     let o2 := on_connection (mkSocket sid2 user) o.1 in
     userSocketMap o2.1 !! user = Some sid2 ∧
     dom (userSocketMap o2.1) = dom (userSocketMap o.1) ∧
     (sid2 ≠ socket_id socket →
      ∀ ev p e, e ∈ emitTo o2.1 user ev p → to e ≠ Some (socket_id socket))).
Proof.
  cbn zeta. split; [cbn; apply lookup_insert_eq|].
  split; [intros u Hu; cbn; by rewrite lookup_insert_ne|].
  split; [cbn; by rewrite dom_insert_L|].
  split; [done|]. split; [done|]. split; [done|]. split.
  - intros ev p. unfold emitTo, getReceiverSocketId. cbn.
    by rewrite lookup_insert_eq.
  - intros sid2. cbn zeta. split; [cbn; apply lookup_insert_eq|]. split.
    + cbn. by rewrite insert_insert_eq, !dom_insert_L.
    + intros Hne ev p e (Hto & _)%elem_of_emitTo. cbn in Hto.
      rewrite lookup_insert_eq in Hto. congruence.
Qed.

(** ** REST requests and the socket layer keep to their own state *)

Lemma handle_typing user now r w :
  typingUsers (handle user now r w).1.1 = typingUsers w.
Proof.
  destruct r as [ | |id|id body_text reply files newId|messageId|messageId em
                |messageId|messageId body_text|messageId deleteForEveryone];
    cbn [handle]; try done.
  - by rewrite getMessagesByUserId_unfold.
  - by destruct (sendMessage_world user id body_text reply files newId now w)
      as [->|[_ ->]].
  - unfold markMessageAsRead. by repeat case_match.
  - unfold addReaction. by repeat case_match.
  - unfold removeReaction. by repeat case_match.
  - unfold editMessage. by repeat case_match.
  - unfold deleteMessage. by repeat case_match.
Qed.

(** X16: no REST request changes the list of users, the presence registry
    or the typing entries, and none of its events is a broadcast; no
    connect, disconnect, typing signal or cleanup tick changes a stored
    message or the users. *)
Theorem layers_keep_to_their_state (user : string) (now : Time) (r : Request)
    (socket : Socket) (name target : string) (w : World) :
  (users (handle user now r w).1.1 = users w ∧
   userSocketMap (handle user now r w).1.1 = userSocketMap w ∧
   typingUsers (handle user now r w).1.1 = typingUsers w ∧
   ∀ e, e ∈ (handle user now r w).2 → is_Some (to e)) ∧
  (∀ w', w' ∈ [(on_connection socket w).1; (on_disconnect socket w).1;
               (on_typing socket name target now w).1;
               (on_stopTyping socket target w).1; (typing_sweep now w).1] →
         messages w' = messages w ∧ users w' = users w).
Proof.
  split.
  - split; [|split; [|split]].
    + pose proof (step_users (Http user now r) w) as H. cbn in H.
      by destruct (handle user now r w) as [[w' resp] evs].
    + apply handle_registry.
    + apply handle_typing.
    + intros e He.
      destruct r as [ | |id|id body_text reply files newId|messageId|messageId em
                    |messageId|messageId body_text|messageId deleteForEveryone];
        cbn [handle] in He.
      * by apply elem_of_nil in He.
      * by apply elem_of_nil in He.
      * rewrite getMessagesByUserId_events in He.
        apply list_elem_of_bind in He as (msg & He & _).
        by apply elem_of_emitTo in He as (_ & ? & _).
      * destruct (decide (status (sendMessage user id body_text reply files newId now w).1.2
                          = 201)) as [Hst|Hst].
        -- destruct (sendMessage user id body_text reply files newId now w)
             as [[w' resp] evs] eqn:H.
           destruct (sendMessage_created _ _ _ _ _ _ _ _ _ _ _ H Hst)
             as (_ & _ & _ & _ & _ & ->).
           by apply elem_of_emitTo in He as (_ & ? & _).
        -- destruct (sendMessage_refused _ _ _ _ _ _ _ _ Hst) as [_ Hev].
           rewrite Hev in He. by apply elem_of_nil in He.
      * unfold markMessageAsRead in He.
        repeat (case_match; try (by apply elem_of_nil in He)).
        cbn in He. by apply elem_of_emitTo in He as (_ & ? & _).
      * unfold addReaction in He.
        repeat (case_match; try (by apply elem_of_nil in He)).
        cbn in He. apply elem_of_app in He as [He|He];
          by apply elem_of_emitTo in He as (_ & ? & _).
      * unfold removeReaction in He.
        repeat (case_match; try (by apply elem_of_nil in He)).
        cbn in He. apply elem_of_app in He as [He|He];
          by apply elem_of_emitTo in He as (_ & ? & _).
      * unfold editMessage in He.
        repeat (case_match; try (by apply elem_of_nil in He)).
        cbn in He. apply elem_of_app in He as [He|He];
          by apply elem_of_emitTo in He as (_ & ? & _).
      * unfold deleteMessage in He.
        destruct (findById w messageId); [|by apply elem_of_nil in He].
        destruct deleteForEveryone.
        -- case_bool_decide; cbn in He; [|by apply elem_of_nil in He].
           apply elem_of_app in He as [He|He];
             by apply elem_of_emitTo in He as (_ & ? & _).
        -- cbn in He. by apply elem_of_emitTo in He as (_ & ? & _).
  - intros w' Hw'. destruct (typing_sweep_rest now w) as (Hu & Hm & _).
    repeat (apply elem_of_cons in Hw' as [->|Hw']; [done|]).
    by apply elem_of_nil in Hw'.
Qed.

(** * Uploads *)

Lemma uploadToCloudinary_unconfigured env cloud f resourceType :
  cloudinary_configured env = false →
  ∃ e, uploadToCloudinary env cloud (Some f) resourceType = Rejected e ∧
       (e = "Invalid file: no buffer found" ∨ e = not_configured_message).
Proof.
  intros Hc. unfold uploadToCloudinary. cbn. destruct (buffer f); [|by eauto].
  rewrite Hc. cbn. eauto.
Qed.

(** X17: without the three Cloudinary settings no upload reaches Cloudinary
    and every upload is rejected.  A [sendMessage] that carries a file and
    passes the checks on content, sender and receiver then answers 500 with
    the failure of its first file and stores and emits nothing, whatever
    Cloudinary would have answered; a message without files is handled as
    before. *)
Theorem media_needs_cloudinary (env : Env) (cloud : UploadOptions → string → CloudAnswer)
    (raw : RawFiles) senderId receiverId body_text replyTo newId now w :
  cloudinary_configured env = false →
  senderId ≠ receiverId → receiverId ∈ user_id <$> users w →
  let o := sendMessage senderId receiverId body_text replyTo
             (uploads env cloud raw) newId now w in
  match first_file raw with
  | Some kind =>
      o.1.1 = w ∧ o.2 = [] ∧ status o.1.2 = 500 ∧
      ∃ e, body o.1.2 = JInfo ("Failed to upload " +:+ kind +:+ ": " +:+ e) ∧
           (e = "Invalid file: no buffer found" ∨ e = not_configured_message)
  | None =>
      o = sendMessage senderId receiverId body_text replyTo no_files newId now w
  end.
Proof.
  intros Hc Hne Hrcv. cbn zeta. rewrite sendMessage_early.
  unfold first_file, uploads, has_content, first_rejected. cbn.
  destruct (raw_image raw) as [fi|]; cbn.
  { rewrite orb_true_r. cbn. rewrite decide_False by done.
    rewrite bool_decide_eq_true_2 by done. cbn.
    destruct (uploadToCloudinary_unconfigured env cloud fi "image" Hc)
      as (e & -> & He). cbn.
    split; [done|]. split; [done|]. split; [done|]. exists e. split; [|done].
    unfold error_message. by destruct He as [-> | ->]. }
  destruct (raw_video raw) as [fv|]; cbn.
  { rewrite orb_true_r. cbn. rewrite decide_False by done.
    rewrite bool_decide_eq_true_2 by done. cbn.
    destruct (uploadToCloudinary_unconfigured env cloud fv "video" Hc)
      as (e & -> & He). cbn.
    split; [done|]. split; [done|]. split; [done|]. exists e. split; [|done].
    unfold error_message. by destruct He as [-> | ->]. }
  destruct (raw_audio raw) as [fa|]; cbn.
  { rewrite orb_true_r. cbn. rewrite decide_False by done.
    rewrite bool_decide_eq_true_2 by done. cbn.
    destruct (uploadToCloudinary_unconfigured env cloud fa "video" Hc)
      as (e & -> & He). cbn.
    split; [done|]. split; [done|]. split; [done|]. exists e. split; [|done].
    unfold error_message. by destruct He as [-> | ->]. }
  by rewrite sendMessage_early.
Qed.

Lemma media_needs_cloudinary_witness :
  let env := mkEnv (Some "demo") None (Some "secret") in
  let cloud := λ _ _, CloudResult "https://res.cloudinary.com/demo/cat.png" in
  let raw := mkRawFiles (Some (mkRawFile (Some "PNG"))) None None in
  let o := sendMessage "a" "b" (Some "look") None (uploads env cloud raw) "m2" 8
             demo_world in
  match first_file raw with
  | Some kind =>
      o.1.1 = demo_world ∧ o.2 = [] ∧ status o.1.2 = 500 ∧
      ∃ e, body o.1.2 = JInfo ("Failed to upload " +:+ kind +:+ ": " +:+ e) ∧
           (e = "Invalid file: no buffer found" ∨ e = not_configured_message)
  | None =>
      o = sendMessage "a" "b" (Some "look") None no_files "m2" 8 demo_world
  end.
Proof.
  intros env cloud raw.
  apply (media_needs_cloudinary env cloud raw "a" "b" (Some "look") None "m2" 8
           demo_world).
  - reflexivity.
  - discriminate.
  - by_evaluation.
Defined.

Lemma upload_resolved env cloud f resourceType :
  upload_error (Some (uploadToCloudinary env cloud (Some f) resourceType)) = None →
  cloudinary_configured env = true ∧ is_Some (buffer f) ∧
  upload_url (Some (uploadToCloudinary env cloud (Some f) resourceType))
  = cloud_url cloud resourceType (Some f).
Proof.
  unfold uploadToCloudinary, cloud_url. cbn.
  destruct (buffer f) as [bytes|]; [|done].
  destruct (cloudinary_configured env); [|done]. cbn.
  destruct (cloud _ bytes); by eauto.
Qed.

(** X18: when a [sendMessage] with files succeeds, every file had a buffer,
    Cloudinary is configured, and the media fields of the stored message are
    the URLs Cloudinary answered with: for the image uploaded as ["image"]
    with automatic quality, for the video and for the audio uploaded as
    ["video"]; a kind without file stays undefined. *)
Theorem media_urls_stored (env : Env) (cloud : UploadOptions → string → CloudAnswer)
    (raw : RawFiles) senderId receiverId body_text replyTo newId now w w' resp evs :
  sendMessage senderId receiverId body_text replyTo (uploads env cloud raw) newId now w
    = (w', resp, evs) →
  status resp = 201 →
  ∃ m, findById w' newId = Some m ∧ body resp = JMessage m ∧
       image m = cloud_url cloud "image" (raw_image raw) ∧
       video m = cloud_url cloud "video" (raw_video raw) ∧
       audio m = cloud_url cloud "video" (raw_audio raw) ∧
       quality (upload_options "image") = Some "auto" ∧
       (is_Some (first_file raw) → cloudinary_configured env = true) ∧
       (∀ f, f ∈ [raw_image raw; raw_video raw; raw_audio raw] →
             ∀ x, f = Some x → is_Some (buffer x)).
Proof.
  intros H Hst.
  destruct (sendMessage_created _ _ _ _ _ _ _ _ _ _ _ H Hst)
    as (_ & _ & _ & -> & -> & _).
  assert (first_rejected (uploads env cloud raw) = None) as Hrej.
  { rewrite sendMessage_early in H.
    destruct (first_rejected (uploads env cloud raw)) as [[kind e]|]; [|done].
    repeat case_match; simplify_eq; cbn in Hst; done. }
  unfold first_rejected, uploads in Hrej. cbn in Hrej.
  assert (∀ rt f,
            upload_error ((λ x, uploadToCloudinary env cloud (Some x) rt) <$> f) = None →
            upload_url ((λ x, uploadToCloudinary env cloud (Some x) rt) <$> f)
              = cloud_url cloud rt f ∧
            (∀ x, f = Some x → is_Some (buffer x) ∧ cloudinary_configured env = true))
    as Hfile.
  { intros rt [x|] Hx; [|by split].
    destruct (upload_resolved env cloud x rt Hx) as (Hc & Hb & Hu).
    split; [exact Hu|]. intros y Hy. injection Hy as <-. by split. }
  destruct (upload_error (_ <$> raw_image raw)) eqn:Hi; [done|].
  destruct (upload_error (_ <$> raw_video raw)) eqn:Hv; [done|].
  destruct (upload_error (_ <$> raw_audio raw)) eqn:Ha; [done|].
  destruct (Hfile _ _ Hi) as [Hiu Hib], (Hfile _ _ Hv) as [Hvu Hvb],
    (Hfile _ _ Ha) as [Hau Hab].
  eexists. split; [unfold findById, save; cbn; apply lookup_insert_eq|].
  split; [done|]. cbn. split; [done|]. split; [done|]. split; [done|].
  split; [done|]. split.
  - unfold first_file.
    destruct (raw_image raw) as [x|]; [intros _; by apply (Hib x)|].
    destruct (raw_video raw) as [x|]; [intros _; by apply (Hvb x)|].
    destruct (raw_audio raw) as [x|]; [intros _; by apply (Hab x)|].
    by intros [? ?].
  - intros f Hf x ->.
    repeat (apply elem_of_cons in Hf as [Hf|Hf];
            [first [by apply Hib|by apply Hvb|by apply Hab]|]).
    by apply elem_of_nil in Hf.
Qed.

(** A voice note goes to Cloudinary as a video. *)
Lemma media_urls_stored_witness :
  let env := mkEnv (Some "demo") (Some "key") (Some "secret") in
  let cloud := λ o (_ : string),
    if decide (resource_type o = "video")
    then CloudResult "https://res.cloudinary.com/demo/video/note.webm"
    else CloudError (Some "unexpected resource type") in
  let raw := mkRawFiles None None (Some (mkRawFile (Some "OPUS"))) in
  let o := sendMessage "a" "b" None None (uploads env cloud raw) "m2" 8 demo_world in
  ∃ m, findById o.1.1 "m2" = Some m ∧ body o.1.2 = JMessage m ∧
       image m = cloud_url cloud "image" (raw_image raw) ∧
       video m = cloud_url cloud "video" (raw_video raw) ∧
       audio m = cloud_url cloud "video" (raw_audio raw) ∧
       quality (upload_options "image") = Some "auto" ∧
       (is_Some (first_file raw) → cloudinary_configured env = true) ∧
       (∀ f, f ∈ [raw_image raw; raw_video raw; raw_audio raw] →
             ∀ x, f = Some x → is_Some (buffer x)).
Proof.
  intros env cloud raw o.
  apply (media_urls_stored env cloud raw "a" "b" None None "m2" 8 demo_world
           o.1.1 o.1.2 o.2).
  - vm_compute. reflexivity.
  - vm_compute. reflexivity.
Defined.

(** * The client store *)



Lemma agrees_to_client m : agrees (to_client m) m.
Proof.
  unfold agrees, c_readers, c_recipients, readers, recipients; cbn.
  rewrite <- !list_fmap_compose. by split_and!.
Qed.


(** The events of one [emitTo] at the client of [sid]. *)
Lemma client_receive_emitTo_online sub sid w u ev p c :
  userSocketMap w !! u = Some sid → truthy (Some sid) = true →
  client_receive sub sid (emitTo w u ev p) c =
    match decode (mkEmit (Some sid) ev p) with
    | Some e => client_on sub e c
    | None => c
    end.
Proof.
  intros Hs Ht. unfold emitTo, getReceiverSocketId. rewrite Hs, Ht.
  cbn. unfold client_event. cbn. by rewrite decide_True.
Qed.








Lemma agrees_deletedForMe cm m v : agrees cm m → agrees cm (set_deletedForMe v m).
Proof. done. Qed.



Lemma decode_newMessage t m' :
  decode (mkEmit t "newMessage" (PMessage m')) = Some (NewMessage (to_client m')).
Proof. reflexivity. Qed.



Lemma NoDup_documents w : store_wf w → NoDup (_id <$> documents w).
Proof.
  intros Hwf. unfold documents.
  assert ((_id <$> (map_to_list (messages w)).*2) = (map_to_list (messages w)).*1) as ->.
  { rewrite <- list_fmap_compose. apply Forall_fmap_ext_1, Forall_forall.
    intros [k m] Hin. apply elem_of_map_to_list in Hin. cbn. by apply Hwf. }
  apply NoDup_fst_map_to_list.
Qed.






Example demo_alice_sees_receipts :
  let o := session "b" "s1" demo_bob_actions demo_world demo_alice_client in
  (λ m, (c_id m, c_recipients m, c_readers m, c_reactions m)) <$> c_messages o.2
  = [("m1", ["a"; "b"], ["b"], [mkReaction "b" ":)"])].
Proof. vm_compute. reflexivity. Qed.

(** ** Opening a conversation *)

Lemma filter_fmap_iff {A B} (f : A → B) (P : B → Prop) (Q : A → Prop)
    `{!∀ x, Decision (P x)} `{!∀ x, Decision (Q x)} (l : list A) :
  (∀ x, P (f x) ↔ Q x) → filter P (f <$> l) = f <$> filter Q l.
Proof.
  intros HPQ. induction l as [|x l IH]; [done|].
  rewrite fmap_cons, !filter_cons.
  destruct (decide (P (f x))) as [HP|HP], (decide (Q x)) as [HQ|HQ].
  - by rewrite fmap_cons, IH.
  - by apply HPQ in HP.
  - by apply HPQ in HQ.
  - done.
Qed.

Lemma run_app acts1 acts2 w : run (acts1 ++ acts2) w = run acts2 (run acts1 w).
Proof. revert w. induction acts1 as [|a acts1 IH]; intros w; [done|]. cbn. apply IH. Qed.

(** A fetched document is the one the fetch leaves in the store. *)
Lemma fetched_stored me peer now w x :
  store_wf w → x ∈ fetched me peer now w →
  messages (getMessagesByUserId me peer now w).1.1 !! _id x = Some x.
Proof.
  intros Hwf (msg & Hvis & Hx)%elem_of_fetched_iff.
  pose proof Hvis as (_ & _ & [k Hk]%elem_of_documents)%elem_of_visible.
  pose proof (store_wf_lookup _ _ _ Hwf Hk) as Hid.
  assert (_id x = k) as ->.
  { rewrite Hx. by destruct (decide (undelivered me msg)). }
  rewrite getMessagesByUserId_messages.
  destruct (deliver_all_lookup me now (unread_for me peer w) (messages w) k)
    as [[Heq Hall]|(y & Hy & Hyk & Hlook)].
  - rewrite Heq, Hk, Hx. rewrite decide_False; [done|].
    intros Hun. apply (Hall msg); [|done]. by apply elem_of_unread.
  - rewrite Hlook, Hx.
    pose proof Hy as [Hun (_ & _ & [k' Hk']%elem_of_documents)%elem_of_visible]%elem_of_unread.
    pose proof (store_wf_lookup _ _ _ Hwf Hk') as Hid'.
    assert (y = msg) as -> by congruence.
    by rewrite decide_True.
Qed.

Lemma NoDup_fetched me peer now w :
  store_wf w → NoDup (_id <$> fetched me peer now w).
Proof.
  intros Hwf. unfold fetched. rewrite getMessagesByUserId_unfold. cbn.
  rewrite <- list_fmap_compose.
  rewrite (Forall_fmap_ext_1 _ _id).
  2:{ apply Forall_forall. intros msg _. cbn.
      by destruct (decide (undelivered me msg)). }
  unfold visible_for.
  eapply sublist_NoDup; [|apply fmap_sublist, sublist_filter].
  rewrite merge_sort_Permutation.
  eapply sublist_NoDup; [|apply fmap_sublist, sublist_filter].
  by apply NoDup_documents.
Qed.
Lemma read_requests_loaded me sel c data :
  selectedUser c = Some sel →
  read_requests me (client_getMessagesByUserId (to_client <$> data) c) =
  _id <$> filter (λ m, senderId m ≠ me ∧ me ∉ readers m) data.
Proof.
  intros Hsel. unfold read_requests. cbn. rewrite Hsel.
  rewrite (filter_fmap_iff to_client _ (λ m, senderId m ≠ me ∧ me ∉ readers m)).
  - by rewrite <- list_fmap_compose.
  - intros m. unfold c_readers, readers. cbn.
    by rewrite <- list_fmap_compose.
Qed.

(** X20: selecting a user and loading the conversation.  [setSelectedUser]
    clears the messages and the pending set, keeps the typing indicators and
    asks for no read receipt: it looks for unread messages after it has
    cleared them.  Once the answer of the fetch is loaded, the client shows
    each message once, every message on display is the document as the fetch
    left it in the store, and the view effect asks to mark as read exactly
    the fetched messages of other users that the user has not yet read. *)
Theorem conversation_opened (me peer : string) (now : Time) (w : World) (c : Client) :
  store_wf w →
  let o := getMessagesByUserId me peer now w in
  let c1 := setSelectedUser (Some peer) me c in
  let c2 := client_getMessagesByUserId (to_client <$> fetched me peer now w) c1.1 in
  c1.2 = [] ∧ c_messages c1.1 = [] ∧ pendingMessages c1.1 = ∅ ∧
  c_typingUsers c2 = c_typingUsers c ∧ selectedUser c2 = Some peer ∧
  NoDup (shown_ids c2) ∧
  (∀ cm, cm ∈ c_messages c2 →
         ∃ m, messages o.1.1 !! c_id cm = Some m ∧ cm = to_client m ∧
              in_conversation me peer m ∧ me ∉ deletedForMe m) ∧
  (∀ u, in_sync u o.1.1 c2) ∧
  read_requests me c2 =
    _id <$> filter (λ m, senderId m ≠ me ∧ me ∉ readers m) (fetched me peer now w).
Proof.
  intros Hwf o c1 c2.
  assert (Hshown : ∀ cm, cm ∈ c_messages c2 →
            ∃ m, messages o.1.1 !! c_id cm = Some m ∧ cm = to_client m ∧
                 in_conversation me peer m ∧ me ∉ deletedForMe m).
  { intros cm (x & -> & Hx)%list_elem_of_fmap. exists x.
    split; [by apply fetched_stored|]. split; [done|].
    apply elem_of_fetched_iff in Hx as (msg & Hvis & ->).
    apply elem_of_visible in Hvis as (Hdel & Hconv & _).
    by destruct (decide (undelivered me msg)). }
  split_and!; try done.
  - unfold shown_ids. cbn. rewrite <- list_fmap_compose.
    by apply NoDup_fetched.
  - intros u cm Hin _ _. destruct (Hshown cm Hin) as (m & Hm & -> & _).
    exists m. split; [done|apply agrees_to_client].
  - by apply read_requests_loaded with peer.
Qed.

Lemma conversation_opened_witness :
  let o := getMessagesByUserId "b" "a" 6 demo_world in
  let c1 := setSelectedUser (Some "a") "b" init_client in
  let c2 := client_getMessagesByUserId (to_client <$> fetched "b" "a" 6 demo_world) c1.1 in
  store_wf demo_world ∧ read_requests "b" c2 = ["m1"] ∧ in_sync "b" o.1.1 c2.
Proof.
  assert (Hwf : store_wf demo_world) by (unfold store_wf; by_evaluation).
  destruct (conversation_opened "b" "a" 6 demo_world init_client Hwf)
    as (_ & _ & _ & _ & _ & _ & _ & Hsync & Hreq).
  split; [done|]. split; [|apply Hsync].
  rewrite Hreq. vm_compute. reflexivity.
Defined.

(** ** Reading a conversation *)

Lemma elem_of_fmap_prefix {A B} (f : A → B) (l1 l2 : list A) (x : B) :
  l1 `prefix_of` l2 → x ∈ f <$> l1 → x ∈ f <$> l2.
Proof. intros [rest ->] Hx. rewrite fmap_app. apply elem_of_app. by left. Qed.

(** X21: what the view effect asks for is what the server needs.  Once the
    conversation with [peer] is loaded, if every read request of the effect
    reaches the server, at any time and with any other requests before,
    between and after, then every message that [peer] had sent to the user
    and that the user has not deleted for itself ends up with the user in
    [readBy], and has the user in [deliveredTo] since the fetch. *)
Theorem viewed_messages_get_read (me peer : string) (now : Time) (w : World)
    (c : Client) (acts : list Action) (k : string) (m : Message) :
  store_wf w → peer ≠ me →
  let o := getMessagesByUserId me peer now w in
  let c2 := client_getMessagesByUserId (to_client <$> fetched me peer now w)
              (setSelectedUser (Some peer) me c).1 in
  (∀ id, id ∈ read_requests me c2 → ∃ t, Http me t (MarkMessageAsRead id) ∈ acts) →
  messages w !! k = Some m →
  senderId m = peer → receiverId m = me → me ∉ deletedForMe m →
  ∃ m1 m2, messages o.1.1 !! k = Some m1 ∧ me ∈ recipients m1 ∧
           messages (run acts o.1.1) !! k = Some m2 ∧
           me ∈ readers m2 ∧ me ∈ recipients m2.
Proof.
  intros Hwf Hne o c2 Hreq Hk Hsnd Hrcv Hdel.
  pose proof (store_wf_lookup _ _ _ Hwf Hk) as Hid.
  assert (Hwf1 : store_wf o.1.1).
  { exact (tracked_store_wf _ _ _ _ Hwf (tracked_fetch me peer now w Hwf)). }
  set (x := if decide (undelivered me m) then push_delivered me now m else m).
  assert (Hx : x ∈ fetched me peer now w).
  { apply elem_of_fetched_iff. exists m. split; [|done].
    apply elem_of_visible. split; [done|]. split; [by right|].
    apply elem_of_documents. by exists k. }
  assert (Hxid : _id x = k) by (subst x; by destruct (decide (undelivered me m))).
  assert (Hxs : senderId x = peer) by (subst x; by destruct (decide (undelivered me m))).
  pose proof (fetched_stored me peer now w x Hwf Hx) as Hst. rewrite Hxid in Hst.
  assert (Hxr : me ∈ recipients x).
  { subst x. destruct (decide (undelivered me m)) as [Hu|Hu].
    - unfold recipients. cbn. rewrite fmap_app. apply elem_of_app. right.
      by apply list_elem_of_singleton.
    - destruct (decide (me ∈ recipients m)) as [|Hn]; [done|].
      exfalso. apply Hu. by split. }
  exists x.
  assert (Hend : ∀ w1 m1 post, store_wf w1 → messages w1 !! k = Some m1 →
            me ∈ readers m1 → me ∈ recipients m1 →
            ∃ m2, messages (run post w1) !! k = Some m2 ∧
                  me ∈ readers m2 ∧ me ∈ recipients m2).
  { intros w1 m1 post Hw1 Hm1 Hr1 Hd1.
    destruct (run_lookup post w1 k m1 Hw1 Hm1) as (m2 & Hm2 & Hrtc).
    destruct (evolves_receipts_grow _ _ Hrtc) as [Hp1 Hp2].
    exists m2. split; [done|]. unfold readers, recipients in *.
    split; by eapply elem_of_fmap_prefix. }
  destruct (decide (me ∈ readers x)) as [Hread|Hread].
  - destruct (Hend o.1.1 x acts Hwf1 Hst Hread Hxr) as (m2 & ? & ? & ?).
    exists m2. done.
  - destruct (Hreq k) as (t & Hact).
    { subst c2. rewrite (read_requests_loaded me peer) by done.
      apply list_elem_of_fmap. exists x. split; [done|].
      apply list_elem_of_filter. split; [|done]. split; [congruence|done]. }
    apply list_elem_of_split in Hact as (pre & post & ->).
    rewrite run_app. cbn [run].
    destruct (run_lookup pre o.1.1 k x Hwf1 Hst) as (m1 & Hm1 & Hrtc).
    destruct (evolves_receipts_grow _ _ Hrtc) as [_ Hp2].
    pose proof (run_store_wf pre o.1.1 Hwf1) as Hwf2.
    destruct (markMessageAsRead_reader me k t (run pre o.1.1) m1 Hwf2 Hm1)
      as (m1' & Hm1' & Hr1').
    assert (Hd1 : me ∈ recipients m1).
    { unfold recipients in *. by eapply elem_of_fmap_prefix. }
    set (w2 := (step (Http me t (MarkMessageAsRead k)) (run pre o.1.1)).1).
    assert (Hw2 : w2 = (markMessageAsRead me k t (run pre o.1.1)).1.1).
    { subst w2. cbn. by destruct (markMessageAsRead me k t (run pre o.1.1)) as [[? ?] ?]. }
    assert (Hwf3 : store_wf w2) by (by apply step_store_wf).
    rewrite <- Hw2 in Hm1'.
    destruct (run_lookup [Http me t (MarkMessageAsRead k)] (run pre o.1.1) k m1 Hwf2 Hm1)
      as (m1'' & Hm1'' & Hrtc1).
    cbn [run] in Hm1''. fold w2 in Hm1''.
    unfold findById in Hm1'. rewrite Hm1' in Hm1''. injection Hm1'' as <-.
    destruct (evolves_receipts_grow _ _ Hrtc1) as [_ Hp3].
    assert (Hd1' : me ∈ recipients m1').
    { unfold recipients in *. by eapply elem_of_fmap_prefix. }
    destruct (Hend w2 m1' post Hwf3 Hm1' Hr1' Hd1') as (m2 & ? & ? & ?).
    exists m2. done.
Qed.
Lemma viewed_messages_get_read_witness :
  ∃ m1 m2,
    messages (getMessagesByUserId "b" "a" 6 demo_world).1.1 !! "m1" = Some m1 ∧
    "b" ∈ recipients m1 ∧
    messages (run [Http "a" 7 (AddReaction "m1" (Some ":)"));
                   Http "b" 8 (MarkMessageAsRead "m1")]
                (getMessagesByUserId "b" "a" 6 demo_world).1.1) !! "m1" = Some m2 ∧
    "b" ∈ readers m2 ∧ "b" ∈ recipients m2.
Proof.
  eapply (viewed_messages_get_read "b" "a" 6 demo_world init_client
            [Http "a" 7 (AddReaction "m1" (Some ":)"));
             Http "b" 8 (MarkMessageAsRead "m1")] "m1").
  - unfold store_wf. by_evaluation.
  - done.
  - intros id Hid. vm_compute in Hid. apply list_elem_of_singleton in Hid as ->.
    exists 8. apply list_elem_of_further, list_elem_of_here.
  - vm_compute. reflexivity.
  - reflexivity.
  - reflexivity.
  - vm_compute. by intros ?%elem_of_nil.
Defined.

(** ** What the client displays *)

Lemma decode_NewMessage e cm :
  decode e = Some (NewMessage cm) →
  event e = "newMessage" ∧ ∃ m, payload e = PMessage m ∧ cm = to_client m.
Proof.
  unfold decode, message_of. intros H.
  repeat case_decide;
    destruct (payload e) as [m|fields|ids]; simplify_option_eq; eauto.
Qed.

Lemma shown_ids_map (f : ClientMessage → ClientMessage) c :
  (∀ x, c_id (f x) = c_id x) →
  shown_ids (set_c_messages (f <$> c_messages c) c) = shown_ids c.
Proof.
  intros Hf. unfold shown_ids. cbn. rewrite <- list_fmap_compose.
  apply Forall_fmap_ext_1, Forall_forall. intros x _. apply Hf.
Qed.

Lemma shown_ids_receipt c k u :
  shown_ids (on_messageRead k u c) = shown_ids c ∧
  shown_ids (on_messageDelivered k u c) = shown_ids c.
Proof.
  split; apply shown_ids_map; intros x; case_decide; try done.
  - unfold add_reader. by case_bool_decide.
  - unfold add_recipient. by case_bool_decide.
Qed.

Lemma shown_ids_replace c m :
  shown_ids (replace_message (c_id m) m c) = shown_ids c.
Proof. apply shown_ids_map. intros x. by case_decide. Qed.

(** One event at the client: the messages on display stay distinct, and a
    message is added only by [newMessage], from the selected user, when it is
    neither on display nor pending. *)
Lemma client_event_ids sub sid e c :
  NoDup (shown_ids c) →
  let c1 := client_event sub sid c e in
  NoDup (shown_ids c1) ∧ selectedUser c1 = selectedUser c ∧
  pendingMessages c1 = pendingMessages c ∧
  ∀ k, k ∈ shown_ids c1 →
       k ∈ shown_ids c ∨
       ((k ∉ pendingMessages c) ∧ to e = Some sid ∧ event e = "newMessage" ∧
        ∃ m, payload e = PMessage m ∧ _id m = k ∧
             selectedUser c = Some (senderId m)).
Proof.
  intros Hnd. unfold client_event. cbn zeta.
  case_decide as Hto; [|by auto].
  destruct (decode e) as [ev|] eqn:Hdec; [|by auto].
  destruct ev as [m|k u|k u|m|m|m|m|m|u|u]; cbn [client_on].
  - apply decode_NewMessage in Hdec as (Hev & m0 & Hp & ->).
    unfold handleNewMessage.
    destruct (selectedUser c) as [sel|] eqn:Hsel; [|by rewrite ?Hsel; auto].
    case_decide as Hsnd; [|by rewrite ?Hsel; auto].
    case_bool_decide as Hex; cbn [negb andb]; [by rewrite ?Hsel; auto|].
    case_bool_decide as Hpen; cbn [negb andb]; [by rewrite ?Hsel; auto|].
    unfold shown_ids. cbn. rewrite fmap_app. cbn. split_and!; try done.
    + apply NoDup_app. split; [done|]. split; [|apply NoDup_singleton].
      intros x Hx ->%list_elem_of_singleton. done.
    + intros k [Hk| ->%list_elem_of_singleton]%elem_of_app; [by left|].
      right. split_and!; try done. exists m0. split_and!; try done.
      cbn in Hsnd. by rewrite Hsnd.
  - destruct (shown_ids_receipt c k u) as [-> _]. auto.
  - destruct (shown_ids_receipt c k u) as [_ ->]. auto.
  - rewrite shown_ids_replace. auto.
  - rewrite shown_ids_replace. auto.
  - rewrite shown_ids_replace. auto.
  - rewrite shown_ids_replace. auto.
  - unfold shown_ids. cbn. split_and!; try done.
    + eapply sublist_NoDup; [exact Hnd|]. apply fmap_sublist, sublist_filter.
    + intros k (x & -> & [_ Hx]%list_elem_of_filter)%list_elem_of_fmap.
      left. apply list_elem_of_fmap. eauto.
  - unfold on_userTyping. case_decide; auto.
  - auto.
Qed.

(** X22: the client shows no message twice.  Whatever events arrive on its
    socket, the messages on display keep distinct [_id]s, the selected user
    and the pending set stay as they are, and a message joins the display
    only through a [newMessage] event addressed to the socket, sent by the
    selected user, for an [_id] that is not pending. *)
Theorem client_shows_each_message_once (sub sid : string) (evs : list Emit)
    (c : Client) :
  NoDup (shown_ids c) →
  let c' := client_receive sub sid evs c in
  NoDup (shown_ids c') ∧ selectedUser c' = selectedUser c ∧
  pendingMessages c' = pendingMessages c ∧
  ∀ k, k ∈ shown_ids c' →
       k ∈ shown_ids c ∨
       ((k ∉ pendingMessages c) ∧
        ∃ e m, e ∈ evs ∧ to e = Some sid ∧ event e = "newMessage" ∧
               payload e = PMessage m ∧ _id m = k ∧
               selectedUser c = Some (senderId m)).
Proof.
  revert c. induction evs as [|e evs IH]; intros c Hnd; [by auto|].
  cbn zeta. unfold client_receive. cbn [foldl].
  fold (client_receive sub sid evs (client_event sub sid c e)).
  destruct (client_event_ids sub sid e c Hnd) as (Hnd1 & Hsel1 & Hpen1 & Hk1).
  destruct (IH _ Hnd1) as (Hnd2 & Hsel2 & Hpen2 & Hk2).
  split_and!; [done|congruence|congruence|].
  intros k Hk. destruct (Hk2 k Hk) as [Hin|(Hp & e' & m & He & ? & ? & ? & ? & Hs)].
  - destruct (Hk1 k Hin) as [?|(Hp & ? & ? & m & ? & ? & ?)]; [by left|].
    right. split; [done|]. exists e, m. split_and!; try done. left.
  - right. split; [by rewrite <- Hpen1|]. exists e', m.
    split_and!; try done; [by right|by rewrite <- Hsel1].
Qed.

Lemma client_shows_each_message_once_witness :
  let c' := client_receive "a" "s2"
              (step (Http "a" 7 (SendMessage "b" (Some "again") None no_files "m2"))
                    demo_world).2
              (client_getMessagesByUserId
                 (to_client <$> fetched "b" "a" 6 demo_world)
                 (setSelectedUser (Some "a") "b" init_client).1) in
  shown_ids c' = ["m1"; "m2"] ∧ NoDup (shown_ids c').
Proof.
  split; [vm_compute; reflexivity|].
  apply (client_shows_each_message_once "a" "s2").
  vm_compute. repeat constructor; by intros ?%elem_of_nil.
Defined.
(** ** Sending from the client *)

Lemma replace_fresh (tempId : string) (r : ClientMessage) (l : list ClientMessage) :
  tempId ∉ c_id <$> l →
  (λ msg, if decide (c_id msg = tempId) then r else msg) <$> l = l ∧
  filter (λ msg, c_id msg ≠ tempId) l = l.
Proof.
  induction l as [|x l IH]; [done|]. rewrite fmap_cons, not_elem_of_cons.
  intros [Hx Hl]. destruct (IH Hl) as [IH1 IH2]. split.
  - rewrite fmap_cons, IH1. by rewrite decide_False.
  - rewrite filter_cons_True by done. by rewrite IH2.
Qed.

Lemma handleNewMessage_shown x c :
  c_id x ∈ shown_ids c → handleNewMessage x c = c.
Proof.
  intros Hin. unfold handleNewMessage. destruct (selectedUser c); [|done].
  case_decide; [|done]. by rewrite bool_decide_eq_true_2.
Qed.

(** X23: a message on its way to both screens.  The sender's client shows a
    placeholder at once; when the server answers 201 the placeholder gives
    way, in place, to the stored message, whose [_id] is then pending.  The
    client of the receiver, when the receiver is registered under its socket
    and has the sender selected, appends the same message on the
    [newMessage] event.  A replay of that event changes neither client, also
    after the pending window has closed, and a failed request would have
    removed the placeholder and left the sender's messages as they were. *)
Theorem message_reaches_both_screens
    (me peer : string) (body_text reply : option string) (files : Files)
    (newId : string) (now : Time) (w w' : World) (resp : Response) (evs : list Emit)
    (tempId : string) (optimistic : ClientMessage) (cs cr : Client)
    (sub sid : string) :
  sendMessage me peer body_text reply files newId now w = (w', resp, evs) →
  status resp = 201 →
  selectedUser cs = Some peer → c_id optimistic = tempId → tempId ∉ shown_ids cs →
  userSocketMap w !! peer = Some sid → truthy (Some sid) = true →
  selectedUser cr = Some me → newId ∉ shown_ids cr → newId ∉ pendingMessages cr →
  let cs1 := client_sendMessage_begin optimistic cs in
  ∃ m, body resp = JMessage m ∧ findById w' newId = Some m ∧
       let cs2 := client_sendMessage_success tempId (pendingMessages cs)
                    (to_client m) cs1 in
       let cr1 := client_receive sub sid evs cr in
       c_messages cs1 = c_messages cs ++ [optimistic] ∧
       c_messages cs2 = c_messages cs ++ [to_client m] ∧
       pendingMessages cs2 = pendingMessages cs ∪ {[newId]} ∧
       c_messages cr1 = c_messages cr ++ [to_client m] ∧
       handleNewMessage (to_client m) cs2 = cs2 ∧
       handleNewMessage (to_client m) (client_sendMessage_timeout newId cs2)
         = client_sendMessage_timeout newId cs2 ∧
       client_receive sub sid evs cr1 = cr1 ∧
       c_messages (client_sendMessage_failure tempId cs1) = c_messages cs.
Proof.
  intros Hsend H201 Hsel Hopt Hfresh Hreg Ht Hselr Hnew Hpen cs1.
  destruct (sendMessage_created _ _ _ _ _ _ _ _ _ _ _ Hsend H201)
    as (_ & _ & _ & -> & -> & ->).
  set (m := new_message newId me peer body_text _ _ _ reply now).
  exists m. split; [done|]. split; [cbn; apply lookup_insert_eq|].
  cbn zeta.
  assert (H1 : c_messages cs1 = c_messages cs ++ [optimistic]).
  { subst cs1. unfold client_sendMessage_begin. by rewrite Hsel. }
  destruct (replace_fresh tempId (to_client m) (c_messages cs) Hfresh) as [Hmap Hfil].
  assert (H2 : c_messages (client_sendMessage_success tempId (pendingMessages cs)
                             (to_client m) cs1) = c_messages cs ++ [to_client m]).
  { cbn. rewrite H1, fmap_app, Hmap. cbn. by rewrite decide_True. }
  assert (Hr : client_receive sub sid
                 (emitTo w peer "newMessage" (PMessage m)) cr
               = set_c_messages (c_messages cr ++ [to_client m]) cr).
  { rewrite client_receive_emitTo_online, decode_newMessage by done.
    cbn [client_on]. unfold handleNewMessage. rewrite Hselr.
    rewrite decide_True by done.
    rewrite !bool_decide_eq_false_2; done. }
  split_and!; try done.
  - by rewrite Hr.
  - apply handleNewMessage_shown. unfold shown_ids. rewrite H2, fmap_app.
    apply elem_of_app. right. by apply list_elem_of_singleton.
  - apply handleNewMessage_shown. unfold shown_ids.
    change (c_messages (client_sendMessage_timeout newId ?c)) with (c_messages c).
    rewrite H2, fmap_app.
    apply elem_of_app. right. by apply list_elem_of_singleton.
  - rewrite Hr. rewrite client_receive_emitTo_online, decode_newMessage by done.
    cbn [client_on]. apply handleNewMessage_shown. unfold shown_ids. cbn.
    rewrite fmap_app. apply elem_of_app. right. by apply list_elem_of_singleton.
  - cbn. rewrite H1, filter_app, Hfil. rewrite filter_cons_False; [|by intros []].
    by rewrite filter_nil, app_nil_r.
Qed.
Lemma message_reaches_both_screens_witness :
  let o := sendMessage "a" "b" (Some "again") None no_files "m2" 7 demo_world in
  ∃ m, body o.1.2 = JMessage m ∧ findById o.1.1 "m2" = Some m ∧
       shown_ids (client_receive "a" "s2" o.2 demo_bob_client) = ["m1"; "m2"] ∧
       c_messages (client_receive "a" "s2" o.2 demo_bob_client)
         = c_messages demo_bob_client ++ [to_client m].
Proof.
  set (o := sendMessage "a" "b" (Some "again") None no_files "m2" 7 demo_world).
  destruct (message_reaches_both_screens "a" "b" (Some "again") None no_files "m2" 7
              demo_world o.1.1 o.1.2 o.2 "temp-7"
              (optimisticMessage "temp-7" "a" "b" "again" None None None None 7)
              demo_alice_client demo_bob_client "a" "s2")
    as (m & Hb & Hf & _ & _ & _ & Hr & _).
  - subst o. by destruct (sendMessage _ _ _ _ _ _ _ _) as [[? ?] ?].
  - reflexivity.
  - reflexivity.
  - reflexivity.
  - by_evaluation.
  - reflexivity.
  - reflexivity.
  - reflexivity.
  - by_evaluation.
  - by_evaluation.
  - exists m. by split_and!.
Defined.
(** ** Receipt marks *)

Lemma truthy_nonempty s : s ≠ EmptyString → truthy (Some s) = true.
Proof. by destruct s. Qed.

Lemma isMessageRead_spec me cm : isMessageRead me cm = bool_decide (me ∈ c_readers cm).
Proof.
  unfold isMessageRead, c_readers. apply bool_decide_ext.
  rewrite Exists_exists, list_elem_of_fmap. split.
  - intros (r & Hr & <-). eauto.
  - intros (r & -> & Hr). eauto.
Qed.

Lemma isMessageDelivered_spec populated cm :
  populated = true ∨ c_receiverId cm ≠ EmptyString →
  isMessageDelivered populated cm = bool_decide (c_deliveredTo cm ≠ []).
Proof.
  intros Hp. unfold isMessageDelivered. apply bool_decide_ext.
  rewrite Exists_exists. split.
  - intros (d & Hd & _) Heq. rewrite Heq in Hd. by apply elem_of_nil in Hd.
  - destruct (c_deliveredTo cm) as [|d l]; [done|]. intros _.
    exists d. split; [left|]. right.
    destruct Hp as [?|?]; [by left|right; by apply truthy_nonempty].
Qed.

(** X24: the receipt mark under a message.  For every message the server
    stores, the sender sees two checks from the moment of creation, because
    [isMessageDelivered] holds as soon as [deliveredTo] has an entry at all
    and the sender is entered at creation; the checks are blue exactly when
    the sender itself is in [readBy].  A read receipt of another user, stored
    by the server or merged by the client, leaves the mark as it is.  Other
    viewers see no mark, and a placeholder carries one check. *)
Theorem receipt_mark (us : list User) (acts : list Action) (k : string)
    (m : Message) (populated : bool) :
  Forall (λ u, user_id u ≠ EmptyString) us →
  messages (run acts (init_world us)) !! k = Some m →
  let w := run acts (init_world us) in
  let me := senderId m in
  receipt_tick me populated (to_client m) =
    (if bool_decide (me ∈ readers m) then TwoBlueChecks else TwoChecks) ∧
  (∀ viewer, viewer ≠ me → receipt_tick viewer populated (to_client m) = NoTick) ∧
  (∀ u now, u ≠ me →
     ∃ m', findById (markMessageAsRead u k now w).1.1 k = Some m' ∧
           u ∈ readers m' ∧
           receipt_tick me populated (to_client m')
             = receipt_tick me populated (to_client m)) ∧
  (∀ u cm, u ≠ me →
     receipt_tick me populated (add_reader u cm) = receipt_tick me populated cm) ∧
  (∀ tempId sel t i v a r now,
     receipt_tick me populated (optimisticMessage tempId me sel t i v a r now)
       = OneCheck).
Proof.
  intros Hus Hk w me.
  pose proof (run_message_ok us acts k m Hk) as (Hne & Hrcv & [rest Hdel] & _).
  assert (Hwf : store_wf w) by apply run_store_wf, init_world_wf.
  assert (Hnonempty : receiverId m ≠ EmptyString).
  { apply list_elem_of_fmap in Hrcv as (u & -> & Hu).
    rewrite Forall_forall in Hus. by apply Hus. }
  assert (Htick : ∀ m', senderId m' = me → receiverId m' = receiverId m →
            deliveredTo m' ≠ [] →
            receipt_tick me populated (to_client m') =
              if bool_decide (me ∈ readers m') then TwoBlueChecks else TwoChecks).
  { intros m' Hs Hr Hd. unfold receipt_tick. cbn [c_senderId to_client].
    rewrite bool_decide_eq_true_2 by done.
    rewrite isMessageRead_spec.
    assert (c_readers (to_client m') = readers m') as ->.
    { unfold c_readers, readers. cbn. by rewrite <- list_fmap_compose. }
    case_bool_decide; [done|].
    rewrite isMessageDelivered_spec; [|right; cbn; by rewrite Hr].
    rewrite bool_decide_eq_true_2; [done|]. cbn. by destruct (deliveredTo m'). }
  split_and!.
  - apply Htick; try done. by rewrite Hdel.
  - intros viewer Hv. unfold receipt_tick. cbn [c_senderId to_client].
    by rewrite bool_decide_eq_false_2.
  - intros u now Hu. unfold findById.
    destruct (decide (u ∈ readers m)) as [Hin|Hin].
    + rewrite (markMessageAsRead_again u k now w m Hk Hin). cbn. eauto.
    + destruct (markMessageAsRead_first u k now w m Hwf Hk Hin) as [-> Hst].
      eexists. split; [exact Hst|]. split.
      * unfold readers. cbn. rewrite fmap_app. apply elem_of_app. right.
        by apply list_elem_of_singleton.
      * rewrite !Htick; try done; [|by rewrite Hdel|cbn; by rewrite Hdel].
        apply (f_equal (λ b : bool, if b then TwoBlueChecks else TwoChecks)).
        apply bool_decide_ext. unfold readers. cbn. rewrite fmap_app, elem_of_app.
        cbn. rewrite list_elem_of_singleton. split; [|by left].
        intros [?|Heq]; [done|]. by rewrite Heq in Hu.
  - intros u cm Hu. unfold add_reader.
    destruct (bool_decide (u ∈ c_readers cm)); [done|].
    unfold receipt_tick. cbn [c_senderId set_c_readBy].
    destruct (bool_decide (c_senderId cm = me)); [|done].
    rewrite !isMessageRead_spec. unfold c_readers. cbn [c_readBy set_c_readBy].
    assert (bool_decide (me ∈ cr_userId <$> c_readBy cm ++ [mkClientReceipt u None])
            = bool_decide (me ∈ cr_userId <$> c_readBy cm)) as ->.
    { apply bool_decide_ext. rewrite fmap_app, elem_of_app. cbn.
      rewrite list_elem_of_singleton. split; [|by left]. intros [?|Heq]; [done|].
      by rewrite Heq in Hu. }
    done.
  - intros. unfold receipt_tick. cbn. by rewrite bool_decide_eq_true_2.
Qed.

Lemma receipt_mark_witness :
  let m := new_message "m1" "a" "b" (Some "hello") None None None None 5 in
  messages demo_world !! "m1" = Some m ∧
  receipt_tick "a" false (to_client m) = TwoChecks ∧
  ∃ m', findById (markMessageAsRead "b" "m1" 8 demo_world).1.1 "m1" = Some m' ∧
        "b" ∈ readers m' ∧
        receipt_tick "a" false (to_client m') = TwoChecks.
Proof.
  intros m.
  assert (Hm : messages demo_world !! "m1" = Some m) by (vm_compute; reflexivity).
  split; [exact Hm|].
  destruct (receipt_mark [alice; bob; carol; helper]
              [Connect (mkSocket "s1" "a"); Connect (mkSocket "s2" "b");
               Http "a" 5 (SendMessage "b" (Some "hello") None no_files "m1")]
              "m1" m false) as (H1 & _ & H3 & _).
  - by_evaluation.
  - exact Hm.
  - split; [exact H1|].
    destruct (H3 "b" 8) as (m' & Hm' & Hr & Ht); [done|].
    exists m'. split; [exact Hm'|]. split; [exact Hr|]. exact (eq_trans Ht H1).
Defined.

(** ** The message menu and the reaction picker *)






Lemma find_shown (c : Client) (cm : ClientMessage) :
  NoDup (shown_ids c) → cm ∈ c_messages c →
  head (filter (λ x, c_id x = c_id cm) (c_messages c)) = Some cm.
Proof.
  unfold shown_ids. induction (c_messages c) as [|x l IH]; [by intros _ ?%elem_of_nil|].
  rewrite fmap_cons, NoDup_cons, filter_cons. intros [Hx Hl] [->|Hin]%elem_of_cons.
  - by rewrite decide_True.
  - rewrite decide_False; [by apply IH|].
    intros Heq. apply Hx. rewrite Heq. apply list_elem_of_fmap. eauto.
Qed.

(** X26: a click on an emoji toggles the reaction of the user.  When the
    client shows the reactions that the server stores, the click asks to
    remove the reaction if the user has reacted with this very emoji, and to
    add it otherwise; the server answers 200, and then the user has no
    reaction in the first case and exactly the clicked one in the second,
    whatever it had before; the reactions of the other users are as they
    were. *)
Theorem reaction_click_toggles (me k clicked : string) (now : Time) (w : World)
    (c : Client) (cm : ClientMessage) (m : Message) :
  store_wf w → messages w !! k = Some m →
  NoDup (shown_ids c) → cm ∈ c_messages c → c_id cm = k →
  c_reactions cm = reactions m → clicked ≠ EmptyString →
  let has := bool_decide (mkReaction me clicked ∈ reactions m) in
  let r := handleReactionClick me k clicked c in
  let o := handle me now r w in
  r = (if has then RemoveReaction k else AddReaction k (Some clicked)) ∧
  status o.1.2 = 200 ∧
  ∃ m', findById o.1.1 k = Some m' ∧ body o.1.2 = JMessage m' ∧
        reactions_of me m' = (if has then [] else [mkReaction me clicked]) ∧
        ∀ u, u ≠ me → reactions_of u m' = reactions_of u m.
Proof.
  intros Hwf Hk Hnd Hin Hid Hre Hne has r o.
  assert (Hf : findById w k = Some m) by done.
  assert (Hr : r = if has then RemoveReaction k else AddReaction k (Some clicked)).
  { subst r has. unfold handleReactionClick. rewrite <- Hid, (find_shown c cm Hnd Hin).
    rewrite Hre.
    assert (bool_decide (Exists (λ x, reaction_userId x = me ∧ emoji x = clicked)
                           (reactions m))
            = bool_decide (mkReaction me clicked ∈ reactions m)) as ->; [|done].
    apply bool_decide_ext. rewrite Exists_exists. split.
    - intros ([u e] & Hx & Hu & He). cbn in *. by subst.
    - intros Hx. exists (mkReaction me clicked). done. }
  split; [done|]. subst o. rewrite Hr. destruct has eqn:Hhas; cbn [handle].
  - destruct (removeReaction_stored me k w m Hwf Hf) as [-> Hst].
    split; [done|]. eexists. split; [exact Hst|]. split; [done|].
    unfold reactions_of. cbn [reactions set_reactions]. split.
    + rewrite (filter_key_other reaction_userId). by rewrite decide_True.
    + intros u Hu. rewrite (filter_key_other reaction_userId).
      by rewrite decide_False.
  - destruct clicked as [|ch e]; [done|].
    destruct (addReaction_stored me k ch e w m Hwf Hf) as [-> Hst].
    split; [done|]. eexists. split; [exact Hst|]. split; [done|].
    unfold reactions_of. cbn [reactions set_reactions]. split.
    + rewrite filter_app, (filter_key_other reaction_userId).
      rewrite decide_True by done. by rewrite filter_cons_True.
    + intros u Hu. rewrite filter_app, (filter_key_other reaction_userId).
      rewrite decide_False by done.
      rewrite filter_cons_False; [|cbn; congruence].
      by rewrite filter_nil, app_nil_r.
Qed.

Lemma reaction_click_toggles_witness :
  let o1 := handle "b" 7 (handleReactionClick "b" "m1" ":)" demo_bob_client)
              demo_world in
  status o1.1.2 = 200 ∧
  ∃ m', findById o1.1.1 "m1" = Some m' ∧ reactions_of "b" m' = [mkReaction "b" ":)"].
Proof.
  destruct (reaction_click_toggles "b" "m1" ":)" 7 demo_world demo_bob_client
              (to_client (push_delivered "b" 6
                            (new_message "m1" "a" "b" (Some "hello") None None None
                               None 5)))
              (new_message "m1" "a" "b" (Some "hello") None None None None 5))
    as (_ & Hs & m' & Hm' & _ & Hmine & _).
  - unfold store_wf. by_evaluation.
  - vm_compute. reflexivity.
  - by_evaluation.
  - vm_compute. left.
  - reflexivity.
  - reflexivity.
  - done.
  - split; [exact Hs|]. exists m'. split; [exact Hm'|exact Hmine].
Defined.

(** ** The typing indicator, end to end *)

Lemma decode_stop t u :
  decode (mkEmit t "userStoppedTyping" (PObject [("userId", u)]))
  = Some (UserStoppedTyping u).
Proof. reflexivity. Qed.

Lemma decode_typing t u name :
  decode (mkEmit t "userTyping" (PObject [("userId", u); ("userName", name)]))
  = Some (UserTyping u).
Proof. reflexivity. Qed.

(** A batch of stop notifications at the client. *)
Lemma client_receive_stops sub sid evs c :
  (∀ e, e ∈ evs → event e = "userStoppedTyping" ∧ ∃ uid, payload e = stopped_typing uid) →
  let c' := client_receive sub sid evs c in
  c_messages c' = c_messages c ∧
  ∀ x, x ∈ c_typingUsers c' ↔
       x ∈ c_typingUsers c ∧
       ∀ e, e ∈ evs → to e = Some sid → payload e ≠ stopped_typing x.
Proof.
  revert c. induction evs as [|e evs IH]; intros c Hevs; cbn zeta.
  - split; [done|]. intros x. split; [|by intros [? _]].
    intros Hx. split; [done|]. by intros e ?%elem_of_nil.
  - unfold client_receive. cbn [foldl].
    fold (client_receive sub sid evs (client_event sub sid c e)).
    destruct (IH (client_event sub sid c e)) as [Hm Ht].
    { intros e' He'. apply Hevs. by right. }
    destruct (Hevs e) as (Hev & uid & Hp); [left|].
    assert (He : client_event sub sid c e =
                 if decide (to e = Some sid) then on_userStoppedTyping uid c else c).
    { unfold client_event. case_decide; [|done].
      destruct e as [t ev p]. cbn in *. subst. unfold stopped_typing.
      by rewrite decode_stop. }
    split.
    + rewrite Hm, He. by case_decide.
    + intros x. rewrite Ht, He. split.
      * intros [Hx Hrest]. case_decide as Hto.
        -- cbn in Hx. apply list_elem_of_filter in Hx as [Hne Hx]. split; [done|].
           intros e' [->|He']%elem_of_cons Hto'; [|by apply Hrest].
           rewrite Hp. intros [= ->]. done.
        -- split; [done|]. intros e' [->|He']%elem_of_cons Hto'; [done|by apply Hrest].
      * intros [Hx Hall]. split.
        -- case_decide as Hto; [|done]. cbn. apply list_elem_of_filter. split; [|done].
           intros ->. by apply (Hall e); [left|..].
        -- intros e' He'. apply Hall. by right.
Qed.

(** X27: the typing indicator from keystroke to screen.  The store announces
    typing once and stays silent until it has announced the stop.  On the
    signal the server notifies the receiver, whose client shows the typist
    when the typist is the user it subscribed for, and only then, and leaves
    its messages alone.  The stop signal, and a cleanup tick later than 3000
    ms after the signal, take the typist from the screen.  A typist that
    disconnects instead stays on the screen of the receiver, whatever cleanup
    ticks follow. *)
Theorem typing_indicator_end_to_end (socket : Socket) (userName rcv sub sid : string)
    (t now : Time) (w : World) (ct cr : Client) :
  userSocketMap w !! rcv = Some sid → truthy (Some sid) = true →
  isTyping ct = false → socket_userId socket ≠ rcv →
  let typist := socket_userId socket in
  let s1 := handleTyping true rcv ct in
  let o1 := on_typing socket userName rcv t w in
  let cr1 := client_receive sub sid o1.2 cr in
  let s2 := handleStopTyping true rcv s1.1 in
  let o2 := on_stopTyping socket rcv o1.1 in
  let o3 := on_disconnect socket o1.1 in
  s1.2 = [SigTyping rcv] ∧ handleTyping true rcv s1.1 = (s1.1, []) ∧
  s2.2 = [SigStopTyping rcv] ∧ handleStopTyping true rcv s2.1 = (s2.1, []) ∧
  c_messages cr1 = c_messages cr ∧
  (typist ∈ c_typingUsers cr1 ↔ typist = sub ∨ typist ∈ c_typingUsers cr) ∧
  (∀ x, x ≠ typist → x ∈ c_typingUsers cr1 ↔ x ∈ c_typingUsers cr) ∧
  (typist ∉ c_typingUsers (client_receive sub sid o2.2 cr1)) ∧
  (3000 < now - t →
   typist ∉ c_typingUsers (client_receive sub sid (typing_sweep now o1.1).2 cr1)) ∧
  (typist ∈ c_typingUsers cr1 →
   typist ∈ c_typingUsers
              (client_receive sub sid (typing_sweep now o3.1).2
                 (client_receive sub sid o3.2 cr1))).
Proof.
  intros Hreg Ht Hidle Hne typist s1 o1 cr1 s2 o2 o3.
  assert (Hcr1 : cr1 = on_userTyping sub typist cr).
  { subst cr1 o1. unfold on_typing. cbn [snd].
    rewrite client_receive_emitTo_online, decode_typing; done. }
  assert (Hs1 : s1 = (mkClient (selectedUser ct) (c_messages ct) (pendingMessages ct)
                        (c_typingUsers ct) true, [SigTyping rcv])).
  { subst s1. unfold handleTyping. by rewrite Hidle. }
  split_and!.
  - by rewrite Hs1.
  - by rewrite Hs1.
  - subst s2. by rewrite Hs1.
  - subst s2. by rewrite Hs1.
  - rewrite Hcr1. unfold on_userTyping. by case_decide.
  - rewrite Hcr1. unfold on_userTyping. case_decide as Hsub.
    + cbn. rewrite elem_of_app, list_elem_of_singleton. split; [by left|].
      intros _. by right.
    + split; [by right|]. by intros [?|?].
  - intros x Hx. rewrite Hcr1. unfold on_userTyping. case_decide as Hsub; [|done].
    cbn. rewrite elem_of_app, list_elem_of_filter, list_elem_of_singleton.
    split; [by intros [[_ ?]|?]|by left].
  - subst o2. unfold on_stopTyping. cbn [snd].
    rewrite client_receive_emitTo_online, decode_stop by done.
    cbn. intros [? _]%list_elem_of_filter. done.
  - intros Hexp.
    destruct (client_receive_stops sub sid (typing_sweep now o1.1).2 cr1) as [_ Hx].
    { intros e (uid & d & _ & _ & He)%typing_sweep_events.
      pose proof (stop_event_payload _ _ _ _ He) as Hp.
      apply elem_of_emitTo in He as (_ & _ & Hev & _). eauto. }
    rewrite Hx. intros [_ Hall].
    apply (Hall (mkEmit (Some sid) "userStoppedTyping" (stopped_typing typist)));
      [|done|done].
    apply typing_sweep_events. exists typist, (mkTyping rcv t).
    split; [cbn; apply lookup_insert_eq|]. split; [done|].
    unfold emitTo, getReceiverSocketId. cbn. rewrite Hreg, Ht. left.
  - intros Hshown.
    assert (Hd : client_receive sub sid o3.2 cr1 = cr1).
    { subst o3. cbn. unfold client_event. by cbn. }
    rewrite Hd.
    destruct (client_receive_stops sub sid (typing_sweep now o3.1).2 cr1) as [_ Hx].
    { intros e (uid & d & _ & _ & He)%typing_sweep_events.
      pose proof (stop_event_payload _ _ _ _ He) as Hp.
      apply elem_of_emitTo in He as (_ & _ & Hev & _). eauto. }
    rewrite Hx. split; [done|].
    intros e (uid & d & Hu & _ & He)%typing_sweep_events _.
    rewrite (stop_event_payload _ _ _ _ He). intros [= ->].
    subst o3. cbn in Hu. by rewrite lookup_delete_eq in Hu.
Qed.

Lemma typing_indicator_end_to_end_witness :
  let o1 := on_typing (mkSocket "s1" "a") "Alice" "b" 10 demo_world in
  let cr1 := client_receive "a" "s2" o1.2 demo_bob_client in
  c_typingUsers cr1 = ["a"] ∧
  "a" ∉ c_typingUsers (client_receive "a" "s2" (typing_sweep 4000 o1.1).2 cr1).
Proof.
  destruct (typing_indicator_end_to_end (mkSocket "s1" "a") "Alice" "b" "a" "s2"
              10 4000 demo_world init_client demo_bob_client)
    as (_ & _ & _ & _ & _ & _ & _ & _ & Hsweep & _).
  - reflexivity.
  - reflexivity.
  - reflexivity.
  - done.
  - split; [vm_compute; reflexivity|]. apply Hsweep. cbn. lia.
Defined.

(** ** Sending through the user interface *)




(** ** Attachments *)

(** X28: what the input form attaches, the upload filter of the server
    accepts.  An image or a video that the form accepts has a MIME type that
    passes [fileFilter] and a size within the limit of multer, and so has a
    recorded voice message of any size as far as its type goes.  The filter
    accepts a file exactly when its MIME type starts with [image/], [video/]
    or [audio/] or its lower-cased extension contains one of the fifteen
    listed names, whatever field it came in; the error of a refused file is
    answered with status 400 and names the MIME type. *)
Theorem attachments_pass_upload_filter (file : IncomingFile) :
  (∀ f, handleImageChange file = inr f →
        f = file ∧ fileFilter f = None ∧ (file_size f ≤ 10 * 1024 * 1024)%N ∧
        (file_size f ≤ fileSize)%N) ∧
  (∀ f, handleVideoChange file = inr f →
        f = file ∧ fileFilter f = None ∧ (file_size f ≤ fileSize)%N) ∧
  (∀ n, fileFilter (voice_message n) = None) ∧
  (fileFilter file = None ↔
     String.prefix "image/" (mimetype file) = true ∨
     String.prefix "video/" (mimetype file) = true ∨
     String.prefix "audio/" (mimetype file) = true ∨
     regex_test (allowedImageTypes ++ allowedVideoTypes ++ allowedAudioTypes)
       (ext_lower file) = true) ∧
  (∀ e, fileFilter file = Some e →
        e = invalid_file_type (mimetype file) ∧
        uploadMessageMedia (Some (PlainError e)) = Some (mkResponse 400 (JInfo e))) ∧
  (∀ message,
     uploadMessageMedia (Some (MulterError "LIMIT_FILE_SIZE" message)) =
       Some (mkResponse 400 (JInfo "File size too large. Maximum size is 50MB."))) ∧
  uploadMessageMedia None = None.
Proof.
  split_and!.
  - intros f. unfold handleImageChange.
    destruct (String.prefix "image/" (mimetype file)) eqn:Hp; [|done]. cbn [negb].
    destruct (10 * 1024 * 1024 <? file_size file)%N eqn:Hs; [done|].
    intros [= <-]. apply N.ltb_ge in Hs. split_and!; try done.
    + unfold fileFilter. by rewrite Hp.
    + unfold fileSize. lia.
  - intros f. unfold handleVideoChange.
    destruct (String.prefix "video/" (mimetype file)) eqn:Hp; [|done]. cbn [negb].
    destruct (50 * 1024 * 1024 <? file_size file)%N eqn:Hs; [done|].
    intros [= <-]. apply N.ltb_ge in Hs. split_and!; try done.
    unfold fileFilter. rewrite Hp. by rewrite orb_true_r.
  - done.
  - unfold fileFilter, regex_test. rewrite !existsb_app.
    destruct (String.prefix "image/" (mimetype file)) eqn:H1; [by split; auto|].
    destruct (String.prefix "video/" (mimetype file)) eqn:H2; [by split; auto|].
    destruct (String.prefix "audio/" (mimetype file)) eqn:H3; [by split; auto|].
    assert (bool_decide (mimetype file = "audio/webm") = false) as ->.
    { apply bool_decide_eq_false_2. intros Heq. by rewrite Heq in H3. }
    cbn [orb].
    destruct (existsb _ allowedImageTypes || existsb _ allowedVideoTypes
              || existsb _ allowedAudioTypes) eqn:He.
    + split; [intros _|done]. do 3 right.
      by rewrite orb_assoc.
    + split; [done|]. intros [?|[?|[?|Hx]]]; try done.
      by rewrite orb_assoc, He in Hx.
  - intros e. unfold fileFilter. destruct (_ || _); [done|]. intros [= <-].
    split; [done|]. cbn. unfold invalid_file_type. by rewrite append_cons.
  - done.
  - done.
Qed.

(** ** The answer and its echo *)





